(** * whatspace: capacity probing of removable drives

    A shallow embedding of the two utilities of the repository:

    - [Spacechk] (src/windows/spacechk/spacechk/spacechk.cpp): fills the
      volume with 10 MiB segment files and reads them back;
    - [Maxspace] (the single-file prober): allocates one file spanning the
      free space and writes/reads one sector every 10 MiB.

    Machine integers are [Z] with the wrap-around written out, I/O buffers
    are maps from byte offsets to byte values, and every Win32 call goes
    through an explicit interface whose answers the program cannot
    influence.  Each run returns, besides its result, the list of calls it
    made and of sizes it printed. *)

From Stdlib Require Import ZArith List Bool String Ascii Lia.
Import ListNotations.

Local Open Scope string_scope.
Local Open Scope list_scope.
Local Open Scope Z_scope.

(** ** Shared constants and helpers (identical in both utilities) *)

Definition KiB : Z := 1024.
Definition MiB : Z := KiB * 1024.
Definition GiB : Z := MiB * 1024.
Definition TiB : Z := GiB * 1024.

Definition sizeArray : list Z := [TiB; GiB; MiB; KiB].
Definition sizeNames : list string := ["TiB"; "GiB"; "MiB"; "KiB"].
Definition byteName : string := "bytes".

(** [uint64_t] arithmetic wraps; a [uint64_t] stored into a signed 64-bit
    variable is reinterpreted in two's complement. *)
Definition wrap64 (z : Z) : Z := z mod 2 ^ 64.
Definition signed64 (z : Z) : Z :=
  let u := wrap64 z in if u <? 2 ^ 63 then u else u - 2 ^ 64.

(** [HumanReadable]: the loop over [sizeArray]/[sizeNames]; the pair is
    the returned unit name and the value left in [convertedSize]. *)
Fixpoint HumanReadable_loop (sizes : list Z) (names : list string)
         (sizeInBytes : Z) : string * Z :=
  match sizes, names with
  | sz :: sizes', nm :: names' =>
      if sizeInBytes >=? sz then (nm, sizeInBytes / sz)
      else HumanReadable_loop sizes' names' sizeInBytes
  | _, _ => (byteName, sizeInBytes)
  end.

Definition HumanReadable (sizeInBytes : Z) : string * Z :=
  HumanReadable_loop sizeArray sizeNames sizeInBytes.

(** ** I/O buffers

    A buffer is the byte stored at each offset from its start.  The
    programs only ever touch offsets inside the allocation. *)

Definition buffer := Z -> Z.

Definition memset (b : buffer) (c : Z) (n : Z) : buffer :=
  fun k => if (0 <=? k) && (k <? n) then c else b k.

(** Little-endian bytes of a machine word, as the x86/x64 targets of the
    Visual Studio projects lay them out. *)
Definition byte_of (v : Z) (j : Z) : Z := (v / 2 ^ (8 * j)) mod 256.

(** [*(uint64_t* )(buf + off) = v] *)
Definition store64 (b : buffer) (off : Z) (v : Z) : buffer :=
  fun k => if (off <=? k) && (k <? off + 8) then byte_of v (k - off) else b k.

Fixpoint load_le (b : buffer) (off : Z) (n : nat) : Z :=
  match n with
  | O => 0
  | S n' => b off + 256 * load_le b (off + 1) n'
  end.

(** [*(uint64_t* )(buf + off)] *)
Definition load64 (b : buffer) (off : Z) : Z := load_le b off 8.

(** The marker of unit [i]: [i + 1] in [uint64_t]. *)
Definition marker (i : Z) : Z := wrap64 (i + 1).

(** [for (int o = 0; o < 4; o++) *(uint64_t* )(buf + o * dataOffsets) = v;] *)
Fixpoint stamp_from (b : buffer) (dataOffsets : Z) (v : Z) (o : Z) (n : nat)
  : buffer :=
  match n with
  | O => b
  | S n' => stamp_from (store64 b (o * dataOffsets) v) dataOffsets v (o + 1) n'
  end.

Definition stamp (b : buffer) (size : Z) (v : Z) : buffer :=
  stamp_from b (size / 4) v 0 4.

(** The comparison loop over the four slots [o * dataOffsets], [o < 4]:
    the first slot whose word differs from [expected], with what it
    holds. *)
Fixpoint first_mismatch (b : buffer) (dataOffsets expected : Z) (o : Z)
         (n : nat) : option (Z * Z) :=
  match n with
  | O => None
  | S n' =>
      let v := load64 b (o * dataOffsets) in
      if v =? expected then first_mismatch b dataOffsets expected (o + 1) n'
      else Some (o, v)
  end.

Definition check (b : buffer) (size expected : Z) : option (Z * Z) :=
  first_mismatch b (size / 4) expected 0 4.

(** ** Device statistics ([main] of both utilities) *)

(** spacechk: [uint64_t freeSpace = bytesPerSector;
    freeSpace *= sectorsPerCluster; freeSpace *= freeClusters;] *)
Definition space_u64 (bytesPerSector sectorsPerCluster clusters : Z) : Z :=
  let s0 := wrap64 bytesPerSector in
  let s1 := wrap64 (s0 * sectorsPerCluster) in
  wrap64 (s1 * clusters).

(** maxspace: the same accumulation in [int64_t].  Signed overflow is
    modelled as the two's complement wrap the MSVC targets produce. *)
Definition space_i64 (bytesPerSector sectorsPerCluster clusters : Z) : Z :=
  let s0 := signed64 bytesPerSector in
  let s1 := signed64 (s0 * sectorsPerCluster) in
  signed64 (s1 * clusters).

Definition is_dword (z : Z) : Prop := 0 <= z < 2 ^ 32.

(** ** How a call ends

    A function of the programs returns its [bool], or the process dies
    inside it.  The one way to die is [PrintError] called with a [HANDLE]
    where its format has [%s]: [vswprintf_s] takes the handle value for
    the address of a string and reads from it. *)
Inductive outcome := Returns (ok : bool) | Dies.

(** ** The single-file prober (maxspace) *)

Module Maxspace.

Definition verifyFilename : string := "verifysp.bin".
Definition verifySize : Z := 10 * MiB.
Definition batchSize : Z := 5.

(** [main]: free and total space, then the sanity check
    [if (freeSpace <= 0 || totalSpace <= 0) return 1]. *)
Definition main_space (bytesPerSector sectorsPerCluster freeClusters
                       totalClusters : Z) : option (Z * Z) :=
  let freeSpace := space_i64 bytesPerSector sectorsPerCluster freeClusters in
  let totalSpace := space_i64 bytesPerSector sectorsPerCluster totalClusters in
  if (freeSpace <=? 0) || (totalSpace <=? 0) then None
  else Some (freeSpace, totalSpace).

(** *** Fast allocation: [AddPrivelege] and [CreateVerifyFile]

    Every call below is made at most once per run, so the operating
    system's side is the answer it gives to each. *)

Record alloc_os := {
  open_token_ok : bool;          (* OpenProcessToken *)
  adjust_priv_ok : bool;         (* AdjustTokenPrivileges *)
  close_token_ok : bool;         (* CloseHandle on the token *)
  create_ok : bool;              (* CreateFile, CREATE_ALWAYS *)
  set_pointer_ok : Z -> bool;    (* SetFilePointerEx to an offset *)
  set_eof_ok : bool;             (* SetEndOfFile *)
  set_valid_ok : Z -> bool;      (* SetFileValidData to a length *)
  close_file_ok : bool           (* CloseHandle on the file *)
}.

Inductive api_call :=
| CallOpenProcessToken
| CallLookupPrivilegeValue
| CallAdjustTokenPrivileges
| CallCloseToken
| CallCreateFile
| CallSetFilePointerEx (offset : Z)
| CallSetEndOfFile
| CallSetFileValidData (len : Z)
| CallCloseFile.

Definition AddPrivelege (os : alloc_os) : bool * list api_call :=
  if negb (open_token_ok os) then (false, [CallOpenProcessToken])
  else if negb (adjust_priv_ok os) then
    (false, [CallOpenProcessToken; CallLookupPrivilegeValue;
             CallAdjustTokenPrivileges; CallCloseToken])
  else if negb (close_token_ok os) then
    (false, [CallOpenProcessToken; CallLookupPrivilegeValue;
             CallAdjustTokenPrivileges; CallCloseToken])
  else
    (true, [CallOpenProcessToken; CallLookupPrivilegeValue;
            CallAdjustTokenPrivileges; CallCloseToken]).

(** [CreateVerifyFile].  When the last [CloseHandle] fails, the error
    line is [PrintError(L"Could not close file %s after creation",
    writeFile)]: the handle is passed for the [%s], and the process dies
    there instead of returning [false]. *)
Definition CreateVerifyFile (os : alloc_os) (totalSpace : Z)
  : outcome * list api_call :=
  let '(priv, c0) := AddPrivelege os in
  if negb priv then (Returns false, c0)
  else if negb (create_ok os) then (Returns false, c0 ++ [CallCreateFile])
  else if negb (set_pointer_ok os totalSpace) then
    (Returns false,
     c0 ++ [CallCreateFile; CallSetFilePointerEx totalSpace; CallCloseFile])
  else if negb (set_eof_ok os) then
    (Returns false,
     c0 ++ [CallCreateFile; CallSetFilePointerEx totalSpace;
            CallSetEndOfFile; CallCloseFile])
  else if negb (set_valid_ok os totalSpace) then
    (Returns false,
     c0 ++ [CallCreateFile; CallSetFilePointerEx totalSpace;
            CallSetEndOfFile; CallSetFileValidData totalSpace;
            CallCloseFile])
  else
    (if close_file_ok os then Returns true else Dies,
     c0 ++ [CallCreateFile; CallSetFilePointerEx totalSpace;
            CallSetEndOfFile; CallSetFileValidData totalSpace;
            CallCloseFile]).

(** The five allocation steps of the fast path, and the point of the call
    list at which each one starts. *)
Inductive alloc_step :=
| StepPrivilege | StepCreate | StepMovePointer | StepCommitEof | StepMarkValid.

Definition all_steps : list alloc_step :=
  [StepPrivilege; StepCreate; StepMovePointer; StepCommitEof; StepMarkValid].

Definition step_of_call (c : api_call) : option alloc_step :=
  match c with
  | CallOpenProcessToken => Some StepPrivilege
  | CallCreateFile => Some StepCreate
  | CallSetFilePointerEx _ => Some StepMovePointer
  | CallSetEndOfFile => Some StepCommitEof
  | CallSetFileValidData _ => Some StepMarkValid
  | _ => None
  end.

Fixpoint steps_of (calls : list api_call) : list alloc_step :=
  match calls with
  | [] => []
  | c :: calls' =>
      match step_of_call c with
      | Some s => s :: steps_of calls'
      | None => steps_of calls'
      end
  end.

(** The operating system's verdict on each step. *)
Definition step_ok (os : alloc_os) (totalSpace : Z) (s : alloc_step) : bool :=
  match s with
  | StepPrivilege => open_token_ok os && adjust_priv_ok os && close_token_ok os
  | StepCreate => create_ok os
  | StepMovePointer => set_pointer_ok os totalSpace
  | StepCommitEof => set_eof_ok os
  | StepMarkValid => set_valid_ok os totalSpace
  end.

(** *** The probe pass: [VerifyTheFile]

    [W] is the state of everything behind the file handle; each Win32 call
    answers and moves it.  [WriteFile]/[ReadFile] answer [None] when the
    call returns 0 and otherwise the transferred byte count ([ReadFile]
    also gives the buffer as the call left it). *)

Class FileApi (W : Type) := {
  OpenExisting : W -> bool -> W;
  GetFileSizeEx : W -> option Z;
  aligned_malloc : W -> Z -> bool;
  SetFilePointerEx : W -> Z -> bool * W;
  WriteFile : W -> buffer -> Z -> option Z * W;
  ReadFile : W -> buffer -> Z -> option (Z * buffer) * W;
  CloseHandle : W -> W
}.

Inductive event :=
| EvOpen (cached : bool)
| EvGetFileSize
| EvPlan (totalBlocks : Z)
| EvSeek (offset : Z)
| EvWrite (offset n : Z)
| EvRead (offset n : Z)
| EvOutputSize (inSize : Z)
| EvClose.

Inductive failure :=
| SeekFailed
| WriteFailed
| ShortWrite (written : Z)
| ReadSeekFailed
| ReadFailed
| ShortRead (bytesRead : Z)
| Mismatch (slot actual : Z).

Section Probe.
Context {W : Type} {api : FileApi W}.

(** The body of the [for] loop at offset [i], block number [count].
    Progress lines (console and clock only) are left out.  A block that
    fails ends with the size it printed through [OutputSize], except when
    [ReadFile] fails: there the error line comes first,
    [PrintError(L"\nUnable to read from %s", verifyFile)], with the
    handle for the [%s], and the process dies in it, before [OutputSize]
    and before [CommonVerifyCleanup]. *)
Definition probe_block (bytesPerSector : Z) (noReads : bool) (i count : Z)
           (verifyBuffer : buffer) (w : W)
  : option failure * buffer * W * list event :=
  let '(moved, w1) := SetFilePointerEx w i in
  if negb moved then
    (Some SeekFailed, verifyBuffer, w1, [EvSeek i; EvOutputSize i])
  else
    let b1 := stamp (memset verifyBuffer 0 bytesPerSector) bytesPerSector
                    (marker count) in
    let '(wr, w2) := WriteFile w1 b1 bytesPerSector in
    match wr with
    | None =>
        (Some WriteFailed, b1, w2, [EvSeek i; EvWrite i bytesPerSector;
                                    EvOutputSize i])
    | Some written =>
        if negb (written =? bytesPerSector) then
          (Some (ShortWrite written), b1, w2,
           [EvSeek i; EvWrite i bytesPerSector; EvOutputSize i])
        else if noReads then
          (None, b1, w2, [EvSeek i; EvWrite i bytesPerSector])
        else
          let '(moved', w3) := SetFilePointerEx w2 i in
          if negb moved' then
            (Some ReadSeekFailed, b1, w3,
             [EvSeek i; EvWrite i bytesPerSector; EvSeek i; EvOutputSize i])
          else
            let b2 := memset b1 255 bytesPerSector in
            let '(rd, w4) := ReadFile w3 b2 bytesPerSector in
            match rd with
            | None =>
                (Some ReadFailed, b2, w4,
                 [EvSeek i; EvWrite i bytesPerSector; EvSeek i;
                  EvRead i bytesPerSector])
            | Some (bytesRead, b3) =>
                if negb (bytesRead =? bytesPerSector) then
                  (Some (ShortRead bytesRead), b3, w4,
                   [EvSeek i; EvWrite i bytesPerSector; EvSeek i;
                    EvRead i bytesPerSector; EvOutputSize i])
                else
                  match check b3 bytesPerSector (marker count) with
                  | Some (o, v) =>
                      (Some (Mismatch o v), b3, w4,
                       [EvSeek i; EvWrite i bytesPerSector; EvSeek i;
                        EvRead i bytesPerSector; EvOutputSize i])
                  | None =>
                      (None, b3, w4,
                       [EvSeek i; EvWrite i bytesPerSector; EvSeek i;
                        EvRead i bytesPerSector])
                  end
            end
    end.

(** [for (LONGLONG i = 0; i < fileSize.QuadPart; i += verifySize)] with
    [count ++] at the end of the body.  A failed block ends the pass:
    the handle is closed and [false] returned, or, after a failed
    [ReadFile], the process has died.  [None] means the fuel ran out. *)
Fixpoint probe_loop (fuel : nat) (bytesPerSector : Z) (noReads : bool)
         (fileSize i count : Z) (verifyBuffer : buffer) (w : W)
  : option (outcome * W * list event) :=
  match fuel with
  | O => None
  | S fuel' =>
      if i <? fileSize then
        let '(fault, b', w', ev) :=
          probe_block bytesPerSector noReads i count verifyBuffer w in
        match fault with
        | Some ReadFailed => Some (Dies, w', ev)
        | Some _ => Some (Returns false, CloseHandle w', ev ++ [EvClose])
        | None =>
            match probe_loop fuel' bytesPerSector noReads fileSize
                             (signed64 (i + verifySize)) (wrap64 (count + 1))
                             b' w' with
            | Some (r, w'', ev') => Some (r, w'', ev ++ ev')
            | None => None
            end
        end
      else
        Some (Returns true, CloseHandle w, [EvOutputSize fileSize; EvClose])
  end.

(** [VerifyTheFile].  The result of opening the file is not looked at (the
    source compares the name buffer, not the handle, with
    INVALID_HANDLE_VALUE), so a failed open shows up at [GetFileSizeEx]. *)
Definition VerifyTheFile (fuel : nat) (bytesPerSector : Z)
           (noReads cached : bool) (w : W)
  : option (outcome * W * list event) :=
  let w0 := OpenExisting w cached in
  match GetFileSizeEx w0 with
  | None =>
      Some (Returns false, CloseHandle w0,
            [EvOpen cached; EvGetFileSize; EvClose])
  | Some fileSize =>
      let totalBlocks := wrap64 fileSize / verifySize in
      if negb (aligned_malloc w0 bytesPerSector) then
        Some (Returns false, CloseHandle w0,
              [EvOpen cached; EvGetFileSize; EvPlan totalBlocks; EvClose])
      else
        match probe_loop fuel bytesPerSector noReads fileSize 0 0
                         (fun _ => 0) w0 with
        | Some (r, w', ev) =>
            Some (r, w', [EvOpen cached; EvGetFileSize; EvPlan totalBlocks]
                         ++ ev)
        | None => None
        end
  end.

End Probe.

(** *** What counts as a failure of a block

    The ways the block at offset [i] can fail, told by the answers of the
    system alone: a refused seek (before the write or before the read), a
    refused write, a short write, a refused read, a short read, a slot
    that does not hold the marker. *)

Inductive cause :=
| SeekFailure | WriteFailure | ShortWriteFailure | ReadSeekFailure
| ReadFailure | ShortReadFailure | PatternMismatch.

Definition cause_of (f : failure) : cause :=
  match f with
  | SeekFailed => SeekFailure
  | WriteFailed => WriteFailure
  | ShortWrite _ => ShortWriteFailure
  | ReadSeekFailed => ReadSeekFailure
  | ReadFailed => ReadFailure
  | ShortRead _ => ShortReadFailure
  | Mismatch _ _ => PatternMismatch
  end.

Section Faults.
Context {W : Type} {api : FileApi W}.
Variables (bytesPerSector : Z) (noReads : bool) (i count : Z).
Variables (verifyBuffer : buffer) (w : W).

Definition stamped : buffer :=
  stamp (memset verifyBuffer 0 bytesPerSector) bytesPerSector (marker count).

Inductive fails_at : cause -> Prop :=
| fails_seek w1 :
    SetFilePointerEx w i = (false, w1) ->
    fails_at SeekFailure
| fails_write w1 w2 :
    SetFilePointerEx w i = (true, w1) ->
    WriteFile w1 stamped bytesPerSector = (None, w2) ->
    fails_at WriteFailure
| fails_short_write w1 w2 written :
    SetFilePointerEx w i = (true, w1) ->
    WriteFile w1 stamped bytesPerSector = (Some written, w2) ->
    written <> bytesPerSector ->
    fails_at ShortWriteFailure
| fails_read_seek w1 w2 w3 :
    noReads = false ->
    SetFilePointerEx w i = (true, w1) ->
    WriteFile w1 stamped bytesPerSector = (Some bytesPerSector, w2) ->
    SetFilePointerEx w2 i = (false, w3) ->
    fails_at ReadSeekFailure
| fails_read w1 w2 w3 w4 :
    noReads = false ->
    SetFilePointerEx w i = (true, w1) ->
    WriteFile w1 stamped bytesPerSector = (Some bytesPerSector, w2) ->
    SetFilePointerEx w2 i = (true, w3) ->
    ReadFile w3 (memset stamped 255 bytesPerSector) bytesPerSector
    = (None, w4) ->
    fails_at ReadFailure
| fails_short_read w1 w2 w3 w4 bytesRead b3 :
    noReads = false ->
    SetFilePointerEx w i = (true, w1) ->
    WriteFile w1 stamped bytesPerSector = (Some bytesPerSector, w2) ->
    SetFilePointerEx w2 i = (true, w3) ->
    ReadFile w3 (memset stamped 255 bytesPerSector) bytesPerSector
    = (Some (bytesRead, b3), w4) ->
    bytesRead <> bytesPerSector ->
    fails_at ShortReadFailure
| fails_mismatch w1 w2 w3 w4 b3 o :
    noReads = false ->
    SetFilePointerEx w i = (true, w1) ->
    WriteFile w1 stamped bytesPerSector = (Some bytesPerSector, w2) ->
    SetFilePointerEx w2 i = (true, w3) ->
    ReadFile w3 (memset stamped 255 bytesPerSector) bytesPerSector
    = (Some (bytesPerSector, b3), w4) ->
    In o [0; 1; 2; 3] ->
    load64 b3 (o * (bytesPerSector / 4)) <> marker count ->
    fails_at PatternMismatch.

End Faults.

(** The offsets at which a run wrote a block. *)
Fixpoint probed (ev : list event) : list Z :=
  match ev with
  | [] => []
  | EvWrite off _ :: ev' => off :: probed ev'
  | _ :: ev' => probed ev'
  end.

(** The offsets [i], [i + verifySize], ... below [fileSize]. *)
Definition offsets_from (i fileSize : Z) : list Z :=
  map (fun k => i + Z.of_nat k * verifySize)
      (seq 0 (Z.to_nat ((fileSize - i + verifySize - 1) / verifySize))).

Definition stride_offsets (fileSize : Z) : list Z := offsets_from 0 fileSize.

(** The file offset an event touches, if it is a file operation. *)
Definition touched (e : event) : option Z :=
  match e with
  | EvSeek off | EvWrite off _ | EvRead off _ => Some off
  | _ => None
  end.

(** The sizes a run printed through [OutputSize]. *)
Fixpoint reported (ev : list event) : list Z :=
  match ev with
  | [] => []
  | EvOutputSize z :: ev' => z :: reported ev'
  | _ :: ev' => reported ev'
  end.

(** The size a block printed: its offset when it failed, unless the
    process died in the error line of a failed read. *)
Definition printed (fault : option failure) (i : Z) : list Z :=
  match fault with
  | Some ReadFailed | None => []
  | Some _ => [i]
  end.

(** *** A simulated drive

    A file of [sim_size] bytes on a medium that fails writes reaching past
    [sim_hard] and acknowledges, but drops, writes at or past [sim_soft]. *)
Record sim := {
  sim_size : Z;
  sim_hard : Z;
  sim_soft : Z;
  sim_pos : Z;
  sim_data : buffer
}.

Definition sim_seek (d : sim) (off : Z) : bool * sim :=
  if off <? 0 then (false, d)
  else (true, {| sim_size := sim_size d; sim_hard := sim_hard d;
                 sim_soft := sim_soft d; sim_pos := off;
                 sim_data := sim_data d |}).

Definition sim_write (d : sim) (b : buffer) (n : Z) : option Z * sim :=
  if sim_hard d <? sim_pos d + n then (None, d)
  else
    (Some n,
     {| sim_size := Z.max (sim_size d) (sim_pos d + n);
        sim_hard := sim_hard d; sim_soft := sim_soft d;
        sim_pos := sim_pos d + n;
        sim_data :=
          if sim_soft d <=? sim_pos d then sim_data d
          else fun k => if (sim_pos d <=? k) && (k <? sim_pos d + n)
                        then b (k - sim_pos d) else sim_data d k |}).

Definition sim_read (d : sim) (b : buffer) (n : Z)
  : option (Z * buffer) * sim :=
  let got := Z.max 0 (Z.min n (sim_size d - sim_pos d)) in
  (Some (got, fun k => if (0 <=? k) && (k <? got)
                       then sim_data d (sim_pos d + k) else b k),
   {| sim_size := sim_size d; sim_hard := sim_hard d; sim_soft := sim_soft d;
      sim_pos := sim_pos d + got; sim_data := sim_data d |}).

#[global] Instance sim_api : FileApi sim := {|
  OpenExisting := fun d _ => d;
  GetFileSizeEx := fun d => Some (sim_size d);
  aligned_malloc := fun _ _ => true;
  SetFilePointerEx := sim_seek;
  WriteFile := sim_write;
  ReadFile := sim_read;
  CloseHandle := fun d => d
|}.

(** A freshly allocated file of [size] bytes whose content is whatever the
    medium held ([junk]). *)
Definition fresh (size hard soft : Z) (junk : buffer) : sim :=
  {| sim_size := size; sim_hard := hard; sim_soft := soft; sim_pos := 0;
     sim_data := junk |}.

(** The same drive when it can no longer be read from offset [bad] on:
    [ReadFile] fails there. *)
Definition unreadable_from (bad : Z) : FileApi sim := {|
  OpenExisting := fun d _ => d;
  GetFileSizeEx := fun d => Some (sim_size d);
  aligned_malloc := fun _ _ => true;
  SetFilePointerEx := sim_seek;
  WriteFile := sim_write;
  ReadFile := fun d b n => if bad <=? sim_pos d then (None, d)
                           else sim_read d b n;
  CloseHandle := fun d => d
|}.

(** *** Watching the transfers

    Any device, with a record of every buffer the pass hands to
    [WriteFile] and of every buffer [ReadFile] hands back, each with the
    offset of the last [SetFilePointerEx] that succeeded. *)
Inductive transfer :=
| Wrote (offset : Z) (data : buffer)
| ReadBack (offset bytesRead : Z) (data : buffer).

Record watched (W : Type) := {
  device : W;
  sought : Z;
  transfers : list transfer
}.
Arguments device {W} _.
Arguments sought {W} _.
Arguments transfers {W} _.

Definition watch {W : Type} (api : FileApi W) : FileApi (watched W) := {|
  OpenExisting := fun s c =>
    {| device := OpenExisting (device s) c; sought := sought s;
       transfers := transfers s |};
  GetFileSizeEx := fun s => GetFileSizeEx (device s);
  aligned_malloc := fun s n => aligned_malloc (device s) n;
  SetFilePointerEx := fun s off =>
    let '(moved, w) := SetFilePointerEx (device s) off in
    (moved, {| device := w; sought := if moved then off else sought s;
               transfers := transfers s |});
  WriteFile := fun s b n =>
    let '(wr, w) := WriteFile (device s) b n in
    (wr, {| device := w; sought := sought s;
            transfers := transfers s ++ [Wrote (sought s) b] |});
  ReadFile := fun s b n =>
    let '(rd, w) := ReadFile (device s) b n in
    (rd, {| device := w; sought := sought s;
            transfers :=
              transfers s ++
              match rd with
              | Some (bytesRead, b') => [ReadBack (sought s) bytesRead b']
              | None => []
              end |});
  CloseHandle := fun s =>
    {| device := CloseHandle (device s); sought := sought s;
       transfers := transfers s |}
|}.

Fixpoint closes (ev : list event) : nat :=
  match ev with
  | [] => 0%nat
  | EvClose :: ev' => S (closes ev')
  | _ :: ev' => closes ev'
  end.

End Maxspace.

(** ** The segmented-file prober (spacechk) *)

Module Spacechk.

Definition filePrefix : string := "sp".
Definition fileIOSize : Z := 10 * MiB.
Definition batchSize : Z := 10.

(** *** File names: [swprintf_s], [wcschr], [swscanf_s] *)

Definition hex_digit (d : Z) : ascii :=
  ascii_of_N (Z.to_N (if d <? 10 then 48 + d else 87 + d)).

(** The digits of [%llx], most significant first (at most 16 of them). *)
Fixpoint hex_digits (n : nat) (v : Z) (acc : string) : string :=
  match n with
  | O => acc
  | S n' =>
      let acc' := String (hex_digit (v mod 16)) acc in
      if v / 16 =? 0 then acc' else hex_digits n' (v / 16) acc'
  end.

Fixpoint zeros (n : nat) : string :=
  match n with
  | O => EmptyString
  | S n' => String "0"%char (zeros n')
  end.

(** [%06llx] *)
Definition hex06 (v : Z) : string :=
  let ds := hex_digits 16 v EmptyString in
  (zeros (6 - String.length ds) ++ ds)%string.

(** [swprintf_s(writeName, L"%hs%s%06llx.bin", pathName, filePrefix, i)] *)
Definition segment_name (pathName : string) (i : Z) : string :=
  (pathName ++ filePrefix ++ hex06 i ++ ".bin")%string.

(** [swprintf_s(searchPath, L"%hs%s*.bin", pathName, filePrefix)] *)
Definition search_path (pathName : string) : string :=
  (pathName ++ filePrefix ++ "*.bin")%string.

(** [wcschr]: the string from the first occurrence of [c] on. *)
Fixpoint wcschr (s : string) (c : ascii) : option string :=
  match s with
  | EmptyString => None
  | String a s' => if Ascii.eqb a c then Some s else wcschr s' c
  end.

Definition hex_value (c : ascii) : option Z :=
  let n := Z.of_N (N_of_ascii c) in
  if (48 <=? n) && (n <=? 57) then Some (n - 48)
  else if (97 <=? n) && (n <=? 102) then Some (n - 87)
  else if (65 <=? n) && (n <=? 70) then Some (n - 55)
  else None.

(** [swscanf_s(s, L"%llx", &seqNum)].  The conversion reads an unsigned
    hexadecimal number the way [wcstoull] does in base 16: white space is
    skipped, then come an optional sign, an optional [0x] or [0X] and the
    longest run of hexadecimal digits.  Nothing is assigned when no digit
    follows; a value that does not fit [uint64_t] is stored as its
    maximum; a minus sign negates the value in [uint64_t]. *)
Definition is_space (c : ascii) : bool :=
  let n := Z.of_N (N_of_ascii c) in
  ((9 <=? n) && (n <=? 13)) || (n =? 32).

Fixpoint skip_space (s : string) : string :=
  match s with
  | EmptyString => s
  | String c s' => if is_space c then skip_space s' else s
  end.

Definition scan_sign (s : string) : bool * string :=
  match s with
  | String c s' =>
      if Ascii.eqb c "-"%char then (true, s')
      else if Ascii.eqb c "+"%char then (false, s')
      else (false, s)
  | EmptyString => (false, s)
  end.

Definition scan_prefix (s : string) : string :=
  match s with
  | String c (String x s') =>
      if Ascii.eqb c "0"%char
         && (Ascii.eqb x "x"%char || Ascii.eqb x "X"%char)
      then s' else s
  | _ => s
  end.

(** The run of digits, with its value (not yet cut to 64 bits). *)
Fixpoint scan_hex_from (s : string) (acc : Z) (seen : bool) : option Z :=
  match s with
  | EmptyString => if seen then Some acc else None
  | String c s' =>
      match hex_value c with
      | Some d => scan_hex_from s' (acc * 16 + d) true
      | None => if seen then Some acc else None
      end
  end.

Definition scan_hex (s : string) : option Z :=
  let '(negative, s1) := scan_sign (skip_space s) in
  match scan_hex_from (scan_prefix s1) 0 false with
  | None => None
  | Some v =>
      if 2 ^ 64 <=? v then Some (2 ^ 64 - 1)
      else if negative then Some (wrap64 (- v))
      else Some v
  end.

(** [seqPtr + 1] *)
Definition next (s : string) : string :=
  match s with
  | EmptyString => EmptyString
  | String _ s' => s'
  end.

(** The sequence number read after the dash; [junk] is what the
    uninitialised [seqNum] holds when the conversion assigns nothing. *)
Definition seq_after (junk : Z) (seqPtr : string) : Z :=
  match scan_hex (next seqPtr) with
  | Some v => v
  | None => junk
  end.

(** *** The Win32 calls of the utility

    [FindFiles] is the whole FindFirstFile/FindNextFile enumeration of a
    search path, in the order the system returns it; the empty list is
    FindFirstFile failing.  Files are named by their path: one handle is
    open at a time. *)

Record find_data := { cFileName : string; isDirectory : bool }.

(** A text that starts with a plainly written number: one to sixteen
    hexadecimal digits and then the end of the text or a character that
    is neither a digit nor [x] or [X].  That is how the programs and the
    README write sequence numbers; on such a text the conversion always
    assigns, needs no sign, prefix or blank, and cannot overflow. *)
Fixpoint digits_run (s : string) : nat :=
  match s with
  | EmptyString => O
  | String c s' =>
      match hex_value c with
      | Some _ => S (digits_run s')
      | None => O
      end
  end.

Definition plain (s : string) : bool :=
  let n := digits_run s in
  (1 <=? n)%nat && (n <=? 16)%nat
  && match get n s with
     | Some c => negb (Ascii.eqb c "x"%char || Ascii.eqb c "X"%char)
     | None => true
     end.

(** Every enumerated file whose path ([prefix] and name) has a dash
    carries a plainly written number after the first one. *)
Definition plain_names (prefix : string) (entries : list find_data) : Prop :=
  forall fd seqPtr,
    In fd entries -> isDirectory fd = false ->
    wcschr (prefix ++ cFileName fd) "-"%char = Some seqPtr ->
    plain (next seqPtr) = true.

Class Win32 (W : Type) := {
  FindFiles : W -> string -> list find_data;
  aligned_malloc : W -> Z -> bool;
  CreateAlways : W -> string -> bool * W;
  WriteFile : W -> string -> buffer -> Z -> option Z * W;
  OpenExisting : W -> string -> bool * W;
  ReadFile : W -> string -> buffer -> Z -> option (Z * buffer) * W;
  CloseHandle : W -> string -> W
}.

Inductive event :=
| EvFind (searchPath : string)
| EvCreate (name : string)
| EvWrite (name : string) (n : Z)
| EvOpen (name : string)
| EvRead (name : string) (n : Z)
| EvError (message : string)
| EvOutputSize (label : string) (inSize : Z).

Section Prober.
Context {W : Type} {api : Win32 W}.
Variable junk : Z.

(** [FindPriorFiles]: the do-while over the enumeration. *)
Fixpoint FindPriorFiles_loop (entries : list find_data) (maxSeq : Z) : Z :=
  match entries with
  | [] => maxSeq
  | findData :: rest =>
      if isDirectory findData then FindPriorFiles_loop rest maxSeq
      else
        match wcschr (cFileName findData) "-"%char with
        | None => maxSeq
        | Some seqPtr =>
            FindPriorFiles_loop rest (Z.max (seq_after junk seqPtr) maxSeq)
        end
  end.

Definition FindPriorFiles (pathName : string) (w : W) : Z :=
  FindPriorFiles_loop (FindFiles w (search_path pathName)) 0.

(** [CreateFiles]: the [for (uint64_t i = 0; i < totalFiles; i++)] loop,
    by the number of iterations left.  Progress lines are left out. *)
Fixpoint create_loop (left : nat) (pathName : string) (i : Z)
         (writeBuffer : buffer) (w : W) : bool * W * list event :=
  match left with
  | O => (true, w, [])
  | S left' =>
      let writeName := segment_name pathName i in
      let '(created, w1) := CreateAlways w writeName in
      if negb created then
        (false, w1, [EvCreate writeName; EvError "Cannot create file"])
      else
        let b1 := stamp writeBuffer fileIOSize (marker i) in
        let '(wr, w2) := WriteFile w1 writeName b1 fileIOSize in
        match wr with
        | None =>
            (false, w2,
             [EvCreate writeName; EvWrite writeName fileIOSize;
              EvError "Cannot write to";
              EvOutputSize "Reached" (wrap64 (i * fileIOSize))])
        | Some written =>
            if negb (written =? fileIOSize) then
              (false, w2,
               [EvCreate writeName; EvWrite writeName fileIOSize;
                EvError "Wrote %d bytes, expected %lld bytes"])
            else
              let '(r, w3, ev) :=
                create_loop left' pathName (i + 1) b1
                            (CloseHandle w2 writeName) in
              (r, w3,
               EvCreate writeName :: EvWrite writeName fileIOSize :: ev)
        end
  end.

Definition CreateFiles (pathName : string) (bytesPerSector totalSpace : Z)
           (w : W) : bool * W * list event :=
  let totalFiles := totalSpace / fileIOSize in
  if negb (aligned_malloc w fileIOSize) then
    (false, w, [EvOutputSize " with size " fileIOSize;
                EvError "Could not get write buffer"])
  else
    let writeBuffer := memset (fun _ => 0) 0 fileIOSize in
    let startFile := FindPriorFiles pathName w in
    let '(r, w', ev) :=
      create_loop (Z.to_nat totalFiles) pathName 0 writeBuffer w in
    (r, w',
     EvOutputSize " with size " fileIOSize :: EvFind (search_path pathName)
       :: ev ++ (if r then [EvOutputSize "taking"
                              (wrap64 (totalFiles * fileIOSize))]
                 else [])).

(** The comparison loop of [VerifyFiles]: every differing slot is printed
    and reported; without [keepGoing] the first one ends the run. *)
Fixpoint compare_slots (keepGoing : bool) (b : buffer) (seqNum : Z) (o : Z)
         (n : nat) : bool * list event :=
  match n with
  | O => (true, [])
  | S n' =>
      if load64 b (o * (fileIOSize / 4)) =? wrap64 (seqNum + 1) then
        compare_slots keepGoing b seqNum (o + 1) n'
      else if keepGoing then
        let '(r, ev) := compare_slots keepGoing b seqNum (o + 1) n' in
        (r, EvOutputSize "Reached" (wrap64 (wrap64 (seqNum + 1) * fileIOSize))
              :: ev)
      else
        (false,
         [EvOutputSize "Reached" (wrap64 (wrap64 (seqNum + 1) * fileIOSize))])
  end.

(** [VerifyFiles]: the do-while over the enumeration. *)
Fixpoint verify_loop (keepGoing : bool) (pathName : string)
         (entries : list find_data) (count : Z) (verifyBuffer : buffer)
         (w : W) : bool * W * list event :=
  match entries with
  | [] => (true, w, [EvOutputSize "taking" (wrap64 (count * fileIOSize))])
  | findData :: rest =>
      if isDirectory findData then
        verify_loop keepGoing pathName rest count verifyBuffer w
      else
        let verifyName := (pathName ++ cFileName findData)%string in
        let '(opened, w1) := OpenExisting w verifyName in
        if negb opened then
          (false, w1, [EvOpen verifyName; EvError "Cannot open file"])
        else
          let '(rd, w2) := ReadFile w1 verifyName verifyBuffer fileIOSize in
          match rd with
          | None =>
              (false, CloseHandle w2 verifyName,
               [EvOpen verifyName; EvRead verifyName fileIOSize;
                EvError "Cannot read from"])
          | Some (bytesRead, b1) =>
              let w3 := CloseHandle w2 verifyName in
              if negb (bytesRead =? fileIOSize) then
                (false, w3,
                 [EvOpen verifyName; EvRead verifyName fileIOSize;
                  EvError "Read %d bytes, expected %lld bytes"])
              else
                match wcschr verifyName "-"%char with
                | None =>
                    (false, w3,
                     [EvOpen verifyName; EvRead verifyName fileIOSize;
                      EvError "Could not find sequence number from"])
                | Some seqPtr =>
                    let seqNum := seq_after junk seqPtr in
                    let '(same, ev1) :=
                      compare_slots keepGoing b1 seqNum 0 4 in
                    if negb same then
                      (false, w3,
                       EvOpen verifyName :: EvRead verifyName fileIOSize
                         :: ev1)
                    else
                      let '(r, w4, ev) :=
                        verify_loop keepGoing pathName rest
                                    (wrap64 (count + 1)) b1 w3 in
                      (r, w4,
                       EvOpen verifyName :: EvRead verifyName fileIOSize
                         :: ev1 ++ ev)
                end
          end
  end.

Definition VerifyFiles (pathName : string) (bytesPerSector : Z)
           (keepGoing : bool) (w : W) : bool * W * list event :=
  match FindFiles w (search_path pathName) with
  | [] => (false, w, [EvFind (search_path pathName);
                      EvError "Unable to find files"])
  | entries =>
      if negb (aligned_malloc w fileIOSize) then
        (false, w, [EvFind (search_path pathName);
                    EvError "Could not get verify buffer"])
      else
        let '(r, w', ev) :=
          verify_loop keepGoing pathName entries 0 (fun _ => 0) w in
        (r, w', EvFind (search_path pathName) :: ev)
  end.

End Prober.

(** The names of the files a run created, and the sizes it reported as
    reached. *)
Fixpoint created (ev : list event) : list string :=
  match ev with
  | [] => []
  | EvCreate name :: ev' => name :: created ev'
  | _ :: ev' => created ev'
  end.

(** The names of the [m] segments numbered from [i] on. *)
Definition names_from (pathName : string) (i : Z) (m : nat) : list string :=
  map (fun k => segment_name pathName (i + Z.of_nat k)) (seq 0 m).

Fixpoint reached (ev : list event) : list Z :=
  match ev with
  | [] => []
  | EvOutputSize label z :: ev' =>
      if String.eqb label "Reached" then z :: reached ev' else reached ev'
  | _ :: ev' => reached ev'
  end.

(** The names of the files a verification run opened. *)
Fixpoint opened (ev : list event) : list string :=
  match ev with
  | [] => []
  | EvOpen name :: ev' => name :: opened ev'
  | _ :: ev' => opened ev'
  end.

(** *** Watching the writes

    Any device, with a record of every buffer handed to [WriteFile] and
    the file it was written to. *)
Definition watch {W : Type} (api : Win32 W)
  : Win32 (W * list (string * buffer)) := {|
  FindFiles := fun s p => FindFiles (fst s) p;
  aligned_malloc := fun s n => aligned_malloc (fst s) n;
  CreateAlways := fun s name =>
    let '(r, w) := CreateAlways (fst s) name in (r, (w, snd s));
  WriteFile := fun s name b n =>
    let '(r, w) := WriteFile (fst s) name b n in
    (r, (w, snd s ++ [(name, b)]));
  OpenExisting := fun s name =>
    let '(r, w) := OpenExisting (fst s) name in (r, (w, snd s));
  ReadFile := fun s name b n =>
    let '(r, w) := ReadFile (fst s) name b n in (r, (w, snd s));
  CloseHandle := fun s name => (CloseHandle (fst s) name, snd s)
|}.

(** *** A simulated volume

    Files in enumeration order, and the medium's answer to each call. *)
Record file := {
  f_name : string;
  f_dir : bool;
  f_len : Z;
  f_data : buffer
}.

Record volume := {
  vol_files : list file;
  vol_create : string -> bool;
  vol_write : string -> Z -> option Z;
  vol_open : string -> bool;
  vol_read : string -> Z -> option Z
}.

Definition with_files (v : volume) (fs : list file) : volume :=
  {| vol_files := fs; vol_create := vol_create v; vol_write := vol_write v;
     vol_open := vol_open v; vol_read := vol_read v |}.

Fixpoint lookup (fs : list file) (name : string) : option file :=
  match fs with
  | [] => None
  | f :: fs' => if String.eqb (f_name f) name then Some f else lookup fs' name
  end.

(** Replace the file called [name], or add it at the end. *)
Fixpoint put (fs : list file) (name : string) (f : file) : list file :=
  match fs with
  | [] => [f]
  | g :: fs' =>
      if String.eqb (f_name g) name then f :: fs' else g :: put fs' name f
  end.

Fixpoint has_backslash (s : string) : bool :=
  match s with
  | EmptyString => false
  | String c s' => Ascii.eqb c "\"%char || has_backslash s'
  end.

Fixpoint basename (s : string) : string :=
  match s with
  | EmptyString => EmptyString
  | String c s' =>
      if has_backslash s' then basename s'
      else if Ascii.eqb c "\"%char then s' else s
  end.

Definition ends_with (s suffix : string) : bool :=
  let ls := String.length s in
  let lf := String.length suffix in
  (lf <=? ls)%nat && String.eqb (substring (ls - lf) lf s) suffix.

(** A search path with one [*] against a full file name. *)
Definition matches (pattern name : string) : bool :=
  match index 0 "*" pattern with
  | None => String.eqb pattern name
  | Some k =>
      let pre := substring 0 k pattern in
      let post := substring (S k) (String.length pattern - S k) pattern in
      prefix pre name && ends_with name post
      && (String.length pre + String.length post <=? String.length name)%nat
  end.

Definition vol_find (v : volume) (searchPath : string) : list find_data :=
  map (fun f => {| cFileName := basename (f_name f); isDirectory := f_dir f |})
      (filter (fun f => matches searchPath (f_name f)) (vol_files v)).

Definition vol_create_always (v : volume) (name : string) : bool * volume :=
  if vol_create v name then
    (true, with_files v (put (vol_files v) name
                             {| f_name := name; f_dir := false; f_len := 0;
                                f_data := fun _ => 0 |}))
  else (false, v).

Definition vol_write_file (v : volume) (name : string) (b : buffer) (n : Z)
  : option Z * volume :=
  match vol_write v name n with
  | None => (None, v)
  | Some k =>
      (Some k, with_files v (put (vol_files v) name
                                 {| f_name := name; f_dir := false;
                                    f_len := k;
                                    f_data := fun j =>
                                      if (0 <=? j) && (j <? k) then b j
                                      else 0 |}))
  end.

Definition vol_open_existing (v : volume) (name : string) : bool * volume :=
  match lookup (vol_files v) name with
  | Some _ => (vol_open v name, v)
  | None => (false, v)
  end.

Definition vol_read_file (v : volume) (name : string) (b : buffer) (n : Z)
  : option (Z * buffer) * volume :=
  match lookup (vol_files v) name, vol_read v name n with
  | Some f, Some k =>
      let got := Z.min k (f_len f) in
      (Some (got, fun j => if (0 <=? j) && (j <? got) then f_data f j
                           else b j), v)
  | _, _ => (None, v)
  end.

#[global] Instance vol_api : Win32 volume := {|
  FindFiles := vol_find;
  aligned_malloc := fun _ _ => true;
  CreateAlways := vol_create_always;
  WriteFile := vol_write_file;
  OpenExisting := vol_open_existing;
  ReadFile := vol_read_file;
  CloseHandle := fun v _ => v
|}.

(** A medium without faults holding [fs]. *)
Definition healthy (fs : list file) : volume :=
  {| vol_files := fs; vol_create := fun _ => true;
     vol_write := fun _ n => Some n; vol_open := fun _ => true;
     vol_read := fun _ n => Some n |}.

(** Every file of the volume carries, in its four slots, the number in
    its name plus one. *)
Definition well_stamped (pathName : string) (n : nat) (v : volume) : bool :=
  forallb (fun i =>
             match lookup (vol_files v) (segment_name pathName (Z.of_nat i)) with
             | Some f =>
                 (f_len f =? fileIOSize)
                 && forallb (fun o => load64 (f_data f)
                                             (Z.of_nat o * (fileIOSize / 4))
                                      =? Z.of_nat i + 1)
                            (seq 0 4)
             | None => false
             end)
          (seq 0 n).

End Spacechk.

(** ** Sample machines used to exercise the statements below *)

(** An operating system that grants everything except committing the end
    of file. *)
Definition os_no_eof : Maxspace.alloc_os :=
  {| Maxspace.open_token_ok := true; Maxspace.adjust_priv_ok := true;
     Maxspace.close_token_ok := true; Maxspace.create_ok := true;
     Maxspace.set_pointer_ok := fun _ => true; Maxspace.set_eof_ok := false;
     Maxspace.set_valid_ok := fun _ => true; Maxspace.close_file_ok := true |}.

(** A 50 MiB file on a medium that refuses writes reaching past 20 MiB. *)
Definition capped_drive : Maxspace.sim :=
  Maxspace.fresh (5 * Maxspace.verifySize) (2 * Maxspace.verifySize)
                 (2 ^ 62) (fun _ => 0).

(** A sound medium under a file of 10 MiB and one sector. *)
Definition sound_drive : Maxspace.sim :=
  Maxspace.fresh (Maxspace.verifySize + 512) (2 ^ 62) (2 ^ 62) (fun _ => 0).

(** A volume left with segments 0, 1 and 2 by an earlier run of
    [CreateFiles]. *)
Definition interrupted_volume : Spacechk.volume :=
  snd (fst (Spacechk.CreateFiles 0 "E:\" 512 (3 * Spacechk.fileIOSize)
                                 (Spacechk.healthy []))).

(** A correctly stamped segment under a name of its own. *)
Definition stamped_file (name : string) (i : Z) : Spacechk.file :=
  {| Spacechk.f_name := name; Spacechk.f_dir := false;
     Spacechk.f_len := Spacechk.fileIOSize;
     Spacechk.f_data :=
       stamp (memset (fun _ => 0) 0 Spacechk.fileIOSize) Spacechk.fileIOSize
             (marker i) |}.

(** A segment whose write was acknowledged and dropped: all zero. *)
Definition blank_file (name : string) : Spacechk.file :=
  {| Spacechk.f_name := name; Spacechk.f_dir := false;
     Spacechk.f_len := Spacechk.fileIOSize;
     Spacechk.f_data := fun _ => 0 |}.

(** Segments named with a dash before the number, the form the parsing
    code looks for. *)
Definition dashed_files : list Spacechk.file :=
  [stamped_file "E:\sp-000000.bin" 0; stamped_file "E:\sp-000001.bin" 1;
   stamped_file "E:\sp-000002.bin" 2].

Definition dashed_volume : Spacechk.volume := Spacechk.healthy dashed_files.

(** Media that fail at segment 2 while creating: the file cannot be
    created, the write is refused, the write comes back short. *)
Definition no_create_volume : Spacechk.volume :=
  {| Spacechk.vol_files := [];
     Spacechk.vol_create := fun name => negb (String.eqb name "E:\sp000002.bin");
     Spacechk.vol_write := fun _ n => Some n;
     Spacechk.vol_open := fun _ => true;
     Spacechk.vol_read := fun _ n => Some n |}.

Definition no_write_volume : Spacechk.volume :=
  {| Spacechk.vol_files := [];
     Spacechk.vol_create := fun _ => true;
     Spacechk.vol_write := fun name n =>
       if String.eqb name "E:\sp000002.bin" then None else Some n;
     Spacechk.vol_open := fun _ => true;
     Spacechk.vol_read := fun _ n => Some n |}.

Definition short_write_volume : Spacechk.volume :=
  {| Spacechk.vol_files := [];
     Spacechk.vol_create := fun _ => true;
     Spacechk.vol_write := fun name n =>
       if String.eqb name "E:\sp000002.bin" then Some 4096 else Some n;
     Spacechk.vol_open := fun _ => true;
     Spacechk.vol_read := fun _ n => Some n |}.



Definition blank_volume : Spacechk.volume :=
  Spacechk.healthy
    [stamped_file "E:\sp-000000.bin" 0; blank_file "E:\sp-000001.bin";
     stamped_file "E:\sp-000002.bin" 2].

(** ** The rest of the two programs *)

(** The bytes a stamp may change: the four 8-byte slots. *)
Definition in_slot (size k : Z) : bool :=
  existsb (fun o => (o * (size / 4) <=? k) && (k <? o * (size / 4) + 8))
          [0; 1; 2; 3].

(** [n] hexadecimal digits of [v], most significant first, before [acc]:
    what a fixed-width [%0nllx] writes for a number that fits. *)
Fixpoint fixed_digits (n : nat) (v : Z) (acc : string) : string :=
  match n with
  | O => acc
  | S n' => fixed_digits n' (v / 16) (String (Spacechk.hex_digit (v mod 16)) acc)
  end.

Module SpacechkMain.
Import Spacechk.

(** [OutputSize]: the value and the unit printed after the message. *)
Definition OutputSize (inSize : Z) : Z * string :=
  let '(textSize, converted) := HumanReadable inSize in (converted, textSize).

(** The files a run wrote to, and the error lines it printed. *)
Fixpoint written (ev : list event) : list string :=
  match ev with
  | [] => []
  | EvWrite name _ :: ev' => name :: written ev'
  | _ :: ev' => written ev'
  end.

Fixpoint errors (ev : list event) : list string :=
  match ev with
  | [] => []
  | EvError message :: ev' => message :: errors ev'
  | _ :: ev' => errors ev'
  end.

(** The paths of the files of an enumeration, directories left out. *)
Fixpoint files_of (pathName : string) (entries : list find_data)
  : list string :=
  match entries with
  | [] => []
  | findData :: rest =>
      if isDirectory findData then files_of pathName rest
      else (pathName ++ cFileName findData)%string :: files_of pathName rest
  end.

(** *** [DeleteFiles] and [main]

    The calls these make beyond those of the prober. *)

Inductive drive_type :=
| DRIVE_UNKNOWN | DRIVE_NO_ROOT_DIR | DRIVE_REMOVABLE | DRIVE_FIXED
| DRIVE_REMOTE | DRIVE_CDROM | DRIVE_RAMDISK.

Record disk_stats := {
  sectorsPerCluster : Z;
  bytesPerSector : Z;
  freeClusters : Z;
  totalClusters : Z
}.

Class HostApi (W : Type) := {
  GetDriveType : W -> string -> drive_type;
  GetDiskFreeSpaceA : W -> option string -> option disk_stats;
  DeleteFile : W -> string -> bool * W
}.

Inductive main_event :=
| EvProbe (e : event)
| EvDelete (name : string)
| EvUsage
| EvInvalidPath (arg : string)
| EvStats (totalSpace freeSpace : Z)
| EvMessage (text : string).

(** [checkActions] *)
Definition noActions : Z := 0.
Definition outputStats : Z := 1.
Definition createFiles : Z := 2.
Definition verifyFiles : Z := 4.
Definition keepVerifying : Z := 8.
Definition deleteFiles : Z := 16.

(** How the argument loop of [main] ends: with a path and the actions, at
    an argument that is neither an option nor a usable drive path, or in
    the invalid-parameter handler of [swprintf_s] when an argument does
    not fit [widePath[16]]. *)
Inductive parsed :=
| Parsed (pathName : option string) (progActions : Z)
| Rejected (arg : string)
| Overflow.

(** How the process ends: [main] returns a code, or the process is ended
    by the invalid-parameter handler, or by an access violation. *)
Inductive exit := Exit (code : Z) | InvalidParameter | AccessViolation.

(** A null [pathName] printed through [%hs]. *)
Definition path_text (pathName : option string) : string :=
  match pathName with
  | Some s => s
  | None => "(null)"
  end.

Definition has (progActions flag : Z) : bool :=
  negb (Z.land progActions flag =? 0).

Section Main.
Context {W : Type} {api : Win32 W} {host : HostApi W}.
Variable junk : Z.

(** [DeleteFiles]: the do-while over the enumeration; a file that cannot
    be deleted is reported and counted like the others. *)
Fixpoint delete_loop (pathName : string) (entries : list find_data)
         (count : Z) (w : W) : W * list main_event :=
  match entries with
  | [] => (w, [EvProbe (EvOutputSize "taking" (wrap64 (count * fileIOSize)))])
  | findData :: rest =>
      if isDirectory findData then delete_loop pathName rest count w
      else
        let deleteName := (pathName ++ cFileName findData)%string in
        let '(deleted, w1) := DeleteFile w deleteName in
        let '(w2, ev) :=
          delete_loop pathName rest (wrap64 (count + 1)) w1 in
        (w2,
         EvDelete deleteName
           :: (if deleted then []
               else [EvProbe (EvError "Unable to delete file")]) ++ ev)
  end.

Definition DeleteFiles (pathName : string) (w : W)
  : bool * W * list main_event :=
  match FindFiles w (search_path pathName) with
  | [] => (false, w, [EvProbe (EvFind (search_path pathName));
                      EvProbe (EvError "Could not locate files to delete")])
  | entries =>
      let '(w', ev) := delete_loop pathName entries 0 w in
      (true, w', EvProbe (EvFind (search_path pathName)) :: ev)
  end.

(** The argument loop of [main]. *)
Fixpoint parse_args (w : W) (args : list string) (pathName : option string)
         (progActions : Z) : parsed :=
  match args with
  | [] => Parsed pathName progActions
  | arg :: rest =>
      if String.eqb arg "-stats" then
        parse_args w rest pathName (Z.lor progActions outputStats)
      else if String.eqb arg "-create" then
        parse_args w rest pathName (Z.lor progActions createFiles)
      else if String.eqb arg "-verify" then
        parse_args w rest pathName (Z.lor progActions verifyFiles)
      else if String.eqb arg "-keepverifying" then
        parse_args w rest pathName (Z.lor progActions keepVerifying)
      else if String.eqb arg "-delete" then
        parse_args w rest pathName (Z.lor progActions deleteFiles)
      else if (16 <=? String.length arg)%nat then Overflow
      else
        match GetDriveType w arg with
        | DRIVE_REMOVABLE | DRIVE_FIXED | DRIVE_REMOTE | DRIVE_RAMDISK =>
            parse_args w rest (Some arg) progActions
        | _ => Rejected arg
        end
  end.

(** The three phases of [main], in the order the source runs them. *)
Definition run_phases (pathName : string) (sectorSize freeSpace : Z)
           (progActions : Z) (w : W) : exit * W * list main_event :=
  let '(r1, w1, ev1) :=
    if has progActions createFiles then
      let '(r, w', ev) := CreateFiles junk pathName sectorSize freeSpace w in
      (r, w', map EvProbe ev)
    else (true, w, []) in
  if negb r1 then (Exit 1, w1, ev1 ++ [EvMessage "File creation failed"])
  else
    let '(r2, w2, ev2) :=
      if has progActions verifyFiles then
        let '(r, w', ev) :=
          VerifyFiles junk pathName sectorSize
                      (has progActions keepVerifying) w1 in
        (r, w', map EvProbe ev)
      else (true, w1, []) in
    if negb r2 then
      (Exit 1, w2, ev1 ++ ev2 ++ [EvMessage "File verification failed"])
    else
      let '(r3, w3, ev3) :=
        if has progActions deleteFiles then DeleteFiles pathName w2
        else (true, w2, []) in
      if negb r3 then
        (Exit 1, w3, ev1 ++ ev2 ++ ev3 ++ [EvMessage "File deletion failed"])
      else (Exit 0, w3, ev1 ++ ev2 ++ ev3).

(** [main]; [argv] includes the program name. *)
Definition main (argv : list string) (w : W) : exit * W * list main_event :=
  match argv with
  | [] | [_] => (Exit 1, w, [EvUsage])
  | _ :: args =>
      match parse_args w args None noActions with
      | Overflow => (InvalidParameter, w, [])
      | Rejected arg => (Exit 1, w, [EvInvalidPath arg])
      | Parsed pathName progActions =>
          if progActions =? noActions then (Exit 1, w, [EvUsage])
          else
            match GetDiskFreeSpaceA w pathName with
            | None =>
                (Exit 1, w, [EvMessage "Error: Could not get disk stats"])
            | Some st =>
                let freeSpace :=
                  space_u64 (bytesPerSector st) (sectorsPerCluster st)
                            (freeClusters st) in
                let totalSpace :=
                  space_u64 (bytesPerSector st) (sectorsPerCluster st)
                            (totalClusters st) in
                let ev0 :=
                  if has progActions outputStats
                  then [EvStats totalSpace freeSpace] else [] in
                let '(code, w', ev) :=
                  run_phases (path_text pathName) (bytesPerSector st)
                             freeSpace progActions w in
                (code, w', ev0 ++ ev)
            end
      end
  end.

End Main.

(** The probe calls and the deletions inside a trace of [main]. *)
Fixpoint creations (ev : list main_event) : list string :=
  match ev with
  | [] => []
  | EvProbe (EvCreate name) :: ev' => name :: creations ev'
  | _ :: ev' => creations ev'
  end.

Fixpoint openings (ev : list main_event) : list string :=
  match ev with
  | [] => []
  | EvProbe (EvOpen name) :: ev' => name :: openings ev'
  | _ :: ev' => openings ev'
  end.

Fixpoint deletions (ev : list main_event) : list string :=
  match ev with
  | [] => []
  | EvDelete name :: ev' => name :: deletions ev'
  | _ :: ev' => deletions ev'
  end.

(** The phase a file operation belongs to: 1 creating, 2 verifying,
    3 deleting. *)
Definition phase_of (e : main_event) : option nat :=
  match e with
  | EvProbe (EvCreate _) | EvProbe (EvWrite _ _) => Some 1%nat
  | EvProbe (EvOpen _) | EvProbe (EvRead _ _) => Some 2%nat
  | EvDelete _ => Some 3%nat
  | _ => None
  end.

Fixpoint phases (ev : list main_event) : list nat :=
  match ev with
  | [] => []
  | e :: ev' =>
      match phase_of e with
      | Some p => p :: phases ev'
      | None => phases ev'
      end
  end.

(** The drive types [main] accepts for a path. *)
Definition accepted (t : drive_type) : bool :=
  match t with
  | DRIVE_REMOVABLE | DRIVE_FIXED | DRIVE_REMOTE | DRIVE_RAMDISK => true
  | _ => false
  end.

(** The options [main] knows, with their action bits. *)
Definition options : list (string * Z) :=
  [("-stats", outputStats); ("-create", createFiles);
   ("-verify", verifyFiles); ("-keepverifying", keepVerifying);
   ("-delete", deleteFiles)].

(** What the argument loop started with [p0], [a0] has done when it
    ends with [p], [a]. *)
Definition parse_post {W : Type} {host : HostApi W} (w : W)
           (args : list string) (p0 : option string) (a0 : Z)
           (p : option string) (a : Z) : Prop :=
  (forall name bit, In (name, bit) options ->
     has a bit = has a0 bit || existsb (String.eqb name) args) /\
  (p = None ->
   p0 = None /\ forall arg, In arg args -> exists bit, In (arg, bit) options) /\
  (forall x, p = Some x ->
     p0 = Some x \/
     (In x args /\ (String.length x < 16)%nat /\
      (forall name bit, In (name, bit) options -> x <> name) /\
      accepted (GetDriveType w x) = true)).

End SpacechkMain.

(** A host for the simulated volume: one removable drive [E:\] with 64
    sectors of 512 bytes per cluster. *)
Fixpoint without (fs : list Spacechk.file) (name : string)
  : list Spacechk.file :=
  match fs with
  | [] => []
  | f :: fs' =>
      if String.eqb (Spacechk.f_name f) name then fs'
      else f :: without fs' name
  end.

Definition vol_delete (v : Spacechk.volume) (name : string)
  : bool * Spacechk.volume :=
  match Spacechk.lookup (Spacechk.vol_files v) name with
  | Some _ =>
      (true, Spacechk.with_files v (without (Spacechk.vol_files v) name))
  | None => (false, v)
  end.

#[global] Instance vol_host : SpacechkMain.HostApi Spacechk.volume := {|
  SpacechkMain.GetDriveType := fun _ arg =>
    if String.eqb arg "E:\" then SpacechkMain.DRIVE_REMOVABLE
    else SpacechkMain.DRIVE_NO_ROOT_DIR;
  SpacechkMain.GetDiskFreeSpaceA := fun _ _ =>
    Some {| SpacechkMain.sectorsPerCluster := 64;
            SpacechkMain.bytesPerSector := 512;
            SpacechkMain.freeClusters := 960;
            SpacechkMain.totalClusters := 4096 |};
  SpacechkMain.DeleteFile := vol_delete
|}.

Module MaxspaceMain.
Import Maxspace.

(** [OutputSize]: [inSize] arrives as [uint64_t] and is handed to
    [HumanReadable] as [int64_t]. *)
Definition OutputSize (inSize : Z) : Z * string :=
  let '(textSize, converted) := HumanReadable (signed64 inSize) in
  (converted, textSize).

(** The offsets a run read at. *)
Fixpoint reads (ev : list event) : list Z :=
  match ev with
  | [] => []
  | EvRead off _ :: ev' => off :: reads ev'
  | _ :: ev' => reads ev'
  end.

Fixpoint file_closes (calls : list api_call) : nat :=
  match calls with
  | [] => 0%nat
  | CallCloseFile :: calls' => S (file_closes calls')
  | _ :: calls' => file_closes calls'
  end.

Fixpoint file_creates (calls : list api_call) : nat :=
  match calls with
  | [] => 0%nat
  | CallCreateFile :: calls' => S (file_creates calls')
  | _ :: calls' => file_creates calls'
  end.

(** *** [DeleteVerifyFile] and [main] *)

(** [progActions] *)
Definition justPath : Z := 1.
Definition cached : Z := 2.
Definition noreads : Z := 4.
Definition outputStats : Z := 8.

Inductive main_event :=
| EvAlloc (c : api_call)
| EvVerify (e : event)
| EvDeleteFile (name : string)
| EvUsage
| EvInvalidPath (arg : string)
| EvStats (totalSpace freeSpace : Z)
| EvMessage (text : string).

Section Main.
Context {W : Type} {api : FileApi W} {host : SpacechkMain.HostApi W}.

Definition DeleteVerifyFile (pathName : string) (w : W)
  : bool * W * list main_event :=
  let deleteFile := (pathName ++ verifyFilename)%string in
  let '(deleted, w') := SpacechkMain.DeleteFile w deleteFile in
  (deleted, w', [EvDeleteFile deleteFile]).

(** The argument loop of [main]. *)
Fixpoint parse_args (w : W) (args : list string) (pathName : option string)
         (ourActions : Z) : SpacechkMain.parsed :=
  match args with
  | [] => SpacechkMain.Parsed pathName ourActions
  | arg :: rest =>
      if String.eqb arg "-stats" then
        parse_args w rest pathName (Z.lor ourActions outputStats)
      else if String.eqb arg "-cached" then
        parse_args w rest pathName (Z.lor ourActions cached)
      else if String.eqb arg "-noreads" then
        parse_args w rest pathName (Z.lor ourActions noreads)
      else if (16 <=? String.length arg)%nat then SpacechkMain.Overflow
      else if SpacechkMain.accepted (SpacechkMain.GetDriveType w arg) then
        parse_args w rest (Some arg) ourActions
      else SpacechkMain.Rejected arg
  end.

(** [main]; [argv] includes the program name, [os] answers the calls of
    the fast allocation, [w] is what lies behind the file afterwards.
    When the process dies inside [CreateVerifyFile] or [VerifyTheFile]
    nothing after that call is run. *)
Definition main (fuel : nat) (os : alloc_os) (argv : list string) (w : W)
  : option (SpacechkMain.exit * W * list main_event) :=
  match argv with
  | [] | [_] => Some (SpacechkMain.Exit 1, w, [EvUsage])
  | _ :: args =>
      match parse_args w args None justPath with
      | SpacechkMain.Overflow => Some (SpacechkMain.InvalidParameter, w, [])
      | SpacechkMain.Rejected arg =>
          Some (SpacechkMain.Exit 1, w, [EvInvalidPath arg])
      | SpacechkMain.Parsed pathName ourActions =>
          match SpacechkMain.GetDiskFreeSpaceA w pathName with
          | None =>
              Some (SpacechkMain.Exit 1, w,
                    [EvMessage "Could not get disk stats"])
          | Some st =>
              match main_space (SpacechkMain.bytesPerSector st)
                               (SpacechkMain.sectorsPerCluster st)
                               (SpacechkMain.freeClusters st)
                               (SpacechkMain.totalClusters st) with
              | None =>
                  Some (SpacechkMain.Exit 1, w,
                        [EvMessage "Incorrect total or free space"])
              | Some (freeSpace, totalSpace) =>
                  let ev0 :=
                    if SpacechkMain.has ourActions outputStats
                    then [EvStats totalSpace freeSpace] else [] in
                  match CreateVerifyFile os freeSpace with
                  | (Dies, calls) =>
                      Some (SpacechkMain.AccessViolation, w,
                            ev0 ++ map EvAlloc calls)
                  | (Returns false, calls) =>
                      Some (SpacechkMain.Exit 1, w,
                            ev0 ++ map EvAlloc calls
                                ++ [EvMessage "File creation failed"])
                  | (Returns true, calls) =>
                      match VerifyTheFile
                              fuel (SpacechkMain.bytesPerSector st)
                              (SpacechkMain.has ourActions noreads)
                              (SpacechkMain.has ourActions cached) w with
                      | None => None
                      | Some (Dies, w1, ev1) =>
                          Some (SpacechkMain.AccessViolation, w1,
                                ev0 ++ map EvAlloc calls ++ map EvVerify ev1)
                      | Some (Returns verified, w1, ev1) =>
                          let '(deleted, w2, ev2) :=
                            DeleteVerifyFile
                              (SpacechkMain.path_text pathName) w1 in
                          Some
                            (SpacechkMain.Exit
                               (if verified && deleted then 0 else 1),
                             w2,
                             ev0 ++ map EvAlloc calls ++ map EvVerify ev1
                                 ++ (if verified then []
                                     else [EvMessage
                                             "File verification failed"])
                                 ++ ev2
                                 ++ (if deleted then []
                                     else [EvMessage "File deletion failed"]))
                      end
                  end
              end
          end
      end
  end.

End Main.

Fixpoint removals (ev : list main_event) : list string :=
  match ev with
  | [] => []
  | EvDeleteFile name :: ev' => name :: removals ev'
  | _ :: ev' => removals ev'
  end.

Fixpoint messages (ev : list main_event) : list string :=
  match ev with
  | [] => []
  | EvMessage text :: ev' => text :: messages ev'
  | _ :: ev' => messages ev'
  end.

Fixpoint probes (ev : list main_event) : list event :=
  match ev with
  | [] => []
  | EvVerify e :: ev' => e :: probes ev'
  | _ :: ev' => probes ev'
  end.

End MaxspaceMain.

(** A host for the simulated drive: [E:\] is removable, with 8 sectors
    of 512 bytes per cluster, and the verification file can always be
    deleted. *)
#[global] Instance sim_host : SpacechkMain.HostApi Maxspace.sim := {|
  SpacechkMain.GetDriveType := fun _ arg =>
    if String.eqb arg "E:\" then SpacechkMain.DRIVE_REMOVABLE
    else SpacechkMain.DRIVE_NO_ROOT_DIR;
  SpacechkMain.GetDiskFreeSpaceA := fun d _ =>
    Some {| SpacechkMain.sectorsPerCluster := 8;
            SpacechkMain.bytesPerSector := 512;
            SpacechkMain.freeClusters := Maxspace.sim_size d / 4096;
            SpacechkMain.totalClusters := Maxspace.sim_size d / 4096 + 16 |};
  SpacechkMain.DeleteFile := fun d _ => (true, d)
|}.

(** An operating system that grants every step of the allocation. *)
Definition os_grants_all : Maxspace.alloc_os :=
  {| Maxspace.open_token_ok := true; Maxspace.adjust_priv_ok := true;
     Maxspace.close_token_ok := true; Maxspace.create_ok := true;
     Maxspace.set_pointer_ok := fun _ => true; Maxspace.set_eof_ok := true;
     Maxspace.set_valid_ok := fun _ => true; Maxspace.close_file_ok := true |}.

(** A simulated drive with limits [hard] and [soft] whose medium still
    holds [junk] from offset [i] on. *)
Definition intact (hard soft : Z) (junk : buffer) (i : Z) (d : Maxspace.sim)
  : Prop :=
  Maxspace.sim_hard d = hard /\ Maxspace.sim_soft d = soft /\
  forall x, i <= x -> Maxspace.sim_data d x = junk x.

(** The block at offset [i] meets no refusal, and no dropped write that a
    read-back would notice. *)
Definition passes (hard soft sectorSize : Z) (noReads : bool) (i : Z) : Prop :=
  i + sectorSize <= hard /\ (noReads = true \/ i < soft).

(** The block counter after [n] blocks. *)
Definition counted (n : nat) (count : Z) : Z :=
  Nat.iter n (fun c => wrap64 (c + 1)) count.

(** The file called [name] is a whole segment with [v] in its four
    slots. *)
Definition holds (fs : list Spacechk.file) (name : string) (v : Z) : Prop :=
  exists f,
    Spacechk.lookup fs name = Some f /\
    Spacechk.f_len f = Spacechk.fileIOSize /\
    forall o, In o [0; 1; 2; 3] ->
              load64 (Spacechk.f_data f) (o * (Spacechk.fileIOSize / 4)) = v.

(** * Properties *)

(** ** Machine arithmetic *)

Lemma wrap64_small (z : Z) : 0 <= z < 2 ^ 64 -> wrap64 z = z.
Proof. intros H. unfold wrap64. apply Z.mod_small. exact H. Qed.

Lemma wrap64_mul_l (a b : Z) : wrap64 (wrap64 a * b) = wrap64 (a * b).
Proof. unfold wrap64. apply Z.mul_mod_idemp_l. lia. Qed.

Lemma wrap64_signed64 (z : Z) : wrap64 (signed64 z) = wrap64 z.
Proof.
  unfold signed64. destruct (wrap64 z <? 2 ^ 63).
  - unfold wrap64. apply Z.mod_mod. lia.
  - unfold wrap64.
    replace (z mod 2 ^ 64 - 2 ^ 64) with (z mod 2 ^ 64 + (-1) * 2 ^ 64) by lia.
    rewrite Z.mod_add by lia. apply Z.mod_mod. lia.
Qed.

Lemma signed64_congr (a b : Z) : wrap64 a = wrap64 b -> signed64 a = signed64 b.
Proof. intros H. unfold signed64. rewrite H. reflexivity. Qed.

Lemma signed64_small (z : Z) : 0 <= z < 2 ^ 63 -> signed64 z = z.
Proof.
  intros H. unfold signed64. rewrite wrap64_small by lia.
  destruct (Z.ltb_spec z (2 ^ 63)); lia.
Qed.

Lemma signed64_mul_l (a b : Z) : signed64 (signed64 a * b) = signed64 (a * b).
Proof.
  apply signed64_congr.
  rewrite <- wrap64_mul_l, wrap64_signed64, wrap64_mul_l. reflexivity.
Qed.

(** ** C10: human-readable sizes *)




(** ** C9: free and total space *)

Lemma space_u64_mod (b s c : Z) : space_u64 b s c = (b * s * c) mod 2 ^ 64.
Proof.
  unfold space_u64. cbv zeta.
  rewrite wrap64_mul_l, <- Z.mul_assoc, wrap64_mul_l, Z.mul_assoc.
  reflexivity.
Qed.

Lemma space_i64_signed (b s c : Z) : space_i64 b s c = signed64 (b * s * c).
Proof.
  unfold space_i64. cbv zeta.
  rewrite signed64_mul_l, <- Z.mul_assoc, signed64_mul_l, Z.mul_assoc.
  reflexivity.
Qed.

Lemma dword_product_bound (b s : Z) :
  is_dword b -> is_dword s -> 0 <= b * s < 2 ^ 64.
Proof. unfold is_dword. intros Hb Hs. nia. Qed.

(** C9, as the code has it. For all 32-bit sector size, sectors per
    cluster and cluster count: the first product is never truncated; the
    derived space is the product modulo 2^64 in spacechk, hence the exact
    product whenever that is below 2^64; in maxspace it is the exact
    product whenever that is below 2^63, and positive exact products pass
    the sanity check of [main]. *)
Theorem C9_space_exact_within_64_bits : forall b s c : Z,
  is_dword b -> is_dword s -> is_dword c ->
  wrap64 (wrap64 b * s) = b * s /\
  space_u64 b s c = (b * s * c) mod 2 ^ 64 /\
  (b * s * c < 2 ^ 64 -> space_u64 b s c = b * s * c) /\
  (b * s * c < 2 ^ 63 -> space_i64 b s c = b * s * c) /\
  (forall t : Z,
      is_dword t -> 0 < b * s * c < 2 ^ 63 -> 0 < b * s * t < 2 ^ 63 ->
      Maxspace.main_space b s c t = Some (b * s * c, b * s * t)).
Proof.
  intros b s c Hb Hs Hc.
  pose proof (dword_product_bound b s Hb Hs) as Hbs.
  assert (0 <= b * s * c) by (unfold is_dword in Hc; nia).
  repeat split.
  - rewrite wrap64_mul_l. apply wrap64_small. exact Hbs.
  - apply space_u64_mod.
  - intros Hlt. rewrite space_u64_mod. apply Z.mod_small. lia.
  - intros Hlt. rewrite space_i64_signed. apply signed64_small. lia.
  - intros t Ht Hfree Htotal. unfold Maxspace.main_space.
    rewrite !space_i64_signed, !signed64_small by lia.
    destruct (Z.leb_spec (b * s * c) 0); [lia|].
    destruct (Z.leb_spec (b * s * t) 0); [lia|].
    reflexivity.
Qed.

Lemma C9_space_witness :
  space_u64 4096 64 30000000 = 4096 * 64 * 30000000 /\
  space_i64 4096 64 30000000 = 4096 * 64 * 30000000.
Proof.
  assert (D : is_dword 4096 /\ is_dword 64 /\ is_dword 30000000)
    by (unfold is_dword; lia).
  destruct D as (D1 & D2 & D3).
  destruct (C9_space_exact_within_64_bits 4096 64 30000000 D1 D2 D3)
    as (_ & _ & U & I & _).
  split; [apply U | apply I]; lia.
Defined.

(** Three 32-bit values whose product does not fit 64 bits: the derived
    space is not the product. *)
Lemma C9_space_counterexample :
  is_dword 4294967295 /\
  space_u64 4294967295 4294967295 4294967295
  <> 4294967295 * 4294967295 * 4294967295 /\
  space_i64 4294967295 4294967295 4294967295
  <> 4294967295 * 4294967295 * 4294967295.
Proof.
  split; [unfold is_dword; lia|].
  split; vm_compute; discriminate.
Qed.

(** ** Loads and stores of the stamped pattern *)

Lemma load64_store64_same (b : buffer) (off v : Z) :
  load64 (store64 b off v) off = v mod 2 ^ 64.
Proof.
  unfold load64, load_le, store64.
  replace (off + 1 + 1 + 1 + 1 + 1 + 1 + 1) with (off + 7) by lia.
  replace (off + 1 + 1 + 1 + 1 + 1 + 1) with (off + 6) by lia.
  replace (off + 1 + 1 + 1 + 1 + 1) with (off + 5) by lia.
  replace (off + 1 + 1 + 1 + 1) with (off + 4) by lia.
  replace (off + 1 + 1 + 1) with (off + 3) by lia.
  replace (off + 1 + 1) with (off + 2) by lia.
  repeat match goal with
         | |- context [(?a <=? ?c) && (?c <? ?d)] =>
             replace ((a <=? c) && (c <? d)) with true
               by (symmetry; apply andb_true_intro; split;
                   [apply Z.leb_le | apply Z.ltb_lt]; lia)
         end.
  replace (off - off) with 0 by lia.
  replace (off + 1 - off) with 1 by lia.
  replace (off + 2 - off) with 2 by lia.
  replace (off + 3 - off) with 3 by lia.
  replace (off + 4 - off) with 4 by lia.
  replace (off + 5 - off) with 5 by lia.
  replace (off + 6 - off) with 6 by lia.
  replace (off + 7 - off) with 7 by lia.
  unfold byte_of. simpl (8 * _).
  change (2 ^ 0) with 1. change (2 ^ 8) with 256.
  change (2 ^ 16) with 65536. change (2 ^ 24) with 16777216.
  change (2 ^ 32) with 4294967296. change (2 ^ 40) with 1099511627776.
  change (2 ^ 48) with 281474976710656.
  change (2 ^ 56) with 72057594037927936.
  change (2 ^ 64) with 18446744073709551616.
  Z.div_mod_to_equations. lia.
Qed.

Lemma load_le_ext (n : nat) (b b' : buffer) (off : Z) :
  (forall k, off <= k < off + Z.of_nat n -> b k = b' k) ->
  load_le b off n = load_le b' off n.
Proof.
  revert off. induction n as [|n IH]; intros off H; simpl.
  - reflexivity.
  - rewrite (H off) by lia. rewrite (IH (off + 1)); [reflexivity|].
    intros k Hk. apply H. lia.
Qed.

Lemma load64_store64_other (b : buffer) (off off' v : Z) :
  off' + 8 <= off \/ off + 8 <= off' ->
  load64 (store64 b off v) off' = load64 b off'.
Proof.
  intros H. unfold load64. apply load_le_ext. intros k Hk.
  unfold store64.
  destruct (Z.leb_spec off k); destruct (Z.ltb_spec k (off + 8));
    simpl; try reflexivity; lia.
Qed.

Lemma load64_memset_zero (b : buffer) (n off : Z) :
  0 <= off -> off + 8 <= n -> load64 (memset b 0 n) off = 0.
Proof.
  intros H0 H1. unfold load64.
  rewrite (load_le_ext 8 _ (fun _ => 0) off).
  - reflexivity.
  - intros k Hk. unfold memset.
    destruct (Z.leb_spec 0 k); destruct (Z.ltb_spec k n);
      simpl; try reflexivity; lia.
Qed.

Lemma load64_stamp (b : buffer) (size v o : Z) :
  32 <= size -> In o [0; 1; 2; 3] ->
  load64 (stamp b size v) (o * (size / 4)) = v mod 2 ^ 64.
Proof.
  intros Hsize Ho.
  assert (Hq : 8 <= size / 4) by (Z.div_mod_to_equations; lia).
  unfold stamp, stamp_from. simpl (0 + 1). simpl (1 + 1). simpl (2 + 1).
  destruct Ho as [<-|[<-|[<-|[<-|[]]]]].
  - rewrite !load64_store64_other by lia. apply load64_store64_same.
  - rewrite !load64_store64_other by lia. apply load64_store64_same.
  - rewrite load64_store64_other by lia. apply load64_store64_same.
  - apply load64_store64_same.
Qed.

Lemma check_stamp (b : buffer) (size v : Z) :
  32 <= size -> 0 <= v < 2 ^ 64 -> check (stamp b size v) size v = None.
Proof.
  intros Hsize Hv. unfold check, first_mismatch.
  simpl (0 + 1). simpl (1 + 1). simpl (2 + 1).
  rewrite !load64_stamp by (simpl; auto).
  rewrite Z.mod_small by lia. rewrite Z.eqb_refl. reflexivity.
Qed.

(** ** C5: fast allocation is all or nothing *)

Module AllocFacts.
Import Maxspace.

(** C5. When all five steps are granted, [CreateVerifyFile] performs
    exactly the five, in order (and returns success when the file is then
    closed; when that last close is refused the process dies in the error
    line); when step [k] is the first one refused, it returns failure and
    has performed the steps up to [k] and none after it. *)
Theorem C5_allocation_all_or_abort :
  forall (os : alloc_os) (totalSpace : Z),
    (forallb (step_ok os totalSpace) all_steps = true ->
     fst (CreateVerifyFile os totalSpace)
     = (if close_file_ok os then Returns true else Dies) /\
     steps_of (snd (CreateVerifyFile os totalSpace)) = all_steps) /\
    (forall (k : nat) (s : alloc_step),
        nth_error all_steps k = Some s ->
        forallb (step_ok os totalSpace) (firstn k all_steps) = true ->
        step_ok os totalSpace s = false ->
        fst (CreateVerifyFile os totalSpace) = Returns false /\
        steps_of (snd (CreateVerifyFile os totalSpace))
        = firstn (S k) all_steps).
Proof.
  intros os totalSpace. split.
  - unfold all_steps, forallb, step_ok, CreateVerifyFile, AddPrivelege.
    destruct (open_token_ok os), (adjust_priv_ok os), (close_token_ok os),
      (create_ok os), (set_pointer_ok os totalSpace), (set_eof_ok os),
      (set_valid_ok os totalSpace); simpl; intros H; try discriminate H.
    split; reflexivity.
  - intros k s Hk Hbefore Hs.
    do 5 (destruct k as [|k];
          [ injection Hk as <-; revert Hbefore Hs;
            unfold all_steps, firstn, forallb, step_ok, CreateVerifyFile,
              AddPrivelege;
            destruct (open_token_ok os), (adjust_priv_ok os),
              (close_token_ok os), (create_ok os),
              (set_pointer_ok os totalSpace), (set_eof_ok os),
              (set_valid_ok os totalSpace); simpl; intros Hb Hs;
            try discriminate Hb; try discriminate Hs; split; reflexivity
          | ]).
    destruct k; discriminate Hk.
Qed.

Lemma C5_allocation_witness :
  fst (CreateVerifyFile os_no_eof 32212254720) = Returns false /\
  steps_of (snd (CreateVerifyFile os_no_eof 32212254720))
  = [StepPrivilege; StepCreate; StepMovePointer; StepCommitEof].
Proof.
  apply (proj2 (C5_allocation_all_or_abort os_no_eof 32212254720)
               3%nat StepCommitEof); reflexivity.
Defined.

End AllocFacts.

(** ** C3: the probe pass at its first failure *)

Lemma check_finds_mismatch (b : buffer) (size expected o : Z) :
  In o [0; 1; 2; 3] ->
  load64 b (o * (size / 4)) <> expected ->
  exists o' v', check b size expected = Some (o', v').
Proof.
  intros Ho Hne. unfold check, first_mismatch.
  simpl (0 + 1). simpl (1 + 1). simpl (2 + 1).
  destruct (Z.eqb_spec (load64 b (0 * (size / 4))) expected) as [E0|N0];
    [|eauto].
  destruct (Z.eqb_spec (load64 b (1 * (size / 4))) expected) as [E1|N1];
    [|eauto].
  destruct (Z.eqb_spec (load64 b (2 * (size / 4))) expected) as [E2|N2];
    [|eauto].
  destruct (Z.eqb_spec (load64 b (3 * (size / 4))) expected) as [E3|N3];
    [|eauto].
  destruct Ho as [<-|[<-|[<-|[<-|[]]]]]; contradiction.
Qed.

Module ProbeFacts.
Import Maxspace.

Lemma reported_app (ev ev' : list event) :
  reported (ev ++ ev') = reported ev ++ reported ev'.
Proof.
  induction ev as [|e ev IH]; simpl; [reflexivity|].
  destruct e; simpl; rewrite ?IH; reflexivity.
Qed.

Lemma probed_app (ev ev' : list event) :
  probed (ev ++ ev') = probed ev ++ probed ev'.
Proof.
  induction ev as [|e ev IH]; simpl; [reflexivity|].
  destruct e; simpl; rewrite ?IH; reflexivity.
Qed.

Lemma closes_app (ev ev' : list event) :
  closes (ev ++ ev') = (closes ev + closes ev')%nat.
Proof.
  induction ev as [|e ev IH]; simpl; [reflexivity|].
  destruct e; simpl; rewrite ?IH; reflexivity.
Qed.

Section Loop.
Context {W : Type} {api : FileApi W}.
Variables (bytesPerSector : Z) (noReads : bool) (fileSize : Z).

Ltac each_event :=
  repeat (apply Forall_cons; [simpl; auto|]); apply Forall_nil.

Ltac block_done :=
  intros [= <- <- <- <-];
  split; [each_event
         | split; [reflexivity
                  | split; [reflexivity | try discriminate; reflexivity]]].

(** What one block leaves in the trace. *)
Lemma probe_block_events (i count : Z) (buf : buffer) (w : W) fault b' w' ev :
  probe_block bytesPerSector noReads i count buf w = (fault, b', w', ev) ->
  Forall (fun e => touched e = None \/ touched e = Some i) ev /\
  reported ev = printed fault i /\
  closes ev = 0%nat /\
  (fault = None -> probed ev = [i]).
Proof.
  unfold probe_block.
  destruct (SetFilePointerEx w i) as [moved w1].
  destruct moved; simpl negb; cbv iota; [|block_done].
  destruct (WriteFile w1 _ bytesPerSector) as [[written|] w2];
    [|block_done].
  destruct (written =? bytesPerSector); simpl negb; cbv iota;
    [|block_done].
  destruct noReads; [block_done|].
  destruct (SetFilePointerEx w2 i) as [moved' w3].
  destruct moved'; simpl negb; cbv iota; [|block_done].
  destruct (ReadFile w3 _ bytesPerSector) as [[[bytesRead b3]|] w4];
    [|block_done].
  destruct (bytesRead =? bytesPerSector); simpl negb; cbv iota;
    [|block_done].
  destruct (check b3 bytesPerSector (marker count)) as [[o v]|];
    block_done.
Qed.

(** Each way of failing makes the block fail, for that reason. *)
Lemma fails_at_probe_block (i count : Z) (buf : buffer) (w : W) (c : cause) :
  fails_at bytesPerSector noReads i count buf w c ->
  exists why b' w' ev,
    probe_block bytesPerSector noReads i count buf w = (Some why, b', w', ev)
    /\ cause_of why = c.
Proof.
  intros H. unfold probe_block.
  inversion H as
      [w1 Hs|w1 w2 Hs Hw|w1 w2 n Hs Hw Hn|w1 w2 w3 Hr Hs Hw Hs'
      |w1 w2 w3 w4 Hr Hs Hw Hs' Hrd|w1 w2 w3 w4 n b3 Hr Hs Hw Hs' Hrd Hn
      |w1 w2 w3 w4 b3 o Hr Hs Hw Hs' Hrd Ho Hne]; subst c;
    unfold stamped in *; rewrite Hs; simpl negb; cbv iota.
  - eauto 10.
  - rewrite Hw. eauto 10.
  - rewrite Hw. destruct (Z.eqb_spec n bytesPerSector); [contradiction|].
    simpl. eauto 10.
  - rewrite Hw, Z.eqb_refl, Hr. simpl. rewrite Hs'. simpl. eauto 10.
  - rewrite Hw, Z.eqb_refl, Hr. simpl. rewrite Hs'. simpl. rewrite Hrd.
    eauto 10.
  - rewrite Hw, Z.eqb_refl, Hr. simpl. rewrite Hs'. simpl. rewrite Hrd.
    destruct (Z.eqb_spec n bytesPerSector); [contradiction|].
    simpl. eauto 10.
  - rewrite Hw, Z.eqb_refl, Hr. simpl. rewrite Hs'. simpl. rewrite Hrd.
    rewrite Z.eqb_refl. simpl.
    destruct (check_finds_mismatch b3 bytesPerSector (marker count) o Ho Hne)
      as (o' & v' & ->).
    eauto 10.
Qed.

(** A block that fails in any way but a failed read ends the pass with
    the handle closed and [false]. *)
Lemma probe_loop_stops (fuel : nat) (i count : Z) (buf : buffer) (w : W)
      why b' w' ev :
  i < fileSize ->
  why <> ReadFailed ->
  probe_block bytesPerSector noReads i count buf w = (Some why, b', w', ev) ->
  probe_loop (S fuel) bytesPerSector noReads fileSize i count buf w
  = Some (Returns false, CloseHandle w', ev ++ [EvClose]).
Proof.
  intros Hi Hwhy Hb. simpl.
  destruct (Z.ltb_spec i fileSize); [|lia].
  rewrite Hb. destruct why; try reflexivity. contradiction.
Qed.

(** A failed read ends the process where it is. *)
Lemma probe_loop_dies (fuel : nat) (i count : Z) (buf : buffer) (w : W)
      b' w' ev :
  i < fileSize ->
  probe_block bytesPerSector noReads i count buf w
  = (Some ReadFailed, b', w', ev) ->
  probe_loop (S fuel) bytesPerSector noReads fileSize i count buf w
  = Some (Dies, w', ev).
Proof.
  intros Hi Hb. simpl.
  destruct (Z.ltb_spec i fileSize); [|lia].
  rewrite Hb. reflexivity.
Qed.

(** How a pass that does not succeed ends: a pass that returns failure
    printed one offset, a block offset, and touched the file nowhere
    beyond it; a pass in which the process died printed no offset and
    never closed the handle. *)
Lemma probe_loop_ends_badly (fuel : nat) :
  fileSize <= 2 ^ 63 - verifySize ->
  forall (i count : Z) (buf : buffer) (w : W) out wf evf,
    0 <= i ->
    probe_loop fuel bytesPerSector noReads fileSize i count buf w
    = Some (out, wf, evf) ->
    (out = Returns false ->
     exists k, 0 <= k /\
       reported evf = [i + k * verifySize] /\
       Forall (fun e => forall off, touched e = Some off ->
                                    i <= off <= i + k * verifySize) evf) /\
    (out = Dies -> reported evf = [] /\ closes evf = 0%nat).
Proof.
  intros Hsize. induction fuel as [|fuel IH];
    intros i count buf w out wf evf Hi; simpl; [discriminate|].
  destruct (Z.ltb_spec i fileSize) as [Hlt|Hge].
  2:{ intros [= <- <- <-]. split; discriminate. }
  destruct (probe_block bytesPerSector noReads i count buf w)
    as [[[fault b'] w'] ev] eqn:Hb.
  destruct (probe_block_events _ _ _ _ _ _ _ _ Hb) as (Ht & Hr & Hc & _).
  assert (Hstop : forall why, fault = Some why -> why <> ReadFailed ->
            Some (Returns false, CloseHandle w', ev ++ [EvClose])
            = Some (out, wf, evf) ->
            (out = Returns false ->
             exists k, 0 <= k /\
               reported evf = [i + k * verifySize] /\
               Forall (fun e => forall off, touched e = Some off ->
                                            i <= off <= i + k * verifySize)
                      evf) /\
            (out = Dies -> reported evf = [] /\ closes evf = 0%nat)).
  { intros why -> Hwhy [= <- <- <-]. split; [intros _|discriminate].
    exists 0. split; [lia|]. split.
    - rewrite reported_app, Hr. destruct why; try contradiction;
        simpl; f_equal; lia.
    - apply Forall_app. split.
      + eapply Forall_impl; [|exact Ht]. simpl.
        intros e [He|He] off Hoff; rewrite He in Hoff;
          [discriminate | injection Hoff as <-; lia].
      + apply Forall_cons; [simpl; discriminate | apply Forall_nil]. }
  destruct fault as [why|].
  - destruct why;
      try (apply (Hstop _ eq_refl); discriminate).
    intros [= <- <- <-]. split; [discriminate|]. intros _.
    split; [exact Hr | exact Hc].
  - assert (Hnext : signed64 (i + verifySize) = i + verifySize).
    { apply signed64_small. unfold verifySize, MiB, KiB in *. lia. }
    rewrite Hnext.
    destruct (probe_loop fuel bytesPerSector noReads fileSize
                         (i + verifySize) (wrap64 (count + 1)) b' w')
      as [[[r w''] ev']|] eqn:Hrec; [|discriminate].
    intros [= <- <- <-].
    assert (Hi' : 0 <= i + verifySize)
      by (unfold verifySize, MiB, KiB; lia).
    destruct (IH _ _ _ _ _ _ _ Hi' Hrec) as (Hfalse & Hdies).
    split.
    + intros Hout. destruct (Hfalse Hout) as (k & Hk & Hrep & Hall).
      exists (k + 1). split; [lia|]. split.
      * rewrite reported_app, Hr, Hrep. simpl. f_equal. lia.
      * apply Forall_app. split.
        -- eapply Forall_impl; [|exact Ht]. simpl.
           intros e [He|He] off Hoff; rewrite He in Hoff;
             [discriminate | injection Hoff as <-].
           unfold verifySize, MiB, KiB. lia.
        -- eapply Forall_impl; [|exact Hall]. simpl.
           intros e He off Hoff. specialize (He off Hoff).
           unfold verifySize, MiB, KiB in *. lia.
    + intros Hout. destruct (Hdies Hout) as (Hrep & Hcl).
      rewrite reported_app, closes_app, Hr, Hc, Hrep, Hcl.
      split; reflexivity.
Qed.

End Loop.

(** C3. In the pass over a file of [fileSize] bytes, let the block at
    offset [i] fail in one of the ways of [fails_at]. If it is a failed
    seek, write, short write, seek before the read, short read or pattern
    mismatch, the loop returns failure at once: the rest of the trace is
    that block's calls, one printed size, [i], and the closing of the
    handle, and no call in it touches an offset other than [i]. If it is
    a failed read, the pass also ends at that block, but by the death of
    the process in the error line: no size is printed and the handle is
    not closed. Moreover any pass from offset 0 that returns failure
    printed exactly one size, a multiple of the stride, and touched no
    offset beyond it, and any pass in which the process died printed
    none. *)
Theorem C3_read_failure_reports_nothing :
  forall (W : Type) (api : FileApi W) (fuel : nat) (bytesPerSector : Z)
         (noReads : bool) (fileSize i count : Z) (buf : buffer) (w : W)
         (c : cause),
    i < fileSize ->
    fails_at bytesPerSector noReads i count buf w c ->
    (c <> ReadFailure ->
     exists why b' w' ev,
        probe_block bytesPerSector noReads i count buf w
        = (Some why, b', w', ev) /\
        cause_of why = c /\
        probe_loop (S fuel) bytesPerSector noReads fileSize i count buf w
        = Some (Returns false, CloseHandle w', ev ++ [EvClose]) /\
        reported (ev ++ [EvClose]) = [i] /\
        Forall (fun e => touched e = None \/ touched e = Some i)
               (ev ++ [EvClose])) /\
    (c = ReadFailure ->
     exists b' w' ev,
        probe_block bytesPerSector noReads i count buf w
        = (Some ReadFailed, b', w', ev) /\
        probe_loop (S fuel) bytesPerSector noReads fileSize i count buf w
        = Some (Dies, w', ev) /\
        reported ev = [] /\
        closes ev = 0%nat /\
        Forall (fun e => touched e = None \/ touched e = Some i) ev) /\
    (fileSize <= 2 ^ 63 - verifySize ->
     forall fuel0 buf0 w0 out wf evf,
       probe_loop fuel0 bytesPerSector noReads fileSize 0 0 buf0 w0
       = Some (out, wf, evf) ->
       (out = Returns false ->
        exists k, 0 <= k /\
          reported evf = [k * verifySize] /\
          Forall (fun e => forall off, touched e = Some off ->
                                       0 <= off <= k * verifySize) evf) /\
       (out = Dies -> reported evf = [] /\ closes evf = 0%nat)).
Proof.
  intros W api fuel bytesPerSector noReads fileSize i count buf w c Hi Hf.
  destruct (fails_at_probe_block _ _ _ _ _ _ _ Hf)
    as (why & b' & w' & ev & Hb & Hc).
  destruct (probe_block_events _ _ _ _ _ _ _ _ _ _ Hb) as (Ht & Hr & Hcl & _).
  split; [|split].
  - intros Hne. exists why, b', w', ev.
    assert (Hwhy : why <> ReadFailed)
      by (intros ->; apply Hne; symmetry; exact Hc).
    split; [exact Hb|]. split; [exact Hc|]. split; [|split].
    + eapply probe_loop_stops; eassumption.
    + rewrite reported_app, Hr.
      destruct why; try contradiction; reflexivity.
    + apply Forall_app. split; [exact Ht|].
      apply Forall_cons; [simpl; auto | apply Forall_nil].
  - intros ->. destruct why; try discriminate Hc.
    exists b', w', ev.
    split; [exact Hb|]. split; [|split; [exact Hr|split; [exact Hcl|exact Ht]]].
    eapply probe_loop_dies; eassumption.
  - intros Hsize fuel0 buf0 w0 out wf evf Hrun.
    destruct (probe_loop_ends_badly _ _ _ fuel0 Hsize _ _ _ _ _ _ _
                (Z.le_refl 0) Hrun) as (Hfalse & Hdies).
    split; [|exact Hdies].
    intros Hout. destruct (Hfalse Hout) as (k & Hk & Hrep & Hall).
    exists k. simpl in Hrep, Hall. auto.
Qed.

Lemma C3_read_failure_witness :
  verifySize < verifySize + 512 /\
  @fails_at sim (unreadable_from verifySize) 512 false verifySize 1
            (fun _ => 0) sound_drive ReadFailure /\
  exists b' w' ev,
    @probe_block sim (unreadable_from verifySize) 512 false verifySize 1
                 (fun _ => 0) sound_drive
    = (Some ReadFailed, b', w', ev) /\
    @probe_loop sim (unreadable_from verifySize) 1 512 false
                (verifySize + 512) verifySize 1 (fun _ => 0) sound_drive
    = Some (Dies, w', ev) /\
    reported ev = [] /\
    closes ev = 0%nat /\
    Forall (fun e => touched e = None \/ touched e = Some verifySize) ev.
Proof.
  assert (Hlt : verifySize < verifySize + 512) by reflexivity.
  assert (Hf : @fails_at sim (unreadable_from verifySize) 512 false
                         verifySize 1 (fun _ => 0) sound_drive ReadFailure)
    by (eapply fails_read; reflexivity).
  split; [exact Hlt|]. split; [exact Hf|].
  exact (proj1 (proj2 (C3_read_failure_reports_nothing
                         sim (unreadable_from verifySize) 0%nat 512 false
                         (verifySize + 512) verifySize 1
                         (fun _ => 0) sound_drive ReadFailure Hlt Hf))
               eq_refl).
Defined.

End ProbeFacts.

(** ** C8: how many units are created and probed *)

Module CountFacts.
Import Maxspace.

Lemma offsets_from_done (i fileSize : Z) :
  fileSize <= i -> offsets_from i fileSize = [].
Proof.
  intros H. unfold offsets_from.
  assert (Hd : (fileSize - i + verifySize - 1) / verifySize <= 0).
  { assert ((fileSize - i + verifySize - 1) / verifySize < 1); [|lia].
    apply Z.div_lt_upper_bound; unfold verifySize, MiB, KiB; lia. }
  destruct ((fileSize - i + verifySize - 1) / verifySize); try reflexivity.
  lia.
Qed.

Lemma blocks_step (i fileSize : Z) :
  i < fileSize ->
  Z.to_nat ((fileSize - i + verifySize - 1) / verifySize)
  = S (Z.to_nat ((fileSize - (i + verifySize) + verifySize - 1) / verifySize)).
Proof.
  intros H.
  replace (fileSize - i + verifySize - 1)
    with (fileSize - (i + verifySize) + verifySize - 1 + 1 * verifySize)
    by lia.
  rewrite Z.div_add by (unfold verifySize, MiB, KiB; lia).
  assert (0 <= (fileSize - (i + verifySize) + verifySize - 1) / verifySize).
  { apply Z.div_pos; unfold verifySize, MiB, KiB; lia. }
  rewrite Z2Nat.inj_add by lia. rewrite Nat.add_comm. reflexivity.
Qed.

Lemma offsets_from_step (i fileSize : Z) :
  i < fileSize ->
  offsets_from i fileSize = i :: offsets_from (i + verifySize) fileSize.
Proof.
  intros H. unfold offsets_from. rewrite (blocks_step i fileSize H).
  simpl seq. simpl map. f_equal; [lia|].
  rewrite <- seq_shift, map_map. apply map_ext. intros k.
  rewrite Nat2Z.inj_succ. lia.
Qed.

Section Loop.
Context {W : Type} {api : FileApi W}.
Variables (bytesPerSector : Z) (noReads : bool) (fileSize : Z).
Hypothesis Hsize : fileSize <= 2 ^ 63 - verifySize.

(** A pass that succeeds wrote one block at every stride offset below
    the file size. *)
Lemma probe_loop_true (fuel : nat) :
  forall (i count : Z) (buf : buffer) (w : W) wf evf,
    0 <= i ->
    probe_loop fuel bytesPerSector noReads fileSize i count buf w
    = Some (Returns true, wf, evf) ->
    probed evf = offsets_from i fileSize.
Proof.
  induction fuel as [|fuel IH]; intros i count buf w wf evf Hi; simpl;
    [discriminate|].
  destruct (Z.ltb_spec i fileSize) as [Hlt|Hge].
  - destruct (probe_block bytesPerSector noReads i count buf w)
      as [[[fault b'] w'] ev] eqn:Hb.
    destruct (ProbeFacts.probe_block_events _ _ _ _ _ _ _ _ _ _ Hb)
      as (_ & _ & _ & Hp).
    destruct fault as [why|]; [destruct why; discriminate|].
    rewrite signed64_small by (unfold verifySize, MiB, KiB in *; lia).
    destruct (probe_loop fuel bytesPerSector noReads fileSize
                         (i + verifySize) (wrap64 (count + 1)) b' w')
      as [[[r w''] ev']|] eqn:Hrec; [|discriminate].
    intros [= -> <- <-].
    rewrite ProbeFacts.probed_app, (Hp eq_refl), offsets_from_step by assumption.
    simpl. f_equal. eapply IH; [|exact Hrec].
    unfold verifySize, MiB, KiB. lia.
  - intros [= <- <-]. rewrite offsets_from_done by assumption. reflexivity.
Qed.

(** The pass always ends: fuel beyond the number of stride offsets is
    never used up. *)
Lemma probe_loop_total (fuel : nat) :
  forall (i count : Z) (buf : buffer) (w : W),
    0 <= i ->
    (Z.to_nat ((fileSize - i + verifySize - 1) / verifySize) < fuel)%nat ->
    exists res,
      probe_loop fuel bytesPerSector noReads fileSize i count buf w
      = Some res.
Proof.
  induction fuel as [|fuel IH]; intros i count buf w Hi Hfuel; [lia|].
  simpl. destruct (Z.ltb_spec i fileSize) as [Hlt|Hge]; [|eauto].
  destruct (probe_block bytesPerSector noReads i count buf w)
    as [[[fault b'] w'] ev].
  destruct fault as [why|]; [destruct why; eauto|].
  rewrite signed64_small by (unfold verifySize, MiB, KiB in *; lia).
  rewrite (blocks_step i fileSize Hlt) in Hfuel.
  destruct (IH (i + verifySize) (wrap64 (count + 1)) b' w') as [[[r w''] ev'] ->].
  - unfold verifySize, MiB, KiB. lia.
  - lia.
  - eauto.
Qed.

End Loop.

End CountFacts.

Module SegmentFacts.
Import Spacechk.

Lemma created_app (ev ev' : list event) :
  created (ev ++ ev') = created ev ++ created ev'.
Proof.
  induction ev as [|e ev IH]; simpl; [reflexivity|].
  destruct e; simpl; rewrite ?IH; reflexivity.
Qed.

Lemma names_from_step (pathName : string) (i : Z) (m : nat) :
  names_from pathName i (S m)
  = segment_name pathName i :: names_from pathName (i + 1) m.
Proof.
  unfold names_from. simpl seq. simpl map. f_equal.
  - f_equal. lia.
  - rewrite <- seq_shift, map_map. apply map_ext. intros k.
    f_equal. rewrite Nat2Z.inj_succ. lia.
Qed.

Section Loop.
Context {W : Type} {api : Win32 W}.

(** The creation loop creates the files numbered from [i] on, in order,
    whatever the volume already holds: all [n] of them when it succeeds,
    and at least the first when it has any to create. *)
Lemma create_loop_created (n : nat) :
  forall (pathName : string) (i : Z) (buf : buffer) (w : W) r w' ev,
    create_loop n pathName i buf w = (r, w', ev) ->
    exists m, (m <= n)%nat /\
      created ev = names_from pathName i m /\
      (r = true -> m = n) /\
      (0 < n -> 0 < m)%nat.
Proof.
  induction n as [|n IH]; intros pathName i buf w r w' ev; simpl.
  - intros [= <- <- <-]. exists 0%nat. repeat split; auto; lia.
  - destruct (CreateAlways w (segment_name pathName i)) as [ok w1].
    destruct ok; simpl negb; cbv iota.
    2:{ intros [= <- <- <-]. exists 1%nat.
        repeat split; try lia; try discriminate.
        unfold names_from. simpl. repeat f_equal. lia. }
    destruct (WriteFile w1 _ _ fileIOSize) as [[written|] w2].
    2:{ intros [= <- <- <-]. exists 1%nat.
        repeat split; try lia; try discriminate.
        unfold names_from. simpl. repeat f_equal. lia. }
    destruct (written =? fileIOSize); simpl negb; cbv iota.
    2:{ intros [= <- <- <-]. exists 1%nat.
        repeat split; try lia; try discriminate.
        unfold names_from. simpl. repeat f_equal. lia. }
    destruct (create_loop n pathName (i + 1) _ _) as [[r0 w3] ev0] eqn:Hrec.
    intros [= <- <- <-].
    destruct (IH _ _ _ _ _ _ _ Hrec) as (m & Hm & Hc & Hr & _).
    exists (S m). repeat split; try lia.
    + rewrite names_from_step. simpl. rewrite Hc. reflexivity.
    + intros Ht. rewrite (Hr Ht). reflexivity.
Qed.

Lemma CreateFiles_created (junk : Z) (pathName : string)
      (bytesPerSector totalSpace : Z) (w : W) r w' ev :
  CreateFiles junk pathName bytesPerSector totalSpace w = (r, w', ev) ->
  exists m, (m <= Z.to_nat (totalSpace / fileIOSize))%nat /\
    created ev = names_from pathName 0 m /\
    (r = true -> m = Z.to_nat (totalSpace / fileIOSize)).
Proof.
  unfold CreateFiles.
  destruct (aligned_malloc w fileIOSize); simpl negb; cbv iota.
  2:{ intros [= <- <- <-]. exists 0%nat.
      repeat split; try lia; try discriminate. }
  destruct (create_loop _ pathName 0 _ w) as [[r0 w0] ev0] eqn:Hloop.
  intros [= <- <- <-].
  destruct (create_loop_created _ _ _ _ _ _ _ _ Hloop) as (m & Hm & Hc & Hr & _).
  exists m. repeat split; try assumption.
  simpl. rewrite created_app, Hc.
  destruct r0; simpl; rewrite app_nil_r; reflexivity.
Qed.

End Loop.

End SegmentFacts.

Lemma stride_count (fileSize : Z) :
  0 <= fileSize ->
  (fileSize mod Maxspace.verifySize = 0 ->
   Z.of_nat (List.length (Maxspace.stride_offsets fileSize))
   = fileSize / Maxspace.verifySize) /\
  (fileSize mod Maxspace.verifySize <> 0 ->
   Z.of_nat (List.length (Maxspace.stride_offsets fileSize))
   = fileSize / Maxspace.verifySize + 1).
Proof.
  intros H. unfold Maxspace.stride_offsets, Maxspace.offsets_from.
  rewrite length_map, length_seq, Z.sub_0_r.
  assert (0 <= (fileSize + Maxspace.verifySize - 1) / Maxspace.verifySize).
  { apply Z.div_pos; unfold Maxspace.verifySize, MiB, KiB; lia. }
  rewrite Z2Nat.id by assumption.
  unfold Maxspace.verifySize, MiB, KiB in *.
  split; intros Hm; Z.div_mod_to_equations; lia.
Qed.

(** C8, as the code has it. The segmented prober never creates more than
    [totalSpace / fileIOSize] files and, when it succeeds, has created
    exactly the files numbered below that quotient: a partial tail gets no
    file. The single-file prober announces [fileSize / verifySize] blocks,
    ends for every file size, and, when it succeeds, has written one
    block at every multiple of the stride below the file size: as many as
    the quotient when the stride divides the size, and one more (the block
    at the start of the partial tail) when it does not. *)
Theorem C8_units_created_and_probed :
  (forall (W : Type) (api : Spacechk.Win32 W) (junk : Z) (pathName : string)
          (bytesPerSector totalSpace : Z) (w : W) r w' ev,
      Spacechk.CreateFiles junk pathName bytesPerSector totalSpace w
      = (r, w', ev) ->
      (List.length (Spacechk.created ev)
       <= Z.to_nat (totalSpace / Spacechk.fileIOSize))%nat /\
      (r = true ->
       Spacechk.created ev
       = Spacechk.names_from pathName 0
                             (Z.to_nat (totalSpace / Spacechk.fileIOSize))))
  /\
  (forall (W : Type) (api : Maxspace.FileApi W) (fuel : nat)
          (bytesPerSector : Z) (noReads cached : bool) (w : W)
          (fileSize : Z),
      Maxspace.GetFileSizeEx (Maxspace.OpenExisting w cached) = Some fileSize ->
      0 <= fileSize <= 2 ^ 63 - Maxspace.verifySize ->
      (Z.to_nat ((fileSize + Maxspace.verifySize - 1) / Maxspace.verifySize)
       < fuel)%nat ->
      exists r w' ev,
        Maxspace.VerifyTheFile fuel bytesPerSector noReads cached w
        = Some (r, w', ev) /\
        (r = Returns true ->
         In (Maxspace.EvPlan (fileSize / Maxspace.verifySize)) ev /\
         Maxspace.probed ev = Maxspace.stride_offsets fileSize /\
         (fileSize mod Maxspace.verifySize = 0 ->
          Z.of_nat (List.length (Maxspace.probed ev))
          = fileSize / Maxspace.verifySize) /\
         (fileSize mod Maxspace.verifySize <> 0 ->
          Z.of_nat (List.length (Maxspace.probed ev))
          = fileSize / Maxspace.verifySize + 1))).
Proof.
  split.
  - intros W api junk pathName bytesPerSector totalSpace w r w' ev Hrun.
    destruct (SegmentFacts.CreateFiles_created _ _ _ _ _ _ _ _ Hrun)
      as (m & Hm & Hc & Hr).
    split.
    + rewrite Hc. unfold Spacechk.names_from.
      rewrite length_map, length_seq. exact Hm.
    + intros Ht. rewrite Hc, (Hr Ht). reflexivity.
  - intros W api fuel bytesPerSector noReads cached w fileSize Hsz Hrange Hfuel.
    unfold Maxspace.VerifyTheFile. rewrite Hsz.
    rewrite wrap64_small
      by (unfold Maxspace.verifySize, MiB, KiB in Hrange; lia).
    destruct (Maxspace.aligned_malloc (Maxspace.OpenExisting w cached)
                                      bytesPerSector);
      simpl negb; cbv iota.
    2:{ do 3 eexists. split; [reflexivity|]. discriminate. }
    destruct (CountFacts.probe_loop_total bytesPerSector noReads fileSize
                (proj2 Hrange) fuel 0 0 (fun _ => 0)
                (Maxspace.OpenExisting w cached) (Z.le_refl 0))
      as [[[r w'] ev] Hloop].
    { rewrite Z.sub_0_r. exact Hfuel. }
    rewrite Hloop. do 3 eexists. split; [reflexivity|].
    intros ->.
    pose proof (CountFacts.probe_loop_true bytesPerSector noReads fileSize
                  (proj2 Hrange) fuel 0 0 _ _ _ _ (Z.le_refl 0) Hloop) as Hp.
    assert (Hq : Maxspace.probed
                   ([Maxspace.EvOpen cached; Maxspace.EvGetFileSize;
                     Maxspace.EvPlan (fileSize / Maxspace.verifySize)] ++ ev)
                 = Maxspace.stride_offsets fileSize) by exact Hp.
    split; [simpl; auto|]. split; [exact Hq|].
    rewrite Hq. apply stride_count. lia.
Qed.

Lemma C8_units_witness :
  (fst (fst (Spacechk.CreateFiles 0 "E:\" 512 31457285 (Spacechk.healthy [])))
   = true /\
   Spacechk.created
     (snd (Spacechk.CreateFiles 0 "E:\" 512 31457285 (Spacechk.healthy [])))
   = Spacechk.names_from "E:\" 0 3) /\
  (exists w' ev,
      Maxspace.VerifyTheFile 3 512 false false sound_drive
      = Some (Returns true, w', ev) /\
      In (Maxspace.EvPlan (10486272 / Maxspace.verifySize)) ev /\
      Maxspace.probed ev = Maxspace.stride_offsets 10486272 /\
      Z.of_nat (List.length (Maxspace.probed ev))
      = 10486272 / Maxspace.verifySize + 1).
Proof.
  split.
  - pose (X := Spacechk.CreateFiles 0 "E:\" 512 31457285 (Spacechk.healthy [])).
    assert (HX : X = (fst (fst X), snd (fst X), snd X))
      by (destruct X as [[? ?] ?]; reflexivity).
    assert (Hr : fst (fst X) = true) by (vm_compute; reflexivity).
    split; [exact Hr|].
    exact (proj2 (proj1 C8_units_created_and_probed _ _ 0 "E:\" 512 31457285
                        (Spacechk.healthy []) _ _ _ HX) Hr).
  - assert (Hsz : Maxspace.GetFileSizeEx (Maxspace.OpenExisting sound_drive false)
                  = Some 10486272) by reflexivity.
    assert (Hrange : 0 <= 10486272 <= 2 ^ 63 - Maxspace.verifySize)
      by (vm_compute; split; discriminate).
    assert (Hfuel : (Z.to_nat ((10486272 + Maxspace.verifySize - 1)
                               / Maxspace.verifySize) < 3)%nat)
      by (vm_compute; lia).
    destruct (proj2 C8_units_created_and_probed Maxspace.sim Maxspace.sim_api
                    3%nat 512 false false sound_drive 10486272
                    Hsz Hrange Hfuel) as (r & w' & ev & Hrun & Hok).
    assert (Hr : match Maxspace.VerifyTheFile 3 512 false false sound_drive
                 with Some (r0, _, _) => r0 | None => Dies end = Returns true)
      by (vm_compute; reflexivity).
    rewrite Hrun in Hr. subst r.
    destruct (Hok eq_refl) as (Hplan & Hp & _ & Hodd).
    exists w', ev. repeat split; try assumption.
    apply Hodd. vm_compute. discriminate.
Defined.

(** On a sound medium under a file of 10 MiB plus one sector the pass
    succeeds having written two blocks, not the one of the quotient. *)
Lemma C8_units_counterexample :
  match Maxspace.VerifyTheFile 3 512 false false sound_drive with
  | Some (r, _, ev) =>
      r = Returns true /\
      Maxspace.probed ev = [0; 10485760] /\
      Z.of_nat (List.length (Maxspace.probed ev))
      <> Maxspace.sim_size sound_drive / Maxspace.verifySize
  | None => False
  end.
Proof. vm_compute. repeat split. discriminate. Qed.

(** ** The segmented prober on concrete volumes *)

Module SegmentRuns.
Import Spacechk.

(** Whatever the verification loop is given first, a file whose path
    holds no dash ends the run in failure once it has been read. *)
Lemma verify_loop_no_dash {W : Type} {api : Win32 W} (junk : Z)
      (keepGoing : bool) (pathName : string) (findData : find_data)
      (rest : list find_data) (count : Z) (buf : buffer) (w : W) :
  isDirectory findData = false ->
  wcschr (pathName ++ cFileName findData)%string "-"%char = None ->
  fst (fst (verify_loop junk keepGoing pathName (findData :: rest) count
                        buf w)) = false.
Proof.
  intros Hd Hn. simpl. rewrite Hd.
  destruct (OpenExisting w _) as [opened w1].
  destruct opened; simpl negb; cbv iota; [|reflexivity].
  destruct (ReadFile w1 _ buf fileIOSize) as [[[bytesRead b1]|] w2];
    [|reflexivity].
  destruct (bytesRead =? fileIOSize); simpl negb; cbv iota; [|reflexivity].
  rewrite Hn. reflexivity.
Qed.

(** C1. On a volume that already holds segments 0, 1 and 2, the scan for
    prior files answers 0 and a new creation run of five segments creates
    segments 0 to 4 again; on a volume whose segments carry the dash the
    scan looks for, the scan answers 2 (the highest number, not the
    next), and the run still creates segments 0 to 4. *)
Theorem C1_creation_restarts_at_segment_zero :
  map f_name (vol_files interrupted_volume) = names_from "E:\" 0 3 /\
  FindPriorFiles 0 "E:\" interrupted_volume = 0 /\
  created (snd (CreateFiles 0 "E:\" 512 (5 * fileIOSize) interrupted_volume))
  = names_from "E:\" 0 5 /\
  FindPriorFiles 0 "E:\" dashed_volume = 2 /\
  created (snd (CreateFiles 0 "E:\" 512 (5 * fileIOSize) dashed_volume))
  = names_from "E:\" 0 5.
Proof. vm_compute. repeat split. Qed.

(** C2. A completed creation run on a sound medium leaves three segments,
    each holding its number plus one in all four slots; verifying that
    store fails, with or without keep-verifying, at the first file: its
    path has no dash to read the sequence number after. *)
Theorem C2_verification_rejects_created_store :
  fst (fst (CreateFiles 0 "E:\" 512 (3 * fileIOSize) (healthy []))) = true /\
  well_stamped "E:\" 3 interrupted_volume = true /\
  fst (fst (VerifyFiles 0 "E:\" 512 false interrupted_volume)) = false /\
  fst (fst (VerifyFiles 0 "E:\" 512 true interrupted_volume)) = false /\
  snd (VerifyFiles 0 "E:\" 512 false interrupted_volume)
  = [EvFind "E:\sp*.bin"; EvOpen "E:\sp000000.bin";
     EvRead "E:\sp000000.bin" fileIOSize;
     EvError "Could not find sequence number from"].
Proof. vm_compute. repeat split. Qed.

(** C6. Creation of five segments on media that fail at segment 2: when
    the file cannot be created, and when the write comes back short, the
    run stops there and prints no size reached; when the write is
    refused, it stops there and prints the segment's starting offset. *)
Theorem C6_creation_failure_reports :
  (let '(r, _, ev) := CreateFiles 0 "E:\" 512 (5 * fileIOSize)
                                  no_create_volume in
   r = false /\ created ev = names_from "E:\" 0 3 /\ reached ev = []) /\
  (let '(r, _, ev) := CreateFiles 0 "E:\" 512 (5 * fileIOSize)
                                  short_write_volume in
   r = false /\ created ev = names_from "E:\" 0 3 /\ reached ev = []) /\
  (let '(r, _, ev) := CreateFiles 0 "E:\" 512 (5 * fileIOSize)
                                  no_write_volume in
   r = false /\ created ev = names_from "E:\" 0 3 /\
   reached ev = [2 * fileIOSize]).
Proof. vm_compute. repeat split. Qed.


End SegmentRuns.

(** * Further properties of the code *)

(** ** Stamping and sizes *)

Lemma wrap64_bounds (z : Z) : 0 <= wrap64 z < 2 ^ 64.
Proof. unfold wrap64. apply Z.mod_pos_bound. lia. Qed.

Lemma store64_frame (b : buffer) (off v k : Z) :
  k < off \/ off + 8 <= k -> store64 b off v k = b k.
Proof.
  intros H. unfold store64.
  destruct (Z.leb_spec off k); destruct (Z.ltb_spec k (off + 8));
    simpl; try reflexivity; lia.
Qed.

(** X1. Stamping a buffer of at least 32 bytes changes no byte outside
    the four 8-byte slots, and the slots lie inside the buffer. *)
Theorem X1_stamp_stays_in_slots :
  forall (b : buffer) (size v k : Z),
    32 <= size ->
    (in_slot size k = false -> stamp b size v k = b k) /\
    (in_slot size k = true -> 0 <= k < size).
Proof.
  intros b size v k Hsize.
  assert (Hq : 8 <= size / 4 /\ 4 * (size / 4) <= size)
    by (Z.div_mod_to_equations; lia).
  unfold in_slot, existsb. split.
  - intros H.
    repeat (apply orb_false_elim in H; destruct H as [? H]).
    repeat match goal with
           | E : (_ && _) = false |- _ =>
               apply andb_false_iff in E;
               rewrite Z.leb_gt, Z.ltb_ge in E
           end.
    unfold stamp, stamp_from. simpl (0 + 1). simpl (1 + 1). simpl (2 + 1).
    rewrite !store64_frame by lia. reflexivity.
  - intros H.
    repeat (apply orb_true_iff in H; destruct H as [H|H]);
      try discriminate H;
      apply andb_true_iff in H; rewrite Z.leb_le, Z.ltb_lt in H; lia.
Qed.

Lemma X1_stamp_witness :
  stamp (fun _ => 7) 512 1 100 = 7 /\ 0 <= 128 < 512.
Proof.
  assert (H : 32 <= 512) by lia.
  split.
  - apply (proj1 (X1_stamp_stays_in_slots (fun _ => 7) 512 1 100 H)).
    reflexivity.
  - apply (proj2 (X1_stamp_stays_in_slots (fun _ => 7) 512 1 128 H)).
    reflexivity.
Defined.

(** X2. For a size that fits [uint64_t], what spacechk's [OutputSize]
    prints rounds down by less than one unit: the value times the unit
    does not exceed the size and the next value would; the value is below
    1024 unless the unit is TiB, below 2^24 always, and at least 1 once
    the size reaches 1024. *)
Theorem X2_OutputSize_rounds_down :
  forall s : Z,
    0 <= s < 2 ^ 64 ->
    exists u,
      In (u, snd (SpacechkMain.OutputSize s))
         ((1, byteName) :: combine sizeArray sizeNames) /\
      fst (SpacechkMain.OutputSize s) * u <= s
      < (fst (SpacechkMain.OutputSize s) + 1) * u /\
      0 <= fst (SpacechkMain.OutputSize s) < 2 ^ 24 /\
      (u <> TiB -> fst (SpacechkMain.OutputSize s) < 1024) /\
      (1024 <= s -> 1 <= fst (SpacechkMain.OutputSize s)).
Proof.
  intros s Hs. unfold SpacechkMain.OutputSize, HumanReadable, sizeArray,
    sizeNames, HumanReadable_loop.
  unfold Z.geb.
  destruct (Z.compare_spec s TiB) as [E1|L1|G1];
    [exists TiB|
     destruct (Z.compare_spec s GiB) as [E2|L2|G2];
     [exists GiB|
      destruct (Z.compare_spec s MiB) as [E3|L3|G3];
      [exists MiB|
       destruct (Z.compare_spec s KiB) as [E4|L4|G4];
       [exists KiB|exists 1|exists KiB]
      |exists MiB]
     |exists GiB]
    |exists TiB];
    unfold TiB, GiB, MiB, KiB in *; simpl fst; simpl snd;
    (split; [simpl; auto 10|]);
    repeat split; try (intros; Z.div_mod_to_equations; lia).
Qed.

Lemma X2_OutputSize_witness :
  exists u,
    In (u, snd (SpacechkMain.OutputSize 56908316672))
       ((1, byteName) :: combine sizeArray sizeNames) /\
    fst (SpacechkMain.OutputSize 56908316672) * u <= 56908316672
    < (fst (SpacechkMain.OutputSize 56908316672) + 1) * u /\
    0 <= fst (SpacechkMain.OutputSize 56908316672) < 2 ^ 24 /\
    (u <> TiB -> fst (SpacechkMain.OutputSize 56908316672) < 1024) /\
    (1024 <= 56908316672 -> 1 <= fst (SpacechkMain.OutputSize 56908316672)).
Proof.
  apply (X2_OutputSize_rounds_down 56908316672). lia.
Defined.

Lemma HumanReadable_below_KiB (s : Z) :
  s < 1024 -> HumanReadable s = (byteName, s).
Proof.
  intros H. unfold HumanReadable, sizeArray, sizeNames, HumanReadable_loop.
  unfold Z.geb, TiB, GiB, MiB, KiB.
  repeat match goal with
         | |- context [s ?= ?c] =>
             destruct (Z.compare_spec s c); try lia
         end.
  reflexivity.
Qed.

(** X3. maxspace's [OutputSize] prints what spacechk's prints for sizes
    below 2^63; from 2^63 on, its signed conversion makes it print the
    size minus 2^64, a negative count of bytes. *)
Theorem X3_OutputSize_signed :
  forall s : Z,
    0 <= s < 2 ^ 64 ->
    (s < 2 ^ 63 -> MaxspaceMain.OutputSize s = SpacechkMain.OutputSize s) /\
    (2 ^ 63 <= s -> MaxspaceMain.OutputSize s = (s - 2 ^ 64, byteName)).
Proof.
  intros s Hs. unfold MaxspaceMain.OutputSize, SpacechkMain.OutputSize.
  split; intros H.
  - rewrite signed64_small by lia. reflexivity.
  - unfold signed64. rewrite wrap64_small by lia.
    destruct (Z.ltb_spec s (2 ^ 63)); [lia|].
    rewrite HumanReadable_below_KiB by lia. reflexivity.
Qed.

Lemma X3_OutputSize_witness :
  MaxspaceMain.OutputSize 9223372036854775808
  = (9223372036854775808 - 2 ^ 64, byteName).
Proof.
  assert (H : 0 <= 9223372036854775808 < 2 ^ 64) by lia.
  apply (proj2 (X3_OutputSize_signed 9223372036854775808 H)). lia.
Defined.

(** ** Segment names *)

Module NameFacts.
Import Spacechk.

Lemma slength_append (s t : string) :
  String.length (s ++ t)%string = (String.length s + String.length t)%nat.
Proof. induction s as [|c s IH]; simpl; [reflexivity | rewrite IH; reflexivity]. Qed.

Lemma sappend_assoc (s t u : string) :
  ((s ++ t) ++ u = s ++ (t ++ u))%string.
Proof. induction s as [|c s IH]; simpl; [reflexivity | rewrite IH; reflexivity]. Qed.

Lemma sappend_inj_l (p s t : string) : (p ++ s = p ++ t)%string -> s = t.
Proof.
  induction p as [|c p IH]; simpl; intros H; [exact H|].
  injection H as H. exact (IH H).
Qed.

Lemma hex_value_hex_digit (d : Z) :
  0 <= d < 16 -> hex_value (hex_digit d) = Some d.
Proof.
  intros [H0 H1]. destruct d as [|p|p]; try lia; [reflexivity|].
  do 4 (destruct p as [p|p|]; try lia; try reflexivity).
Qed.

Lemma hex_digits_append (n : nat) :
  forall (v : Z) (acc rest : string),
    (hex_digits n v acc ++ rest)%string = hex_digits n v (acc ++ rest)%string.
Proof.
  induction n as [|n IH]; intros v acc rest; simpl; [reflexivity|].
  destruct (v / 16 =? 0); [reflexivity|].
  rewrite IH. reflexivity.
Qed.

(** Scanning the digits written for [v] yields [v]. *)
Lemma scan_hex_digits (n : nat) :
  forall (v : Z) (acc : string) (seen : bool),
    0 < v < 16 ^ Z.of_nat n ->
    scan_hex_from (hex_digits n v acc) 0 seen = scan_hex_from acc v true.
Proof.
  induction n as [|n IH]; intros v acc seen Hv.
  - simpl in Hv. lia.
  - simpl hex_digits.
    assert (Hd : 0 <= v mod 16 < 16) by (apply Z.mod_pos_bound; lia).
    destruct (Z.eqb_spec (v / 16) 0) as [Hz|Hnz].
    + cbn [scan_hex_from]. rewrite hex_value_hex_digit by exact Hd.
      replace (0 * 16 + v mod 16) with v; [reflexivity|].
      Z.div_mod_to_equations. lia.
    + rewrite IH.
      * cbn [scan_hex_from]. rewrite hex_value_hex_digit by exact Hd.
        replace (v / 16 * 16 + v mod 16) with v; [reflexivity|].
        Z.div_mod_to_equations; lia.
      * rewrite Nat2Z.inj_succ, Z.pow_succ_r in Hv by lia.
        Z.div_mod_to_equations. lia.
Qed.

Lemma scan_hex_zeros (k : nat) (s : string) (seen : bool) :
  exists seen', scan_hex_from (zeros k ++ s)%string 0 seen
                = scan_hex_from s 0 seen'.
Proof.
  revert seen. induction k as [|k IH]; intros seen; simpl.
  - exists seen. reflexivity.
  - change (0 * 16 + (48 - 48)) with 0. apply IH.
Qed.

Lemma scan_digits_hex06 (i : Z) (rest : string) :
  0 <= i < 2 ^ 64 ->
  scan_hex_from (hex06 i ++ rest)%string 0 false = scan_hex_from rest i true.
Proof.
  intros Hi. unfold hex06. rewrite sappend_assoc.
  destruct (scan_hex_zeros
              (6 - String.length (hex_digits 16 i EmptyString))
              (hex_digits 16 i EmptyString ++ rest)%string false)
    as [seen' ->].
  rewrite hex_digits_append. simpl (EmptyString ++ rest)%string.
  destruct (Z.eq_dec i 0) as [->|Hnz].
  - reflexivity.
  - apply scan_hex_digits.
    change (16 ^ Z.of_nat 16) with (2 ^ 64). lia.
Qed.

(** The formatted number is made of digits only, at least six of them,
    so the conversion finds no blank, sign or prefix to skip. *)
Lemma letters_append (s t : string) :
  list_ascii_of_string (s ++ t)
  = list_ascii_of_string s ++ list_ascii_of_string t.
Proof.
  induction s as [|c s IH]; simpl; [reflexivity | rewrite IH; reflexivity].
Qed.

Lemma hex_digits_digits (n : nat) :
  forall (v : Z) (acc : string),
    0 <= v ->
    Forall (fun c => exists d, 0 <= d < 16 /\ c = hex_digit d)
           (list_ascii_of_string acc) ->
    Forall (fun c => exists d, 0 <= d < 16 /\ c = hex_digit d)
           (list_ascii_of_string (hex_digits n v acc)).
Proof.
  induction n as [|n IH]; intros v acc Hv Hacc; simpl; [exact Hacc|].
  assert (Hd : 0 <= v mod 16 < 16) by (apply Z.mod_pos_bound; lia).
  assert (Hnew : Forall (fun c => exists d, 0 <= d < 16 /\ c = hex_digit d)
                        (list_ascii_of_string
                           (String (hex_digit (v mod 16)) acc))).
  { simpl. apply Forall_cons; [|exact Hacc]. exists (v mod 16). auto. }
  destruct (v / 16 =? 0); [exact Hnew|].
  apply IH; [|exact Hnew]. Z.div_mod_to_equations. lia.
Qed.

Lemma zeros_digits (k : nat) :
  Forall (fun c => exists d, 0 <= d < 16 /\ c = hex_digit d)
         (list_ascii_of_string (zeros k)).
Proof.
  induction k as [|k IH]; simpl; [apply Forall_nil|].
  apply Forall_cons; [|exact IH]. exists 0. split; [lia | reflexivity].
Qed.

Lemma length_zeros (k : nat) : String.length (zeros k) = k.
Proof. induction k as [|k IH]; simpl; [reflexivity | rewrite IH; reflexivity]. Qed.

Lemma hex06_shape (i : Z) :
  0 <= i ->
  exists d1 d2 t,
    hex06 i = String (hex_digit d1) (String (hex_digit d2) t) /\
    0 <= d1 < 16 /\ 0 <= d2 < 16.
Proof.
  intros Hi.
  assert (Hall : Forall (fun c => exists d, 0 <= d < 16 /\ c = hex_digit d)
                        (list_ascii_of_string (hex06 i))).
  { unfold hex06. rewrite letters_append. apply Forall_app. split.
    - apply zeros_digits.
    - apply hex_digits_digits; [exact Hi | apply Forall_nil]. }
  assert (Hlen : (2 <= String.length (hex06 i))%nat).
  { unfold hex06. rewrite slength_append, length_zeros. lia. }
  destruct (hex06 i) as [|c1 [|c2 t]]; simpl in Hlen; try lia.
  simpl in Hall. inversion Hall as [|? ? (d1 & Hd1 & ->) Hrest]; subst.
  inversion Hrest as [|? ? (d2 & Hd2 & ->) _]; subst.
  exists d1, d2, t. auto.
Qed.

Lemma hex_digit_plain (d : Z) :
  0 <= d < 16 ->
  is_space (hex_digit d) = false /\
  Ascii.eqb (hex_digit d) "-"%char = false /\
  Ascii.eqb (hex_digit d) "+"%char = false /\
  Ascii.eqb (hex_digit d) "x"%char = false /\
  Ascii.eqb (hex_digit d) "X"%char = false.
Proof.
  intros [H0 H1]. destruct d as [|p|p]; try lia; [repeat split|].
  do 4 (destruct p as [p|p|]; try lia; try (repeat split; reflexivity)).
Qed.

(** On a text that starts with two digits the conversion is the value of
    the run of digits, cut to 64 bits. *)
Lemma scan_hex_two_digits (d1 d2 : Z) (t : string) :
  0 <= d1 < 16 -> 0 <= d2 < 16 ->
  scan_hex (String (hex_digit d1) (String (hex_digit d2) t))
  = match scan_hex_from (String (hex_digit d1) (String (hex_digit d2) t))
                        0 false with
    | None => None
    | Some v => if 2 ^ 64 <=? v then Some (2 ^ 64 - 1) else Some v
    end.
Proof.
  intros H1 H2.
  destruct (hex_digit_plain d1 H1) as (S1 & M1 & P1 & _ & _).
  destruct (hex_digit_plain d2 H2) as (_ & _ & _ & X2 & X2').
  unfold scan_hex. cbn [skip_space]. rewrite S1.
  cbn [scan_sign]. rewrite M1, P1.
  cbn [scan_prefix]. rewrite X2, X2'. simpl orb. rewrite Bool.andb_false_r.
  reflexivity.
Qed.

Lemma scan_hex_name (i : Z) (rest : string) :
  0 <= i < 2 ^ 64 ->
  match rest with
  | EmptyString => True
  | String c _ => hex_value c = None
  end ->
  scan_hex (hex06 i ++ rest)%string = Some i.
Proof.
  intros Hi Hrest.
  pose proof (scan_digits_hex06 i rest Hi) as Hdigits.
  destruct (hex06_shape i (proj1 Hi)) as (d1 & d2 & t & Hshape & H1 & H2).
  rewrite Hshape in *. cbn [append] in *.
  rewrite scan_hex_two_digits by assumption.
  rewrite Hdigits.
  assert (Hval : scan_hex_from rest i true = Some i).
  { destruct rest as [|c rest]; simpl; [reflexivity|].
    rewrite Hrest. reflexivity. }
  rewrite Hval. destruct (Z.leb_spec (2 ^ 64) i); [lia | reflexivity].
Qed.

(** A plainly written number is read as it stands. *)
Lemma hex_value_range (c : ascii) (d : Z) :
  hex_value c = Some d -> 0 <= d < 16.
Proof.
  unfold hex_value.
  destruct (Z.leb_spec 48 (Z.of_N (N_of_ascii c)));
    destruct (Z.leb_spec (Z.of_N (N_of_ascii c)) 57); simpl;
    try (intros [= <-]; lia);
    destruct (Z.leb_spec 97 (Z.of_N (N_of_ascii c)));
    destruct (Z.leb_spec (Z.of_N (N_of_ascii c)) 102); simpl;
    try (intros [= <-]; lia);
    destruct (Z.leb_spec 65 (Z.of_N (N_of_ascii c)));
    destruct (Z.leb_spec (Z.of_N (N_of_ascii c)) 70); simpl;
    try (intros [= <-]; lia); discriminate.
Qed.

Lemma hex_value_plain (c : ascii) (d : Z) :
  hex_value c = Some d ->
  is_space c = false /\
  Ascii.eqb c "-"%char = false /\ Ascii.eqb c "+"%char = false.
Proof.
  intros H. split; [|split].
  - revert H. unfold hex_value, is_space.
    destruct (Z.leb_spec 9 (Z.of_N (N_of_ascii c)));
      destruct (Z.leb_spec (Z.of_N (N_of_ascii c)) 13);
      destruct (Z.eqb_spec (Z.of_N (N_of_ascii c)) 32);
      destruct (Z.leb_spec 48 (Z.of_N (N_of_ascii c)));
      destruct (Z.leb_spec (Z.of_N (N_of_ascii c)) 57);
      destruct (Z.leb_spec 97 (Z.of_N (N_of_ascii c)));
      destruct (Z.leb_spec (Z.of_N (N_of_ascii c)) 102);
      destruct (Z.leb_spec 65 (Z.of_N (N_of_ascii c)));
      destruct (Z.leb_spec (Z.of_N (N_of_ascii c)) 70); simpl;
      intros E; try reflexivity; try discriminate E; lia.
  - destruct (Ascii.eqb_spec c "-"%char) as [->|]; [discriminate H|reflexivity].
  - destruct (Ascii.eqb_spec c "+"%char) as [->|]; [discriminate H|reflexivity].
Qed.

Lemma scan_run (s : string) :
  forall (acc : Z) (seen : bool),
    0 <= acc ->
    (digits_run s = 0%nat ->
     scan_hex_from s acc seen = if seen then Some acc else None) /\
    (digits_run s <> 0%nat ->
     exists v,
       scan_hex_from s acc seen = Some v /\
       acc * 16 ^ Z.of_nat (digits_run s) <= v
       < (acc + 1) * 16 ^ Z.of_nat (digits_run s)).
Proof.
  induction s as [|c s IH]; intros acc seen Hacc; simpl.
  - split; [reflexivity | contradiction].
  - destruct (hex_value c) as [d|] eqn:Hc.
    2:{ split; [reflexivity | contradiction]. }
    pose proof (hex_value_range _ _ Hc) as Hd.
    split; [discriminate|]. intros _.
    destruct (IH (acc * 16 + d) true ltac:(lia)) as (Hzero & Hmore).
    rewrite Nat2Z.inj_succ, Z.pow_succ_r by lia.
    destruct (Nat.eq_dec (digits_run s) 0) as [E|E].
    + rewrite (Hzero E), E. exists (acc * 16 + d).
      split; [reflexivity|]. simpl. lia.
    + destruct (Hmore E) as (v & Hv & Hrange). exists v.
      split; [exact Hv|].
      assert (Hp : 0 < 16 ^ Z.of_nat (digits_run s))
        by (apply Z.pow_pos_nonneg; lia).
      nia.
Qed.

Lemma plain_scan (s : string) :
  plain s = true -> exists v, scan_hex s = Some v /\ 0 <= v < 2 ^ 64.
Proof.
  unfold plain. intros H.
  apply andb_prop in H. destruct H as [H Hend].
  apply andb_prop in H. destruct H as [Hlo Hhi].
  apply Nat.leb_le in Hlo. apply Nat.leb_le in Hhi.
  destruct (proj2 (scan_run s 0 false (Z.le_refl 0)) ltac:(lia))
    as (v & Hv & Hrange).
  assert (Hv64 : 0 <= v < 2 ^ 64).
  { assert (16 ^ Z.of_nat (digits_run s) <= 16 ^ 16)
      by (apply Z.pow_le_mono_r; lia).
    change (16 ^ 16) with (2 ^ 64) in *. lia. }
  exists v. split; [|exact Hv64].
  destruct s as [|c1 s1]; [simpl in Hlo; lia|].
  simpl in Hlo. destruct (hex_value c1) as [d1|] eqn:H1; [|lia].
  destruct (hex_value_plain _ _ H1) as (S1 & M1 & P1).
  unfold scan_hex. cbn [skip_space]. rewrite S1.
  cbn [scan_sign]. rewrite M1, P1.
  assert (Hpre : scan_prefix (String c1 s1) = String c1 s1).
  { destruct s1 as [|c2 s2]; [reflexivity|]. cbn [scan_prefix].
    destruct (Ascii.eqb_spec c1 "0"%char) as [->|]; [|reflexivity].
    destruct (Ascii.eqb c2 "x"%char || Ascii.eqb c2 "X"%char) eqn:Hx;
      [|reflexivity].
    exfalso. revert Hend. cbn [digits_run]. rewrite H1.
    assert (Hc2 : hex_value c2 = None).
    { apply Bool.orb_true_iff in Hx.
      destruct Hx as [Hx|Hx]; apply Ascii.eqb_eq in Hx; subst c2; reflexivity. }
    rewrite Hc2. cbn [get]. simpl Nat.eqb. cbv iota. rewrite Hx.
    discriminate. }
  rewrite Hpre, Hv.
  destruct (Z.leb_spec (2 ^ 64) v); [lia | reflexivity].
Qed.

(** X4. The sequence number written into a segment name by [%06llx] is
    read back by [%llx]: for every 64-bit number, scanning its formatted
    digits followed by anything that does not start with a hexadecimal
    digit, such as the extension, gives the number. *)
Theorem X4_sequence_number_round_trip :
  forall (i : Z) (rest : string),
    0 <= i < 2 ^ 64 ->
    match rest with
    | EmptyString => True
    | String c _ => hex_value c = None
    end ->
    scan_hex (hex06 i ++ rest)%string = Some i.
Proof.
  intros i rest Hi Hrest. apply scan_hex_name; assumption.
Qed.

Lemma X4_round_trip_witness :
  scan_hex (hex06 23275 ++ ".bin")%string = Some 23275.
Proof.
  apply X4_sequence_number_round_trip; [lia | reflexivity].
Defined.

Lemma segment_name_differs (pathName : string) (i j : Z) :
  0 <= i < 2 ^ 64 -> 0 <= j < 2 ^ 64 -> i <> j ->
  segment_name pathName i <> segment_name pathName j.
Proof.
  intros Hi Hj Hne H. apply Hne. unfold segment_name in H.
  apply sappend_inj_l in H. apply sappend_inj_l in H.
  assert (E : scan_hex (hex06 i ++ ".bin")%string
              = scan_hex (hex06 j ++ ".bin")%string) by (rewrite H; reflexivity).
  rewrite !scan_hex_name in E by (assumption || reflexivity).
  injection E as E. exact E.
Qed.

(** X5. Distinct sequence numbers give distinct segment names: the name
    determines its 64-bit number. *)
Theorem X5_segment_name_injective :
  forall (pathName : string) (i j : Z),
    0 <= i < 2 ^ 64 -> 0 <= j < 2 ^ 64 -> i <> j ->
    segment_name pathName i <> segment_name pathName j.
Proof.
  intros pathName i j. apply segment_name_differs.
Qed.

Lemma X5_injective_witness :
  segment_name "E:\" 16777215 <> segment_name "E:\" 16777216.
Proof.
  apply X5_segment_name_injective; lia.
Defined.

Lemma hex_digits_grows (n : nat) :
  forall (v : Z) (acc : string),
    (String.length acc <= String.length (hex_digits n v acc))%nat.
Proof.
  induction n as [|n IH]; intros v acc; simpl; [lia|].
  destruct (v / 16 =? 0); simpl; [lia|].
  specialize (IH (v / 16) (String (hex_digit (v mod 16)) acc)).
  simpl in IH. lia.
Qed.

Lemma hex_digits_at_most (n : nat) :
  forall (k : nat) (v : Z) (acc : string),
    (1 <= k <= n)%nat -> 0 <= v < 16 ^ Z.of_nat k ->
    (String.length (hex_digits n v acc) <= k + String.length acc)%nat.
Proof.
  induction n as [|n IH]; intros k v acc Hk Hv; [lia|].
  simpl hex_digits. destruct (Z.eqb_spec (v / 16) 0) as [Hz|Hnz].
  - simpl. lia.
  - destruct k as [|k]; [lia|].
    rewrite Nat2Z.inj_succ, Z.pow_succ_r in Hv by lia.
    assert (Hk' : (1 <= k)%nat).
    { destruct k; [|lia]. simpl in Hv. Z.div_mod_to_equations. lia. }
    specialize (IH k (v / 16) (String (hex_digit (v mod 16)) acc)).
    simpl String.length in IH.
    assert (0 <= v / 16 < 16 ^ Z.of_nat k)
      by (Z.div_mod_to_equations; lia).
    lia.
Qed.

Lemma hex_digits_at_least (n : nat) :
  forall (k : nat) (v : Z) (acc : string),
    (k < n)%nat -> 16 ^ Z.of_nat k <= v ->
    (k + 1 + String.length acc <= String.length (hex_digits n v acc))%nat.
Proof.
  induction n as [|n IH]; intros k v acc Hk Hv; [lia|].
  simpl hex_digits. destruct k as [|k].
  - destruct (v / 16 =? 0); simpl; [lia|].
    pose proof (hex_digits_grows n (v / 16)
                                 (String (hex_digit (v mod 16)) acc)) as G.
    simpl in G. lia.
  - rewrite Nat2Z.inj_succ, Z.pow_succ_r in Hv by lia.
    assert (Hp : 0 < 16 ^ Z.of_nat k) by (apply Z.pow_pos_nonneg; lia).
    destruct (Z.eqb_spec (v / 16) 0) as [Hz|Hnz];
      [Z.div_mod_to_equations; lia|].
    specialize (IH k (v / 16) (String (hex_digit (v mod 16)) acc)).
    simpl String.length in IH.
    assert (16 ^ Z.of_nat k <= v / 16) by (Z.div_mod_to_equations; nia).
    lia.
Qed.

(** X6. Segment names have a fixed width for the first 2^24 segments:
    the number takes exactly six digits, so the name is the path plus
    twelve characters (an 8.3 name); from 2^24 on the number takes seven
    to sixteen digits. With the paths [main] lets through (fewer than 16
    characters) every name fits the MAX_PATH buffers. *)
Theorem X6_segment_name_length :
  forall (pathName : string) (i : Z),
    0 <= i < 2 ^ 64 ->
    (i < 2 ^ 24 ->
     String.length (segment_name pathName i)
     = (String.length pathName + 12)%nat) /\
    (2 ^ 24 <= i ->
     (String.length pathName + 13 <= String.length (segment_name pathName i)
      <= String.length pathName + 22)%nat) /\
    ((String.length pathName < 16)%nat ->
     (String.length (segment_name pathName i) < 260)%nat).
Proof.
  intros pathName i Hi.
  assert (Hlen : String.length (segment_name pathName i)
                 = (String.length pathName + 2 + String.length (hex06 i) + 4)%nat).
  { unfold segment_name, filePrefix. rewrite !slength_append. simpl. lia. }
  assert (Hmax : (String.length (hex_digits 16 i EmptyString) <= 16)%nat).
  { pose proof (hex_digits_at_most 16 16 i EmptyString) as H.
    simpl String.length in H. rewrite Nat.add_0_r in H. apply H; [lia|].
    change (16 ^ Z.of_nat 16) with (2 ^ 64). lia. }
  assert (Hh : String.length (hex06 i)
               = ((6 - String.length (hex_digits 16 i EmptyString))
                  + String.length (hex_digits 16 i EmptyString))%nat).
  { unfold hex06. rewrite slength_append, length_zeros. reflexivity. }
  split; [|split].
  - intros Hsmall.
    pose proof (hex_digits_at_most 16 6 i EmptyString) as H6.
    simpl String.length in H6.
    assert ((String.length (hex_digits 16 i EmptyString) <= 6 + 0)%nat).
    { apply H6; [lia|]. change (16 ^ Z.of_nat 6) with (2 ^ 24). lia. }
    lia.
  - intros Hlarge.
    pose proof (hex_digits_at_least 16 6 i EmptyString) as H7.
    simpl String.length in H7.
    assert ((6 + 1 + 0 <= String.length (hex_digits 16 i EmptyString))%nat).
    { apply H7; [lia|]. change (16 ^ Z.of_nat 6) with (2 ^ 24). lia. }
    lia.
  - intros Hp. lia.
Qed.

Lemma X6_name_length_witness :
  String.length (segment_name "E:\" 23275) = (String.length "E:\" + 12)%nat /\
  (String.length (segment_name "E:\" 23275) < 260)%nat.
Proof.
  assert (Hi : 0 <= 23275 < 2 ^ 64) by lia.
  destruct (X6_segment_name_length "E:\" 23275 Hi) as (Hs & _ & Hp).
  split; [apply Hs; lia | apply Hp; simpl; lia].
Defined.

Lemma zeros_shift (k : nat) (s : string) :
  (zeros k ++ String "0"%char s = String "0"%char (zeros k ++ s))%string.
Proof. induction k as [|k IH]; simpl; [reflexivity | rewrite IH; reflexivity]. Qed.

Lemma fixed_digits_zero (k : nat) :
  forall s : string, fixed_digits k 0 s = (zeros k ++ s)%string.
Proof.
  induction k as [|k IH]; intros s; simpl; [reflexivity|].
  change (0 / 16) with 0. change (hex_digit (0 mod 16)) with "0"%char.
  rewrite IH, zeros_shift. reflexivity.
Qed.

Lemma fixed_digits_append (n : nat) :
  forall (v : Z) (acc rest : string),
    (fixed_digits n v acc ++ rest)%string = fixed_digits n v (acc ++ rest)%string.
Proof.
  induction n as [|n IH]; intros v acc rest; simpl; [reflexivity|].
  rewrite IH. reflexivity.
Qed.

(** Zero padding turns the digits of a number that fits into the fixed
    width. *)
Lemma pad_fixed (m : nat) :
  forall (n : nat) (v : Z) (acc : string),
    (1 <= n <= m)%nat -> 0 <= v < 16 ^ Z.of_nat n ->
    (zeros (n - (String.length (hex_digits m v acc) - String.length acc))
     ++ hex_digits m v acc)%string
    = fixed_digits n v acc.
Proof.
  induction m as [|m IH]; intros n v acc Hn Hv; [lia|].
  destruct n as [|n]; [lia|].
  simpl hex_digits. simpl fixed_digits.
  rewrite Nat2Z.inj_succ, Z.pow_succ_r in Hv by lia.
  destruct (Z.eqb_spec (v / 16) 0) as [Hz|Hnz].
  - rewrite Hz, fixed_digits_zero. simpl String.length.
    replace (S n - (S (String.length acc) - String.length acc))%nat
      with n by lia.
    reflexivity.
  - assert (Hn' : (1 <= n)%nat).
    { destruct n; [|lia]. simpl in Hv. Z.div_mod_to_equations. lia. }
    pose proof (hex_digits_grows m (v / 16)
                                 (String (hex_digit (v mod 16)) acc)) as G.
    simpl String.length in G.
    rewrite <- (IH n (v / 16) (String (hex_digit (v mod 16)) acc))
      by (try lia; Z.div_mod_to_equations; lia).
    simpl String.length. f_equal. f_equal. lia.
Qed.

Lemma hex06_fixed (i : Z) :
  0 <= i < 2 ^ 24 -> hex06 i = fixed_digits 6 i EmptyString.
Proof.
  intros Hi. unfold hex06.
  rewrite <- (pad_fixed 16 6 i EmptyString) by (try lia; exact Hi).
  simpl String.length. rewrite Nat.sub_0_r. reflexivity.
Qed.

Lemma ascii_compare_refl (c : ascii) : Ascii.compare c c = Eq.
Proof. unfold Ascii.compare. apply N.compare_refl. Qed.

Lemma hex_digit_code (d : Z) :
  0 <= d < 16 ->
  N_of_ascii (hex_digit d) = Z.to_N (if d <? 10 then 48 + d else 87 + d).
Proof.
  intros Hd. unfold hex_digit. apply N_ascii_embedding.
  destruct (Z.ltb_spec d 10); lia.
Qed.

Lemma hex_digit_lt (a b : Z) :
  0 <= a -> a < b -> b < 16 ->
  Ascii.compare (hex_digit a) (hex_digit b) = Lt.
Proof.
  intros Ha Hab Hb. unfold Ascii.compare.
  rewrite !hex_digit_code by lia. apply N.compare_lt_iff.
  destruct (Z.ltb_spec a 10); destruct (Z.ltb_spec b 10); lia.
Qed.

Lemma compare_fixed_digits (n : nat) :
  forall (i j : Z) (acc1 acc2 : string),
    0 <= i < 16 ^ Z.of_nat n -> 0 <= j < 16 ^ Z.of_nat n ->
    i < j \/ (i = j /\ String.compare acc1 acc2 = Lt) ->
    String.compare (fixed_digits n i acc1) (fixed_digits n j acc2) = Lt.
Proof.
  induction n as [|n IH]; intros i j acc1 acc2 Hi Hj H.
  - simpl in *. destruct H as [H|[_ H]]; [lia | exact H].
  - simpl fixed_digits.
    rewrite Nat2Z.inj_succ, Z.pow_succ_r in Hi, Hj by lia.
    apply IH; try (Z.div_mod_to_equations; lia).
    destruct (Z.lt_trichotomy (i / 16) (j / 16)) as [Hlt|[Heq|Hgt]].
    + left. exact Hlt.
    + right. split; [exact Heq|]. simpl.
      destruct H as [H|[-> H]].
      * rewrite hex_digit_lt; [reflexivity| |  |];
          Z.div_mod_to_equations; lia.
      * rewrite ascii_compare_refl. exact H.
    + exfalso. destruct H as [H|[H _]]; Z.div_mod_to_equations; lia.
Qed.

Lemma compare_common_prefix (p s t : string) :
  String.compare (p ++ s) (p ++ t) = String.compare s t.
Proof.
  induction p as [|c p IH]; simpl; [reflexivity|].
  rewrite ascii_compare_refl. exact IH.
Qed.

(** X7. Segment names sort in sequence order: among the first 2^24
    segments of a path, the name of a lower sequence number is
    lexicographically smaller. *)
Theorem X7_segment_names_sorted :
  forall (pathName : string) (i j : Z),
    0 <= i -> i < j -> j < 2 ^ 24 ->
    String.compare (segment_name pathName i) (segment_name pathName j) = Lt.
Proof.
  intros pathName i j Hi Hij Hj. unfold segment_name.
  rewrite !compare_common_prefix.
  rewrite !hex06_fixed by lia. rewrite !fixed_digits_append.
  apply compare_fixed_digits; try (change (16 ^ Z.of_nat 6) with (2 ^ 24); lia).
  all: left; exact Hij.
Qed.

Lemma X7_sorted_witness :
  String.compare (segment_name "E:\" 9) (segment_name "E:\" 10) = Lt.
Proof.
  apply X7_segment_names_sorted; lia.
Defined.

End NameFacts.

(** ** Traces of the segmented prober, for every device *)

Module SegmentTraceFacts.
Import Spacechk SpacechkMain.

Lemma reached_app (ev ev' : list event) :
  reached (ev ++ ev') = reached ev ++ reached ev'.
Proof.
  induction ev as [|e ev IH]; simpl; [reflexivity|].
  destruct e; simpl; rewrite ?IH; try reflexivity.
  destruct (String.eqb label "Reached"); simpl; rewrite ?IH; reflexivity.
Qed.

Lemma opened_app (ev ev' : list event) :
  opened (ev ++ ev') = opened ev ++ opened ev'.
Proof.
  induction ev as [|e ev IH]; simpl; [reflexivity|].
  destruct e; simpl; rewrite ?IH; reflexivity.
Qed.

Lemma written_app (ev ev' : list event) :
  written (ev ++ ev') = written ev ++ written ev'.
Proof.
  induction ev as [|e ev IH]; simpl; [reflexivity|].
  destruct e; simpl; rewrite ?IH; reflexivity.
Qed.

Lemma errors_app (ev ev' : list event) :
  errors (ev ++ ev') = errors ev ++ errors ev'.
Proof.
  induction ev as [|e ev IH]; simpl; [reflexivity|].
  destruct e; simpl; rewrite ?IH; reflexivity.
Qed.

Lemma produced_app (ev ev' : list event) :
  created (ev ++ ev') = created ev ++ created ev'.
Proof.
  induction ev as [|e ev IH]; simpl; [reflexivity|].
  destruct e; simpl; rewrite ?IH; reflexivity.
Qed.

Lemma names_from_succ (pathName : string) (i : Z) (m : nat) :
  names_from pathName i (S m)
  = segment_name pathName i :: names_from pathName (i + 1) m.
Proof.
  unfold names_from. simpl seq. simpl map. f_equal.
  - f_equal. lia.
  - rewrite <- seq_shift, map_map. apply map_ext. intros k.
    f_equal. rewrite Nat2Z.inj_succ. lia.
Qed.

Ltac no_report :=
  simpl;
  split; [first [discriminate | intros _; split; reflexivity]
         | intros ? []].

Section Creation.
Context {W : Type} {api : Win32 W}.

Lemma create_loop_trace (n : nat) :
  forall (pathName : string) (i : Z) (buf : buffer) (w : W) r w' ev,
    create_loop n pathName i buf w = (r, w', ev) ->
    (r = true -> reached ev = [] /\ errors ev = []) /\
    (forall z, In z (reached ev) ->
       r = false /\
       exists k, (k < n)%nat /\
         created ev = names_from pathName i (S k) /\
         written ev = created ev /\
         reached ev = [wrap64 ((i + Z.of_nat k) * fileIOSize)]).
Proof.
  induction n as [|n IH]; intros pathName i buf w r w' ev; simpl.
  - intros [= <- <- <-]. no_report.
  - destruct (CreateAlways w (segment_name pathName i)) as [ok w1].
    destruct ok; simpl negb; cbv iota.
    2:{ intros [= <- <- <-]. no_report. }
    destruct (WriteFile w1 _ _ fileIOSize) as [[n0|] w2].
    2:{ intros [= <- <- <-]. simpl.
        split; [discriminate|].
        intros z _. split; [reflexivity|]. exists 0%nat.
        split; [lia|]. split; [|split; [reflexivity|]].
        - unfold names_from. simpl. rewrite Z.add_0_r. reflexivity.
        - simpl Z.of_nat. rewrite Z.add_0_r. reflexivity. }
    destruct (n0 =? fileIOSize); simpl negb; cbv iota.
    2:{ intros [= <- <- <-]. no_report. }
    destruct (create_loop n pathName (i + 1) _ _) as [[r0 w3] ev0] eqn:Hrec.
    intros [= <- <- <-].
    destruct (IH _ _ _ _ _ _ _ Hrec) as (Ht & Hz).
    simpl. split; [exact Ht|].
    intros z Hin. destruct (Hz z Hin) as (Hr & k & Hk & Hc & Hw & Hre).
    split; [exact Hr|]. exists (S k).
    split; [lia|]. split; [|split].
    + rewrite names_from_succ, Hc. reflexivity.
    + rewrite Hw. reflexivity.
    + replace (i + Z.of_nat (S k)) with (i + 1 + Z.of_nat k) by lia.
      exact Hre.
Qed.

(** X8. What [CreateFiles] prints, on any device: a run that succeeds
    prints no error and no size reached; and when a size reached is
    printed the run has failed, exactly one size was printed, it is the
    starting offset of the last file the run created and wrote to, and
    that offset lies at least one segment below the space it was
    given. *)
Theorem X8_CreateFiles_reports :
  forall (junk : Z) (pathName : string) (sectorSize totalSpace : Z) (w : W)
         r w' ev,
    0 <= totalSpace < 2 ^ 64 ->
    CreateFiles junk pathName sectorSize totalSpace w = (r, w', ev) ->
    (r = true -> reached ev = [] /\ errors ev = []) /\
    (forall z, In z (reached ev) ->
       r = false /\
       exists k,
         created ev = names_from pathName 0 (S k) /\
         written ev = created ev /\
         reached ev = [Z.of_nat k * fileIOSize] /\
         z = Z.of_nat k * fileIOSize /\
         Z.of_nat k * fileIOSize + fileIOSize <= totalSpace).
Proof.
  intros junk pathName sectorSize totalSpace w r w' ev Hspace.
  unfold CreateFiles.
  destruct (aligned_malloc w fileIOSize); simpl negb; cbv iota.
  2:{ intros [= <- <- <-]. simpl. split; [discriminate | intros ? []]. }
  destruct (create_loop _ pathName 0 _ w) as [[r0 w0] ev0] eqn:Hloop.
  intros [= <- <- <-].
  destruct (create_loop_trace _ _ _ _ _ _ _ _ Hloop) as (Ht & Hz).
  assert (Hre : reached
                  (EvOutputSize " with size " fileIOSize
                     :: EvFind (search_path pathName)
                     :: ev0 ++ (if r0 then [EvOutputSize "taking"
                                  (wrap64 (totalSpace / fileIOSize * fileIOSize))]
                                else []))
                = reached ev0).
  { simpl. rewrite reached_app. destruct r0; simpl; apply app_nil_r. }
  split.
  - intros ->. destruct (Ht eq_refl) as (Hr & He). split.
    + rewrite Hre. exact Hr.
    + simpl. rewrite errors_app, He. reflexivity.
  - intros z Hin. rewrite Hre in Hin.
    destruct (Hz z Hin) as (Hr & k & Hk & Hc & Hw & Hrz).
    split; [exact Hr|]. subst r0. exists k.
    assert (Hq : 0 <= totalSpace / fileIOSize)
      by (apply Z.div_pos; unfold fileIOSize, MiB, KiB; lia).
    assert (Hk' : Z.of_nat k < totalSpace / fileIOSize) by lia.
    assert (Hb : Z.of_nat k * fileIOSize + fileIOSize <= totalSpace).
    { unfold fileIOSize, MiB, KiB in *. Z.div_mod_to_equations. lia. }
    assert (Hwrap : wrap64 ((0 + Z.of_nat k) * fileIOSize)
                    = Z.of_nat k * fileIOSize).
    { rewrite Z.add_0_l. apply wrap64_small.
      unfold fileIOSize, MiB, KiB in *. lia. }
    rewrite Hwrap in Hrz.
    split; [|split; [|split; [|split]]].
    + simpl. rewrite produced_app, app_nil_r. exact Hc.
    + simpl. rewrite written_app, produced_app, !app_nil_r. exact Hw.
    + rewrite Hre. exact Hrz.
    + rewrite Hrz in Hin. destruct Hin as [<-|[]]. reflexivity.
    + exact Hb.
Qed.

End Creation.

Lemma X8_reports_witness :
  exists k,
    created (snd (CreateFiles 0 "E:\" 512 52428800 no_write_volume))
    = names_from "E:\" 0 (S k) /\
    reached (snd (CreateFiles 0 "E:\" 512 52428800 no_write_volume))
    = [Z.of_nat k * fileIOSize] /\
    20971520 = Z.of_nat k * fileIOSize.
Proof.
  pose (X := CreateFiles 0 "E:\" 512 52428800 no_write_volume).
  assert (HX : X = (fst (fst X), snd (fst X), snd X))
    by (destruct X as [[? ?] ?]; reflexivity).
  assert (Hs : 0 <= 52428800 < 2 ^ 64) by lia.
  destruct (X8_CreateFiles_reports 0 "E:\" 512 52428800 no_write_volume
              _ _ _ Hs HX) as (_ & Hz).
  assert (Hin : In 20971520 (reached (snd X)))
    by (vm_compute; left; reflexivity).
  destruct (Hz _ Hin) as (_ & k & Hc & _ & Hr & Hk & _).
  exists k. repeat split; assumption.
Defined.

Section Verification.
Context {W : Type} {api : Win32 W}.
Variable junk : Z.

Lemma files_of_app (pathName : string) (l l' : list find_data) :
  files_of pathName (l ++ l') = files_of pathName l ++ files_of pathName l'.
Proof.
  induction l as [|fd l IH]; simpl; [reflexivity|].
  destruct (isDirectory fd); simpl; rewrite IH; reflexivity.
Qed.

(** The comparison of one file prints the same size for every slot that
    differs; with keep-verifying it never ends the run, without it the
    first difference does. *)
Lemma compare_slots_trace (keepGoing : bool) (b : buffer) (seqNum : Z)
      (n : nat) :
  forall (o : Z) same ev,
    compare_slots keepGoing b seqNum o n = (same, ev) ->
    exists m, (m <= n)%nat /\
      ev = repeat (EvOutputSize "Reached"
                     (wrap64 (wrap64 (seqNum + 1) * fileIOSize))) m /\
      (keepGoing = true -> same = true) /\
      (keepGoing = false -> m = if same then 0%nat else 1%nat).
Proof.
  induction n as [|n IH]; intros o same ev; simpl.
  - intros [= <- <-]. exists 0%nat. repeat split; auto.
  - destruct (load64 b (o * (fileIOSize / 4)) =? wrap64 (seqNum + 1)).
    + intros H. destruct (IH _ _ _ H) as (m & Hm & He & Hk & Hs).
      exists m. repeat split; auto.
    + destruct keepGoing.
      * destruct (compare_slots true b seqNum (o + 1) n) as [r ev0] eqn:Hrec.
        intros [= <- <-].
        destruct (IH _ _ _ Hrec) as (m & Hm & He & Hk & Hs).
        exists (S m). split; [lia|]. split; [simpl; rewrite He; reflexivity|].
        split; [exact Hk | discriminate].
      * intros [= <- <-]. exists 1%nat. split; [lia|].
        split; [reflexivity|]. split; [discriminate | reflexivity].
Qed.

Lemma reached_repeat (z : Z) (m : nat) :
  reached (repeat (EvOutputSize "Reached" z) m) = repeat z m.
Proof. induction m as [|m IH]; simpl; [reflexivity | rewrite IH; reflexivity]. Qed.

Lemma quiet_repeat (z : Z) (m : nat) :
  created (repeat (EvOutputSize "Reached" z) m) = [] /\
  written (repeat (EvOutputSize "Reached" z) m) = [] /\
  opened (repeat (EvOutputSize "Reached" z) m) = [] /\
  errors (repeat (EvOutputSize "Reached" z) m) = [].
Proof. induction m as [|m IH]; simpl; [auto | exact IH]. Qed.

Lemma verify_loop_trace (keepGoing : bool) (pathName : string) :
  forall (entries : list find_data) (count : Z) (buf : buffer) (w : W)
         r w' ev,
    verify_loop junk keepGoing pathName entries count buf w = (r, w', ev) ->
    created ev = [] /\ written ev = [] /\
    (exists rest, files_of pathName entries = opened ev ++ rest) /\
    (r = true -> opened ev = files_of pathName entries /\ errors ev = []) /\
    (keepGoing = false ->
     (r = true -> reached ev = []) /\ (List.length (reached ev) <= 1)%nat) /\
    (keepGoing = true -> r = false -> exists msg, errors ev = [msg]) /\
    (forall z, In z (reached ev) ->
       exists name seqPtr,
         In name (opened ev) /\
         wcschr name "-"%char = Some seqPtr /\
         z = wrap64 (wrap64 (seq_after junk seqPtr + 1) * fileIOSize)).
Proof.
  induction entries as [|fd entries IH]; intros count buf w r w' ev;
    cbn [verify_loop files_of].
  - intros [= <- <- <-]. simpl.
    split; [reflexivity|]. split; [reflexivity|].
    split; [exists []; reflexivity|].
    split; [auto|]. split; [intros _; split; [reflexivity | simpl; lia]|].
    split; [discriminate | intros z []].
  - destruct (isDirectory fd); [apply IH|].
    destruct (OpenExisting w _) as [ok w1].
    destruct ok; simpl negb; cbv iota.
    2:{ intros [= <- <- <-]. simpl.
        split; [reflexivity|]. split; [reflexivity|].
        split; [eexists; simpl; reflexivity|].
        split; [discriminate|].
        split; [intros _; split; [discriminate | simpl; lia]|].
        split; [intros _ _; eexists; reflexivity | intros z []]. }
    destruct (ReadFile w1 _ buf fileIOSize) as [[[bytesRead b1]|] w2].
    2:{ intros [= <- <- <-]. simpl.
        split; [reflexivity|]. split; [reflexivity|].
        split; [eexists; simpl; reflexivity|].
        split; [discriminate|].
        split; [intros _; split; [discriminate | simpl; lia]|].
        split; [intros _ _; eexists; reflexivity | intros z []]. }
    destruct (bytesRead =? fileIOSize); simpl negb; cbv iota.
    2:{ intros [= <- <- <-]. simpl.
        split; [reflexivity|]. split; [reflexivity|].
        split; [eexists; simpl; reflexivity|].
        split; [discriminate|].
        split; [intros _; split; [discriminate | simpl; lia]|].
        split; [intros _ _; eexists; reflexivity | intros z []]. }
    destruct (wcschr (pathName ++ cFileName fd) "-"%char) as [seqPtr|] eqn:Hdash.
    2:{ intros [= <- <- <-]. simpl.
        split; [reflexivity|]. split; [reflexivity|].
        split; [eexists; simpl; reflexivity|].
        split; [discriminate|].
        split; [intros _; split; [discriminate | simpl; lia]|].
        split; [intros _ _; eexists; reflexivity | intros z []]. }
    destruct (compare_slots keepGoing b1 (seq_after junk seqPtr) 0 4)
      as [same ev1] eqn:Hcmp.
    destruct (compare_slots_trace _ _ _ _ _ _ _ Hcmp)
      as (m & Hm & -> & Hkeep & Hstop).
    destruct (quiet_repeat
                (wrap64 (wrap64 (seq_after junk seqPtr + 1) * fileIOSize)) m)
      as (Qc & Qw & Qo & Qe).
    destruct same; simpl negb; cbv iota.
    + destruct (verify_loop junk keepGoing pathName entries _ b1 _)
        as [[r0 w4] ev0] eqn:Hrec.
      intros [= <- <- <-].
      destruct (IH _ _ _ _ _ _ Hrec) as (Ic & Iw & [rest Ir] & It & Ik & Ie & Iz).
      simpl. rewrite produced_app, written_app, opened_app, errors_app,
        reached_app, reached_repeat, Qc, Qw, Qo, Qe. simpl.
      split; [exact Ic|]. split; [exact Iw|].
      split; [exists rest; rewrite Ir; reflexivity|].
      split.
      { intros Hr. destruct (It Hr) as [-> ->]. split; reflexivity. }
      split.
      { intros Hk. rewrite (Hstop Hk). simpl.
        destruct (Ik Hk) as [I1 I2]. split; assumption. }
      split; [exact Ie|].
      intros z Hin. apply in_app_or in Hin. destruct Hin as [Hin|Hin].
      * apply repeat_spec in Hin. subst z.
        exists (pathName ++ cFileName fd)%string, seqPtr.
        split; [left; reflexivity|]. split; [exact Hdash | reflexivity].
      * destruct (Iz z Hin) as (name & sp & Hn & Hd & Hz).
        exists name, sp. split; [right; exact Hn|]. split; assumption.
    + intros [= <- <- <-].
      simpl. rewrite Qc, Qw, Qo, Qe, reached_repeat.
      split; [reflexivity|]. split; [reflexivity|].
      split; [eexists; simpl; reflexivity|].
      split; [discriminate|].
      split.
      { intros Hk. rewrite (Hstop Hk). split; [discriminate | simpl; lia]. }
      split.
      { intros Hk. specialize (Hkeep Hk). discriminate. }
      intros z Hin. apply repeat_spec in Hin. subst z.
      exists (pathName ++ cFileName fd)%string, seqPtr.
      split; [left; reflexivity|]. split; [exact Hdash | reflexivity].
Qed.

Lemma VerifyFiles_trace (pathName : string) (sectorSize : Z)
      (keepGoing : bool) (w : W) r w' ev :
  VerifyFiles junk pathName sectorSize keepGoing w = (r, w', ev) ->
  created ev = [] /\ written ev = [] /\
  (exists rest,
      files_of pathName (FindFiles w (search_path pathName))
      = opened ev ++ rest) /\
  (r = true ->
   FindFiles w (search_path pathName) <> [] /\
   opened ev = files_of pathName (FindFiles w (search_path pathName)) /\
   errors ev = []) /\
  (keepGoing = false ->
   (r = true -> reached ev = []) /\ (List.length (reached ev) <= 1)%nat) /\
  (keepGoing = true -> r = false -> exists msg, errors ev = [msg]) /\
  (forall z, In z (reached ev) ->
     exists name seqPtr,
       In name (opened ev) /\
       wcschr name "-"%char = Some seqPtr /\
       z = wrap64 (wrap64 (seq_after junk seqPtr + 1) * fileIOSize)).
Proof.
  unfold VerifyFiles.
  destruct (FindFiles w (search_path pathName)) as [|fd entries] eqn:Hfind.
  { intros [= <- <- <-]. simpl.
    split; [reflexivity|]. split; [reflexivity|].
    split; [exists []; reflexivity|]. split; [discriminate|].
    split; [intros _; split; [discriminate | simpl; lia]|].
    split; [intros _ _; eexists; reflexivity | intros z []]. }
  destruct (aligned_malloc w fileIOSize); simpl negb; cbv iota.
  2:{ intros [= <- <- <-]. simpl.
      split; [reflexivity|]. split; [reflexivity|].
      split; [eexists; reflexivity|]. split; [discriminate|].
      split; [intros _; split; [discriminate | simpl; lia]|].
      split; [intros _ _; eexists; reflexivity | intros z []]. }
  destruct (verify_loop junk keepGoing pathName (fd :: entries) 0 _ w)
    as [[r0 w0] ev0] eqn:Hloop.
  intros [= <- <- <-].
  destruct (verify_loop_trace _ _ _ _ _ _ _ _ _ Hloop)
    as (Hc & Hw & Hp & Ht & Hk & He & Hz).
  simpl created. simpl written. simpl opened. simpl errors. simpl reached.
  split; [exact Hc|]. split; [exact Hw|]. split; [exact Hp|].
  split; [intros Hr; split; [discriminate | exact (Ht Hr)]|].
  split; [exact Hk|]. split; [exact He | exact Hz].
Qed.

End Verification.

(** X9. Verification is read-only and follows the enumeration, on any
    device: [VerifyFiles] never creates or writes a file; the files it
    opens are the enumerated files, directories left out, in enumeration
    order, up to where it stops; and when it reports success it has
    opened every one of them and printed no error. *)
Theorem X9_VerifyFiles_read_only :
  forall (W : Type) (api : Win32 W) (junk : Z) (pathName : string)
         (sectorSize : Z) (keepGoing : bool) (w : W) r w' ev,
    VerifyFiles junk pathName sectorSize keepGoing w = (r, w', ev) ->
    created ev = [] /\ written ev = [] /\
    (exists rest,
        files_of pathName (FindFiles w (search_path pathName))
        = opened ev ++ rest) /\
    (r = true ->
     FindFiles w (search_path pathName) <> [] /\
     opened ev = files_of pathName (FindFiles w (search_path pathName)) /\
     errors ev = []).
Proof.
  intros W api junk pathName sectorSize keepGoing w r w' ev Hrun.
  destruct (VerifyFiles_trace _ _ _ _ _ _ _ _ Hrun)
    as (Hc & Hw & Hp & Ht & _).
  auto.
Qed.

Lemma X9_read_only_witness :
  created (snd (VerifyFiles 0 "E:\" 512 false dashed_volume)) = [] /\
  written (snd (VerifyFiles 0 "E:\" 512 false dashed_volume)) = [] /\
  opened (snd (VerifyFiles 0 "E:\" 512 false dashed_volume))
  = files_of "E:\" (FindFiles dashed_volume (search_path "E:\")).
Proof.
  pose (X := VerifyFiles 0 "E:\" 512 false dashed_volume).
  assert (HX : X = (fst (fst X), snd (fst X), snd X))
    by (destruct X as [[? ?] ?]; reflexivity).
  assert (Hr : fst (fst X) = true) by (vm_compute; reflexivity).
  destruct (X9_VerifyFiles_read_only _ _ 0 "E:\" 512 false dashed_volume
              _ _ _ HX) as (Hc & Hw & _ & Ht).
  destruct (Ht Hr) as (_ & Ho & _).
  repeat split; assumption.
Defined.

Lemma In_files_of (pathName name : string) (entries : list find_data) :
  In name (files_of pathName entries) ->
  exists fd, In fd entries /\ isDirectory fd = false /\
             name = (pathName ++ cFileName fd)%string.
Proof.
  induction entries as [|e entries IH]; simpl; [intros []|].
  destruct (isDirectory e) eqn:Hd.
  - intros H. destruct (IH H) as (fd & Hin & Hdir & Hn). exists fd. auto.
  - intros [<-|H].
    + exists e. auto.
    + destruct (IH H) as (fd & Hin & Hdir & Hn). exists fd. auto.
Qed.

(** With plainly written numbers the conversion always assigns: the
    sequence number does not depend on what [seqNum] held before. *)
Lemma seq_after_plain (junk : Z) (seqPtr : string) :
  plain (next seqPtr) = true ->
  exists n, scan_hex (next seqPtr) = Some n /\ 0 <= n < 2 ^ 64 /\
            seq_after junk seqPtr = n.
Proof.
  intros H. destruct (NameFacts.plain_scan _ H) as (n & Hn & Hr).
  exists n. unfold seq_after. rewrite Hn. auto.
Qed.

(** X10. What [VerifyFiles] reports, on any device whose files carry
    plainly written numbers. Every size printed as reached is (n + 1)
    segment sizes, in 64-bit arithmetic, for the number n written after
    the dash in the path of a file the run opened. Without
    keep-verifying at most one such size is printed and none when the
    run succeeds. With keep-verifying a mismatch never ends the run: a
    failed run printed an error line. *)
Theorem X10_VerifyFiles_reports :
  forall (W : Type) (api : Win32 W) (junk : Z) (pathName : string)
         (sectorSize : Z) (keepGoing : bool) (w : W) r w' ev,
    plain_names pathName (FindFiles w (search_path pathName)) ->
    VerifyFiles junk pathName sectorSize keepGoing w = (r, w', ev) ->
    (forall z, In z (reached ev) ->
       exists name seqPtr n,
         In name (opened ev) /\
         wcschr name "-"%char = Some seqPtr /\
         scan_hex (next seqPtr) = Some n /\ 0 <= n < 2 ^ 64 /\
         z = wrap64 ((n + 1) * fileIOSize)) /\
    (keepGoing = false ->
     (r = true -> reached ev = []) /\ (List.length (reached ev) <= 1)%nat) /\
    (keepGoing = true -> r = false -> exists msg, errors ev = [msg]).
Proof.
  intros W api junk pathName sectorSize keepGoing w r w' ev Hplain Hrun.
  destruct (VerifyFiles_trace _ _ _ _ _ _ _ _ Hrun)
    as (_ & _ & (rest & Hfiles) & _ & Hk & He & Hz).
  split; [|split; assumption].
  intros z Hin. destruct (Hz z Hin) as (name & seqPtr & Hname & Hdash & ->).
  assert (Hof : In name (files_of pathName
                                  (FindFiles w (search_path pathName)))).
  { rewrite Hfiles. apply in_or_app. left. exact Hname. }
  destruct (In_files_of _ _ _ Hof) as (fd & Hfd & Hdir & ->).
  destruct (seq_after_plain junk seqPtr (Hplain fd seqPtr Hfd Hdir Hdash))
    as (n & Hscan & Hn & ->).
  exists (pathName ++ cFileName fd)%string, seqPtr, n.
  split; [exact Hname|]. split; [exact Hdash|]. split; [exact Hscan|].
  split; [exact Hn|]. apply wrap64_mul_l.
Qed.

Lemma X10_reports_witness :
  exists name seqPtr n,
    In name (opened (snd (VerifyFiles 0 "E:\" 512 false blank_volume))) /\
    wcschr name "-"%char = Some seqPtr /\
    scan_hex (next seqPtr) = Some n /\ 0 <= n < 2 ^ 64 /\
    20971520 = wrap64 ((n + 1) * fileIOSize).
Proof.
  pose (X := VerifyFiles 0 "E:\" 512 false blank_volume).
  assert (HX : X = (fst (fst X), snd (fst X), snd X))
    by (destruct X as [[? ?] ?]; reflexivity).
  assert (Hplain : plain_names "E:\" (FindFiles blank_volume
                                                  (search_path "E:\"))).
  { intros fd seqPtr Hin _. vm_compute in Hin.
    destruct Hin as [<-|[<-|[<-|[]]]]; intros [= <-]; reflexivity. }
  destruct (X10_VerifyFiles_reports _ _ 0 "E:\" 512 false blank_volume
              _ _ _ Hplain HX) as (Hz & _ & _).
  apply Hz. vm_compute. left. reflexivity.
Defined.

(** ** C7: what a failed verification prints *)

Section Failures.
Context {W : Type} {api : Win32 W}.
Variable junk : Z.



End Failures.



(** ** The scan for prior files *)

Section PriorFiles.
Context {W : Type} {api : Win32 W}.
Variable junk : Z.

Lemma FindPriorFiles_loop_spec (entries : list find_data) :
  forall maxSeq : Z,
    maxSeq <= FindPriorFiles_loop junk entries maxSeq /\
    (FindPriorFiles_loop junk entries maxSeq = maxSeq \/
     exists fd seqPtr,
       In fd entries /\ isDirectory fd = false /\
       wcschr (cFileName fd) "-"%char = Some seqPtr /\
       FindPriorFiles_loop junk entries maxSeq = seq_after junk seqPtr) /\
    ((forall fd, In fd entries -> isDirectory fd = false ->
                 wcschr (cFileName fd) "-"%char <> None) ->
     forall fd seqPtr,
       In fd entries -> isDirectory fd = false ->
       wcschr (cFileName fd) "-"%char = Some seqPtr ->
       seq_after junk seqPtr <= FindPriorFiles_loop junk entries maxSeq).
Proof.
  induction entries as [|e entries IH]; intros maxSeq; simpl.
  - split; [lia|]. split; [left; reflexivity|]. intros _ fd sp [].
  - destruct (isDirectory e) eqn:Hdir.
    + destruct (IH maxSeq) as (Hle & Hat & Hub).
      split; [exact Hle|]. split.
      * destruct Hat as [Hat|(fd & sp & Hin & Hd & Hw & Hm)];
          [left; exact Hat|].
        right. exists fd, sp. auto.
      * intros Hall fd sp [->|Hin] Hd Hw; [congruence|].
        apply (Hub (fun f Hf => Hall f (or_intror Hf)) fd sp Hin Hd Hw).
    + destruct (wcschr (cFileName e) "-"%char) as [seqPtr|] eqn:Hdash.
      * destruct (IH (Z.max (seq_after junk seqPtr) maxSeq))
          as (Hle & Hat & Hub).
        split; [lia|]. split.
        -- destruct Hat as [Hat|(fd & sp & Hin & Hd & Hw & Hm)].
           ++ rewrite Hat.
              destruct (Z.max_spec (seq_after junk seqPtr) maxSeq)
                as [[_ ->]|[_ ->]]; [left; reflexivity|].
              right. exists e, seqPtr. auto.
           ++ right. exists fd, sp. auto.
        -- intros Hall fd sp [->|Hin] Hd Hw.
           ++ rewrite Hdash in Hw. injection Hw as <-. lia.
           ++ apply (Hub (fun f Hf => Hall f (or_intror Hf)) fd sp Hin Hd Hw).
      * split; [lia|]. split; [left; reflexivity|].
        intros Hall. exfalso. apply (Hall e (or_introl eq_refl) Hdir Hdash).
Qed.

Lemma FindPriorFiles_loop_stops (before after : list find_data)
      (fd : find_data) (maxSeq : Z) :
  isDirectory fd = false ->
  wcschr (cFileName fd) "-"%char = None ->
  FindPriorFiles_loop junk (before ++ fd :: after) maxSeq
  = FindPriorFiles_loop junk before maxSeq.
Proof.
  intros Hd Hn. revert maxSeq.
  induction before as [|e before IH]; intros maxSeq; simpl.
  - rewrite Hd, Hn. reflexivity.
  - destruct (isDirectory e); [apply IH|].
    destruct (wcschr (cFileName e) "-"%char); [apply IH | reflexivity].
Qed.

End PriorFiles.

Lemma FindPriorFiles_loop_plain (junk junk' : Z)
      (entries : list find_data) :
  plain_names EmptyString entries ->
  forall maxSeq : Z,
    FindPriorFiles_loop junk' entries maxSeq
    = FindPriorFiles_loop junk entries maxSeq /\
    (0 <= maxSeq < 2 ^ 64 ->
     0 <= FindPriorFiles_loop junk entries maxSeq < 2 ^ 64).
Proof.
  induction entries as [|e entries IH]; intros Hplain maxSeq; simpl.
  - split; [reflexivity | auto].
  - assert (Hrest : plain_names EmptyString entries).
    { intros fd sp Hin. apply Hplain. right. exact Hin. }
    destruct (isDirectory e) eqn:Hdir; [apply IH; exact Hrest|].
    destruct (wcschr (cFileName e) "-"%char) as [seqPtr|] eqn:Hdash;
      [|split; [reflexivity | auto]].
    destruct (seq_after_plain junk seqPtr
                (Hplain e seqPtr (or_introl eq_refl) Hdir Hdash))
      as (n & Hscan & Hn & Hjunk).
    assert (Hjunk' : seq_after junk' seqPtr = n)
      by (unfold seq_after; rewrite Hscan; reflexivity).
    rewrite Hjunk, Hjunk'.
    destruct (IH Hrest (Z.max n maxSeq)) as (Hsame & Hrange).
    split; [exact Hsame|]. intros Hm. apply Hrange. lia.
Qed.

(** X11. What [FindPriorFiles] answers, on any device whose files carry
    plainly written numbers: a 64-bit number that does not depend on
    what the uninitialised [seqNum] holds; either 0 or the number read
    after the dash of some enumerated file; when every enumerated file
    has a dash in its name, no less than the number of any of them; and
    the scan ends at the first file whose name has no dash, so files
    enumerated after it do not count. *)
Theorem X11_FindPriorFiles_answer :
  forall (W : Type) (api : Win32 W) (junk : Z) (pathName : string) (w : W),
    plain_names EmptyString (FindFiles w (search_path pathName)) ->
    0 <= FindPriorFiles junk pathName w < 2 ^ 64 /\
    (forall junk',
        FindPriorFiles junk' pathName w = FindPriorFiles junk pathName w) /\
    (FindPriorFiles junk pathName w = 0 \/
     exists fd seqPtr,
       In fd (FindFiles w (search_path pathName)) /\
       isDirectory fd = false /\
       wcschr (cFileName fd) "-"%char = Some seqPtr /\
       FindPriorFiles junk pathName w = seq_after junk seqPtr) /\
    ((forall fd, In fd (FindFiles w (search_path pathName)) ->
                 isDirectory fd = false ->
                 wcschr (cFileName fd) "-"%char <> None) ->
     forall fd seqPtr,
       In fd (FindFiles w (search_path pathName)) ->
       isDirectory fd = false ->
       wcschr (cFileName fd) "-"%char = Some seqPtr ->
       seq_after junk seqPtr <= FindPriorFiles junk pathName w) /\
    (forall before fd after,
        FindFiles w (search_path pathName) = before ++ fd :: after ->
        isDirectory fd = false ->
        wcschr (cFileName fd) "-"%char = None ->
        FindPriorFiles junk pathName w = FindPriorFiles_loop junk before 0).
Proof.
  intros W api junk pathName w Hplain. unfold FindPriorFiles.
  destruct (FindPriorFiles_loop_spec junk (FindFiles w (search_path pathName)) 0)
    as (Hle & Hat & Hub).
  split.
  { apply (FindPriorFiles_loop_plain junk junk _ Hplain 0). lia. }
  split.
  { intros junk'. apply (FindPriorFiles_loop_plain junk junk' _ Hplain 0). }
  split; [exact Hat|]. split; [exact Hub|].
  intros before fd after Hsplit Hd Hn. rewrite Hsplit.
  apply FindPriorFiles_loop_stops; assumption.
Qed.

Lemma X11_answer_witness :
  seq_after 0 "-000002.bin" <= FindPriorFiles 0 "E:\" dashed_volume.
Proof.
  assert (Hplain : plain_names EmptyString
                               (FindFiles dashed_volume (search_path "E:\"))).
  { intros fd seqPtr Hin _. vm_compute in Hin.
    destruct Hin as [<-|[<-|[<-|[]]]]; intros [= <-]; reflexivity. }
  destruct (X11_FindPriorFiles_answer _ _ 0 "E:\" dashed_volume Hplain)
    as (_ & _ & _ & Hub & _).
  apply (Hub) with (fd := {| cFileName := "sp-000002.bin";
                             isDirectory := false |}).
  - intros fd Hin _. vm_compute in Hin.
    destruct Hin as [<-|[<-|[<-|[]]]]; discriminate.
  - right. right. left. reflexivity.
  - reflexivity.
  - reflexivity.
Defined.

End SegmentTraceFacts.

(** ** Deletion and [main] of spacechk *)

Module MainFacts.
Import Spacechk SpacechkMain.

Lemma deletions_app (ev ev' : list main_event) :
  deletions (ev ++ ev') = deletions ev ++ deletions ev'.
Proof.
  induction ev as [|e ev IH]; simpl; [reflexivity|].
  destruct e; simpl; rewrite ?IH; reflexivity.
Qed.

Lemma phases_app (ev ev' : list main_event) :
  phases (ev ++ ev') = phases ev ++ phases ev'.
Proof.
  induction ev as [|e ev IH]; simpl; [reflexivity|].
  destruct (phase_of e); simpl; rewrite IH; reflexivity.
Qed.

Section Deletion.
Context {W : Type} {api : Win32 W} {host : HostApi W}.

Lemma delete_loop_trace (pathName : string) (entries : list find_data) :
  forall (count : Z) (w : W) w' ev,
    delete_loop pathName entries count w = (w', ev) ->
    deletions ev = files_of pathName entries /\
    exists c, phases ev = repeat 3%nat c.
Proof.
  induction entries as [|fd entries IH]; intros count w w' ev; simpl.
  - intros [= <- <-]. split; [reflexivity|]. exists 0%nat. reflexivity.
  - destruct (isDirectory fd); [apply IH|].
    destruct (DeleteFile w _) as [ok w1].
    destruct (delete_loop pathName entries _ w1) as [w2 ev0] eqn:Hrec.
    intros [= <- <-].
    destruct (IH _ _ _ _ Hrec) as (Hd & c & Hp).
    split.
    + simpl. rewrite deletions_app, Hd. destruct ok; reflexivity.
    + exists (S c). simpl. rewrite phases_app, Hp. destruct ok; reflexivity.
Qed.

End Deletion.

(** X12. [DeleteFiles], on any device: it answers failure exactly when
    the enumeration finds nothing, and otherwise tries to delete every
    enumerated file, directories left out, in enumeration order, going on
    after a file that cannot be deleted, and answers success. *)
Theorem X12_DeleteFiles_tries_every_file :
  forall (W : Type) (api : Win32 W) (host : HostApi W) (pathName : string)
         (w : W) r w' ev,
    DeleteFiles pathName w = (r, w', ev) ->
    (r = false <-> FindFiles w (search_path pathName) = []) /\
    (r = false -> deletions ev = []) /\
    (r = true ->
     deletions ev = files_of pathName (FindFiles w (search_path pathName))).
Proof.
  intros W api host pathName w r w' ev. unfold DeleteFiles.
  destruct (FindFiles w (search_path pathName)) as [|fd entries].
  - intros [= <- <- <-]. split; [split; reflexivity|].
    split; [reflexivity | discriminate].
  - destruct (delete_loop pathName (fd :: entries) 0 w) as [w0 ev0] eqn:Hloop.
    intros [= <- <- <-].
    destruct (delete_loop_trace _ _ _ _ _ _ Hloop) as (Hd & _).
    split; [split; discriminate|]. split; [discriminate|].
    intros _. exact Hd.
Qed.

Lemma X12_DeleteFiles_witness :
  deletions (snd (DeleteFiles "E:\" dashed_volume))
  = files_of "E:\" (FindFiles dashed_volume (search_path "E:\")).
Proof.
  pose (X := DeleteFiles "E:\" dashed_volume).
  assert (HX : X = (fst (fst X), snd (fst X), snd X))
    by (destruct X as [[? ?] ?]; reflexivity).
  destruct (X12_DeleteFiles_tries_every_file _ _ _ "E:\" dashed_volume
              _ _ _ HX) as (_ & _ & Ht).
  apply Ht. vm_compute. reflexivity.
Defined.

(** *** The argument loop *)

Lemma has_lor (a g f : Z) :
  In g [1; 2; 4; 8; 16] -> In f [1; 2; 4; 8; 16] ->
  has (Z.lor a g) f = has a f || (g =? f).
Proof.
  intros Hg Hf. unfold has. rewrite Z.land_lor_distr_l.
  destruct (Z.eqb_spec g f) as [->|Hne].
  - rewrite Z.land_diag, orb_true_r.
    destruct (Z.eqb_spec (Z.lor (Z.land a f) f) 0) as [E|_]; [|reflexivity].
    apply Z.lor_eq_0_iff in E. destruct E as [_ E]. subst f.
    simpl in Hf. intuition discriminate.
  - rewrite orb_false_r.
    replace (Z.land g f) with 0; [rewrite Z.lor_0_r; reflexivity|].
    simpl in Hg, Hf.
    destruct Hg as [<-|[<-|[<-|[<-|[<-|[]]]]]];
      destruct Hf as [<-|[<-|[<-|[<-|[<-|[]]]]]];
      try reflexivity; contradiction.
Qed.

Lemma option_bit (name : string) (bit : Z) :
  In (name, bit) options -> In bit [1; 2; 4; 8; 16].
Proof.
  unfold options. simpl.
  intros [[= <- <-]|[[= <- <-]|[[= <- <-]|[[= <- <-]|[[= <- <-]|[]]]]]];
    simpl; auto 10.
Qed.

Lemma option_same (name name' : string) (bit bit' : Z) :
  In (name, bit) options -> In (name', bit') options ->
  String.eqb name name' = (bit' =? bit).
Proof.
  unfold options. simpl.
  intros [[= <- <-]|[[= <- <-]|[[= <- <-]|[[= <- <-]|[[= <- <-]|[]]]]]]
         [[= <- <-]|[[= <- <-]|[[= <- <-]|[[= <- <-]|[[= <- <-]|[]]]]]];
    reflexivity.
Qed.

Section Arguments.
Context {W : Type} {host : HostApi W}.

Lemma parse_post_option (w : W) (arg : string) (args : list string)
      (p0 : option string) (a0 : Z) p a (g : Z) :
  In (arg, g) options ->
  parse_post w args p0 (Z.lor a0 g) p a ->
  parse_post w (arg :: args) p0 a0 p a.
Proof.
  intros Hg (Hb & Hn & Hs). split; [|split].
  - intros name bit Hin. rewrite (Hb name bit Hin).
    rewrite (has_lor a0 g bit (option_bit _ _ Hg) (option_bit _ _ Hin)).
    simpl existsb. rewrite (option_same name arg bit g Hin Hg).
    rewrite orb_assoc. reflexivity.
  - intros Hp. destruct (Hn Hp) as [H0 Hall]. split; [exact H0|].
    intros arg' [<-|Hin]; [exists g; exact Hg | exact (Hall arg' Hin)].
  - intros x Hp. destruct (Hs x Hp) as [H0|(Hin & Hl & Hne & Hacc)];
      [left; exact H0|].
    right. split; [right; exact Hin | auto].
Qed.

Lemma parse_post_path (w : W) (arg : string) (args : list string)
      (p0 : option string) (a0 : Z) p a :
  (forall name bit, In (name, bit) options -> arg <> name) ->
  (String.length arg < 16)%nat ->
  accepted (GetDriveType w arg) = true ->
  parse_post w args (Some arg) a0 p a ->
  parse_post w (arg :: args) p0 a0 p a.
Proof.
  intros Hnone Hshort Hacc (Hb & Hn & Hs). split; [|split].
  - intros name bit Hin. rewrite (Hb name bit Hin). simpl existsb.
    destruct (String.eqb_spec name arg) as [->|_]; [|reflexivity].
    exfalso. exact (Hnone _ _ Hin eq_refl).
  - intros Hp. destruct (Hn Hp) as [H0 _]. discriminate H0.
  - intros x Hp. right.
    destruct (Hs x Hp) as [[= <-]|(Hin & Hl & Hne & Ha)].
    + split; [left; reflexivity | auto].
    + split; [right; exact Hin | auto].
Qed.

Lemma parse_args_spec (w : W) (args : list string) :
  forall (p0 : option string) (a0 : Z) p a,
    parse_args w args p0 a0 = Parsed p a ->
    parse_post w args p0 a0 p a.
Proof.
  induction args as [|arg args IH]; intros p0 a0 p a; cbn [parse_args].
  - intros [= <- <-]. split; [|split].
    + intros name bit _. simpl. rewrite orb_false_r. reflexivity.
    + intros ->. split; [reflexivity | intros arg []].
    + intros x ->. left. reflexivity.
  - destruct (String.eqb_spec arg "-stats") as [->|N1].
    { intros H. apply (parse_post_option w _ _ _ _ _ _ 1);
        [simpl; auto | exact (IH _ _ _ _ H)]. }
    destruct (String.eqb_spec arg "-create") as [->|N2].
    { intros H. apply (parse_post_option w _ _ _ _ _ _ 2);
        [simpl; auto | exact (IH _ _ _ _ H)]. }
    destruct (String.eqb_spec arg "-verify") as [->|N3].
    { intros H. apply (parse_post_option w _ _ _ _ _ _ 4);
        [simpl; auto | exact (IH _ _ _ _ H)]. }
    destruct (String.eqb_spec arg "-keepverifying") as [->|N4].
    { intros H. apply (parse_post_option w _ _ _ _ _ _ 8);
        [simpl; auto 10 | exact (IH _ _ _ _ H)]. }
    destruct (String.eqb_spec arg "-delete") as [->|N5].
    { intros H. apply (parse_post_option w _ _ _ _ _ _ 16);
        [simpl; auto 10 | exact (IH _ _ _ _ H)]. }
    destruct (Nat.leb_spec 16 (String.length arg)) as [Hlong|Hshort];
      [intros H; discriminate H|].
    assert (Hnone : forall name bit, In (name, bit) options -> arg <> name).
    { intros name bit Hin. unfold options in Hin. simpl in Hin.
      destruct Hin as [[= <- <-]|[[= <- <-]|[[= <- <-]|[[= <- <-]|[[= <- <-]|[]]]]]];
        assumption. }
    destruct (GetDriveType w arg) eqn:Hdrive;
      try (intros H; discriminate H);
      intros H; apply parse_post_path;
      try assumption; try (rewrite Hdrive; reflexivity);
      exact (IH _ _ _ _ H).
Qed.

End Arguments.

Lemma parse_args_top :
  forall (W : Type) (host : HostApi W) (w : W) (args : list string) p a,
    parse_args w args None noActions = Parsed p a ->
    (forall name bit, In (name, bit) options ->
       (has a bit = true <-> In name args)) /\
    (p = None <->
     forall arg, In arg args -> exists bit, In (arg, bit) options) /\
    (forall x, p = Some x ->
       In x args /\ (String.length x < 16)%nat /\
       (forall name bit, In (name, bit) options -> x <> name) /\
       accepted (GetDriveType w x) = true).
Proof.
  intros W host w args p a Hrun.
  destruct (parse_args_spec w args _ _ _ _ Hrun) as (Hb & Hn & Hs).
  split; [|split].
  - intros name bit Hin. rewrite (Hb name bit Hin).
    assert (H0 : has noActions bit = false) by reflexivity.
    rewrite H0, orb_false_l. rewrite existsb_exists. split.
    + intros (x & Hx & He). apply String.eqb_eq in He. subst x. exact Hx.
    + intros Hx. exists name. split; [exact Hx | apply String.eqb_refl].
  - split.
    + intros Hp. exact (proj2 (Hn Hp)).
    + intros Hall. destruct p as [x|]; [|reflexivity]. exfalso.
      destruct (Hs x eq_refl) as [H0|(Hin & _ & Hne & _)]; [discriminate H0|].
      destruct (Hall x Hin) as [bit Hbit]. exact (Hne x bit Hbit eq_refl).
  - intros x Hp.
    destruct (Hs x Hp) as [H0|H]; [discriminate H0 | exact H].
Qed.

(** X13. What the argument loop of spacechk's [main] makes of the
    command line, when it runs to the end: an action is selected exactly
    when its option occurs among the arguments, in any position and any
    number of times; no path is kept exactly when every argument is an
    option; and a path that is kept is one of the arguments, is not an
    option, is shorter than 16 characters and names a removable, fixed,
    remote or RAM drive. *)
Theorem X13_options_and_path :
  forall (W : Type) (host : HostApi W) (w : W) (args : list string) p a,
    parse_args w args None noActions = Parsed p a ->
    (forall name bit, In (name, bit) options ->
       (has a bit = true <-> In name args)) /\
    (p = None <->
     forall arg, In arg args -> exists bit, In (arg, bit) options) /\
    (forall x, p = Some x ->
       In x args /\ (String.length x < 16)%nat /\
       (forall name bit, In (name, bit) options -> x <> name) /\
       accepted (GetDriveType w x) = true).
Proof.
  intros W host w args p a Hrun. exact (parse_args_top W host w args p a Hrun).
Qed.

Lemma X13_options_witness :
  In "E:\" ["-delete"; "E:\"; "-create"] /\
  accepted (GetDriveType (Spacechk.healthy []) "E:\") = true.
Proof.
  assert (Hrun : parse_args (Spacechk.healthy []) ["-delete"; "E:\"; "-create"]
                            None noActions = Parsed (Some "E:\") 18)
    by reflexivity.
  destruct (X13_options_and_path _ _ _ _ _ _ Hrun) as (_ & _ & Hs).
  destruct (Hs "E:\" eq_refl) as (Hin & _ & _ & Hacc).
  split; assumption.
Defined.

(** *** The order of the phases *)

Section Phases.
Context {W : Type} {api : Win32 W} {host : HostApi W}.
Variable junk : Z.

Lemma create_loop_phases (n : nat) :
  forall (pathName : string) (i : Z) (buf : buffer) (w : W) r w' ev,
    create_loop n pathName i buf w = (r, w', ev) ->
    exists a, phases (map EvProbe ev) = repeat 1%nat a.
Proof.
  induction n as [|n IH]; intros pathName i buf w r w' ev; simpl.
  - intros [= <- <- <-]. exists 0%nat. reflexivity.
  - destruct (CreateAlways w (segment_name pathName i)) as [ok w1].
    destruct ok; simpl negb; cbv iota.
    2:{ intros [= <- <- <-]. exists 1%nat. reflexivity. }
    destruct (WriteFile w1 _ _ fileIOSize) as [[n0|] w2].
    2:{ intros [= <- <- <-]. exists 2%nat. reflexivity. }
    destruct (n0 =? fileIOSize); simpl negb; cbv iota.
    2:{ intros [= <- <- <-]. exists 2%nat. reflexivity. }
    destruct (create_loop n pathName (i + 1) _ _) as [[r0 w3] ev0] eqn:Hrec.
    intros [= <- <- <-]. destruct (IH _ _ _ _ _ _ _ Hrec) as [a Ha].
    exists (S (S a)). simpl. rewrite Ha. reflexivity.
Qed.

Lemma CreateFiles_phases (pathName : string) (sectorSize totalSpace : Z)
      (w : W) r w' ev :
  CreateFiles junk pathName sectorSize totalSpace w = (r, w', ev) ->
  exists a, phases (map EvProbe ev) = repeat 1%nat a.
Proof.
  unfold CreateFiles.
  destruct (aligned_malloc w fileIOSize); simpl negb; cbv iota.
  2:{ intros [= <- <- <-]. exists 0%nat. reflexivity. }
  destruct (create_loop _ pathName 0 _ w) as [[r0 w0] ev0] eqn:Hloop.
  intros [= <- <- <-]. destruct (create_loop_phases _ _ _ _ _ _ _ _ Hloop) as [a Ha].
  exists a. simpl. rewrite map_app, phases_app, Ha.
  destruct r0; simpl; apply app_nil_r.
Qed.

Lemma repeat_reached_phases (z : Z) (m : nat) :
  phases (map EvProbe (repeat (EvOutputSize "Reached" z) m)) = [].
Proof. induction m as [|m IH]; simpl; [reflexivity | exact IH]. Qed.

Lemma verify_loop_phases (keepGoing : bool) (pathName : string) :
  forall (entries : list find_data) (count : Z) (buf : buffer) (w : W)
         r w' ev,
    verify_loop junk keepGoing pathName entries count buf w = (r, w', ev) ->
    exists b, phases (map EvProbe ev) = repeat 2%nat b.
Proof.
  induction entries as [|fd entries IH]; intros count buf w r w' ev;
    cbn [verify_loop].
  - intros [= <- <- <-]. exists 0%nat. reflexivity.
  - destruct (isDirectory fd); [apply IH|].
    destruct (OpenExisting w _) as [ok w1].
    destruct ok; simpl negb; cbv iota.
    2:{ intros [= <- <- <-]. exists 1%nat. reflexivity. }
    destruct (ReadFile w1 _ buf fileIOSize) as [[[bytesRead b1]|] w2].
    2:{ intros [= <- <- <-]. exists 2%nat. reflexivity. }
    destruct (bytesRead =? fileIOSize); simpl negb; cbv iota.
    2:{ intros [= <- <- <-]. exists 2%nat. reflexivity. }
    destruct (wcschr (pathName ++ cFileName fd) "-"%char) as [seqPtr|].
    2:{ intros [= <- <- <-]. exists 2%nat. reflexivity. }
    destruct (compare_slots keepGoing b1 (seq_after junk seqPtr) 0 4)
      as [same ev1] eqn:Hcmp.
    destruct (SegmentTraceFacts.compare_slots_trace _ _ _ _ _ _ _ Hcmp)
      as (m & _ & -> & _ & _).
    destruct same; simpl negb; cbv iota.
    + destruct (verify_loop junk keepGoing pathName entries _ b1 _)
        as [[r0 w4] ev0] eqn:Hrec.
      intros [= <- <- <-]. destruct (IH _ _ _ _ _ _ Hrec) as [b Hb].
      exists (S (S b)). simpl.
      rewrite map_app, phases_app, repeat_reached_phases, Hb. reflexivity.
    + intros [= <- <- <-]. exists 2%nat. simpl.
      rewrite repeat_reached_phases. reflexivity.
Qed.

Lemma VerifyFiles_phases (pathName : string) (sectorSize : Z)
      (keepGoing : bool) (w : W) r w' ev :
  VerifyFiles junk pathName sectorSize keepGoing w = (r, w', ev) ->
  exists b, phases (map EvProbe ev) = repeat 2%nat b.
Proof.
  unfold VerifyFiles.
  destruct (FindFiles w (search_path pathName)) as [|fd entries].
  { intros [= <- <- <-]. exists 0%nat. reflexivity. }
  destruct (aligned_malloc w fileIOSize); simpl negb; cbv iota.
  2:{ intros [= <- <- <-]. exists 0%nat. reflexivity. }
  destruct (verify_loop junk keepGoing pathName (fd :: entries) 0 _ w)
    as [[r0 w0] ev0] eqn:Hloop.
  intros [= <- <- <-]. destruct (verify_loop_phases _ _ _ _ _ _ _ _ _ Hloop) as [b Hb].
  exists b. simpl. exact Hb.
Qed.

Lemma DeleteFiles_phases (pathName : string) (w : W) r w' ev :
  DeleteFiles pathName w = (r, w', ev) ->
  exists c, phases ev = repeat 3%nat c.
Proof.
  unfold DeleteFiles.
  destruct (FindFiles w (search_path pathName)) as [|fd entries].
  { intros [= <- <- <-]. exists 0%nat. reflexivity. }
  destruct (delete_loop pathName (fd :: entries) 0 w) as [w0 ev0] eqn:Hloop.
  intros [= <- <- <-]. destruct (delete_loop_trace _ _ _ _ _ _ Hloop) as (_ & c & Hc).
  exists c. simpl. exact Hc.
Qed.

Lemma run_phases_order (pathName : string) (sectorSize freeSpace : Z)
      (progActions : Z) (w : W) code w' ev :
  run_phases junk pathName sectorSize freeSpace progActions w
  = (code, w', ev) ->
  exists a b c,
    phases ev = repeat 1%nat a ++ repeat 2%nat b ++ repeat 3%nat c /\
    (has progActions createFiles = false -> a = 0%nat) /\
    (has progActions verifyFiles = false -> b = 0%nat) /\
    (has progActions deleteFiles = false -> c = 0%nat).
Proof.
  unfold run_phases.
  assert (H1 : exists r1 w1 ev1 a,
             (if has progActions createFiles
              then let '(r, w', ev) :=
                     CreateFiles junk pathName sectorSize freeSpace w in
                   (r, w', map EvProbe ev)
              else (true, w, [])) = (r1, w1, ev1) /\
             phases ev1 = repeat 1%nat a /\
             (has progActions createFiles = false -> a = 0%nat)).
  { destruct (has progActions createFiles).
    - destruct (CreateFiles junk pathName sectorSize freeSpace w)
        as [[r w0] ev0] eqn:Hc.
      destruct (CreateFiles_phases _ _ _ _ _ _ _ Hc) as [a Ha].
      exists r, w0, (map EvProbe ev0), a.
      split; [reflexivity|]. split; [exact Ha | discriminate].
    - exists true, w, [], 0%nat. auto. }
  destruct H1 as (r1 & w1 & ev1 & a & -> & Ha & Ha0).
  destruct r1; simpl negb; cbv iota.
  2:{ intros [= <- <- <-]. exists a, 0%nat, 0%nat.
      rewrite phases_app, Ha. simpl. rewrite app_nil_r. auto. }
  assert (H2 : exists r2 w2 ev2 b,
             (if has progActions verifyFiles
              then let '(r, w', ev) :=
                     VerifyFiles junk pathName sectorSize
                                 (has progActions keepVerifying) w1 in
                   (r, w', map EvProbe ev)
              else (true, w1, [])) = (r2, w2, ev2) /\
             phases ev2 = repeat 2%nat b /\
             (has progActions verifyFiles = false -> b = 0%nat)).
  { destruct (has progActions verifyFiles).
    - destruct (VerifyFiles junk pathName sectorSize _ w1)
        as [[r w0] ev0] eqn:Hv.
      destruct (VerifyFiles_phases _ _ _ _ _ _ _ Hv) as [b Hb].
      exists r, w0, (map EvProbe ev0), b.
      split; [reflexivity|]. split; [exact Hb | discriminate].
    - exists true, w1, [], 0%nat. auto. }
  destruct H2 as (r2 & w2 & ev2 & b & -> & Hb & Hb0).
  destruct r2; simpl negb; cbv iota.
  2:{ intros [= <- <- <-]. exists a, b, 0%nat.
      rewrite !phases_app, Ha, Hb. simpl. rewrite app_nil_r. auto. }
  assert (H3 : exists r3 w3 ev3 c,
             (if has progActions deleteFiles then DeleteFiles pathName w2
              else (true, w2, [])) = (r3, w3, ev3) /\
             phases ev3 = repeat 3%nat c /\
             (has progActions deleteFiles = false -> c = 0%nat)).
  { destruct (has progActions deleteFiles).
    - destruct (DeleteFiles pathName w2) as [[r w0] ev0] eqn:Hd.
      destruct (DeleteFiles_phases _ _ _ _ _ Hd) as [c Hc].
      exists r, w0, ev0, c.
      split; [reflexivity|]. split; [exact Hc | discriminate].
    - exists true, w2, [], 0%nat. auto. }
  destruct H3 as (r3 & w3 & ev3 & c & -> & Hc & Hc0).
  destruct r3; simpl negb; cbv iota;
    intros [= <- <- <-]; exists a, b, c;
    rewrite !phases_app, Ha, Hb, Hc; simpl; rewrite ?app_nil_r; auto.
Qed.

End Phases.

(** X14. Whatever the order of the options on the command line,
    spacechk's [main] only ever creates, then verifies, then deletes:
    in every run the file operations of creation come first, those of
    verification next and the deletions last, and a phase whose option
    is absent performs none. *)
Theorem X14_main_phase_order :
  forall (W : Type) (api : Win32 W) (host : HostApi W) (junk : Z)
         (argv : list string) (w : W) code w' ev,
    main junk argv w = (code, w', ev) ->
    exists a b c,
      phases ev = repeat 1%nat a ++ repeat 2%nat b ++ repeat 3%nat c /\
      (~ In "-create" (tl argv) -> a = 0%nat) /\
      (~ In "-verify" (tl argv) -> b = 0%nat) /\
      (~ In "-delete" (tl argv) -> c = 0%nat).
Proof.
  intros W api host junk argv w code w' ev. unfold main.
  destruct argv as [|prog [|arg args]].
  1,2: intros [= <- <- <-]; exists 0%nat, 0%nat, 0%nat; simpl; auto.
  destruct (parse_args w (arg :: args) None noActions) as [p a| |] eqn:Hparse.
  2,3: intros [= <- <- <-]; exists 0%nat, 0%nat, 0%nat; simpl; auto.
  destruct (a =? noActions).
  { intros [= <- <- <-]. exists 0%nat, 0%nat, 0%nat. simpl. auto. }
  destruct (GetDiskFreeSpaceA w p) as [st|].
  2:{ intros [= <- <- <-]. exists 0%nat, 0%nat, 0%nat. simpl. auto. }
  destruct (run_phases junk (path_text p) (bytesPerSector st) _ a w)
    as [[code0 w0] ev0] eqn:Hrun.
  intros [= <- <- <-].
  destruct (run_phases_order _ _ _ _ _ _ _ _ _ Hrun)
    as (x & y & z & Hp & Hx & Hy & Hz).
  destruct (parse_args_top _ _ _ _ _ _ Hparse) as (Hopt & _ & _).
  exists x, y, z. simpl tl.
  assert (Hev : forall l, phases ((if has a outputStats
                                   then [EvStats
                                           (space_u64 (bytesPerSector st)
                                              (sectorsPerCluster st)
                                              (totalClusters st))
                                           (space_u64 (bytesPerSector st)
                                              (sectorsPerCluster st)
                                              (freeClusters st))]
                                   else []) ++ l) = phases l).
  { intros l. destruct (has a outputStats); reflexivity. }
  rewrite Hev. split; [exact Hp|].
  assert (Hoff : forall name bit, In (name, bit) options ->
                                  ~ In name (arg :: args) -> has a bit = false).
  { intros name bit Hin Hno. destruct (has a bit) eqn:E; [|reflexivity].
    exfalso. apply Hno. apply (proj1 (Hopt name bit Hin)). exact E. }
  split; [|split]; intros Hno.
  - apply Hx. apply (Hoff "-create"); [simpl; auto | exact Hno].
  - apply Hy. apply (Hoff "-verify"); [simpl; auto | exact Hno].
  - apply Hz. apply (Hoff "-delete"); [simpl; auto 10 | exact Hno].
Qed.

Lemma X14_phase_order_witness :
  exists a b c,
    phases (snd (main 0 ["spacechk"; "-delete"; "-verify"; "-create"; "E:\"]
                      (Spacechk.healthy [])))
    = repeat 1%nat a ++ repeat 2%nat b ++ repeat 3%nat c /\
    (~ In "-create" ["-delete"; "-verify"; "-create"; "E:\"] -> a = 0%nat) /\
    (~ In "-verify" ["-delete"; "-verify"; "-create"; "E:\"] -> b = 0%nat) /\
    (~ In "-delete" ["-delete"; "-verify"; "-create"; "E:\"] -> c = 0%nat).
Proof.
  pose (X := main 0 ["spacechk"; "-delete"; "-verify"; "-create"; "E:\"]
                  (Spacechk.healthy [])).
  assert (HX : X = (fst (fst X), snd (fst X), snd X))
    by (destruct X as [[? ?] ?]; reflexivity).
  exact (X14_main_phase_order _ _ _ 0 _ _ _ _ _ HX).
Defined.

End MainFacts.

(** ** The single-file prober: every path of the pass, [main] *)

Module MaxspaceFacts.
Import Maxspace MaxspaceMain.

(** A run that is evaluated to a result did not run out of fuel. *)
Ltac runs_out H :=
  exfalso;
  match type of H with
  | ?run = None =>
      let R := fresh "R" in
      assert (R : match run with Some _ => True | None => False end)
        by (vm_compute; exact I);
      rewrite H in R; exact R
  end.

Lemma reads_app (ev ev' : list event) :
  reads (ev ++ ev') = reads ev ++ reads ev'.
Proof.
  induction ev as [|e ev IH]; simpl; [reflexivity|].
  destruct e; simpl; rewrite ?IH; reflexivity.
Qed.

Lemma written_blocks_app (ev ev' : list event) :
  probed (ev ++ ev') = probed ev ++ probed ev'.
Proof.
  induction ev as [|e ev IH]; simpl; [reflexivity|].
  destruct e; simpl; rewrite ?IH; reflexivity.
Qed.

Section Pass.
Context {W : Type} {api : FileApi W}.
Variables (bytesPerSector : Z) (noReads : bool).

Ltac block_case :=
  intros [= <- <- <- <-];
  repeat split; try reflexivity; try discriminate;
  try (intros _; discriminate); try (intros; reflexivity);
  try (intros; eexists; reflexivity).

Lemma probe_block_reads (i count : Z) (buf : buffer) (w : W) fault b' w' ev :
  probe_block bytesPerSector noReads i count buf w = (fault, b', w', ev) ->
  closes ev = 0%nat /\
  (noReads = true -> reads ev = []) /\
  (noReads = false -> fault = None -> reads ev = [i] /\ probed ev = [i]) /\
  (fault = Some ReadFailed ->
   noReads = false /\ reported ev = [] /\
   last ev EvClose = EvRead i bytesPerSector).
Proof.
  unfold probe_block.
  destruct (SetFilePointerEx w i) as [moved w1].
  destruct moved; simpl negb; cbv iota; [|block_case].
  destruct (WriteFile w1 _ bytesPerSector) as [[n|] w2]; [|block_case].
  destruct (n =? bytesPerSector); simpl negb; cbv iota; [|block_case].
  destruct noReads; [block_case|].
  destruct (SetFilePointerEx w2 i) as [moved' w3].
  destruct moved'; simpl negb; cbv iota; [|block_case].
  destruct (ReadFile w3 _ bytesPerSector) as [[[bytesRead b3]|] w4];
    [|block_case].
  destruct (bytesRead =? bytesPerSector); simpl negb; cbv iota;
    [|block_case].
  destruct (check b3 bytesPerSector (marker count)) as [[o v]|]; block_case.
Qed.

Lemma last_app_nonempty (A : Type) (l l' : list A) (d : A) :
  l' <> [] -> last (l ++ l') d = last l' d.
Proof.
  intros H. induction l as [|x l IH]; simpl; [reflexivity|].
  destruct (l ++ l') eqn:E; [|exact IH].
  apply app_eq_nil in E. destruct E as [_ E]. contradiction.
Qed.

Lemma last_default (A : Type) (l : list A) (d d' : A) :
  l <> [] -> last l d = last l d'.
Proof.
  induction l as [|x l IH]; intros H; [contradiction|].
  destruct l as [|y l]; [reflexivity|].
  change (last (y :: l) d = last (y :: l) d'). apply IH. discriminate.
Qed.

(** How the loop ends: with the handle closed once, last, when it
    returns; after a failed read, in read-back mode only, with the handle
    open and nothing printed, when the process dies. *)
Lemma probe_loop_reads (fileSize : Z) (fuel : nat) :
  forall (i count : Z) (buf : buffer) (w : W) out w' ev,
    probe_loop fuel bytesPerSector noReads fileSize i count buf w
    = Some (out, w', ev) ->
    ev <> [] /\
    (forall ok, out = Returns ok ->
                closes ev = 1%nat /\ last ev EvGetFileSize = EvClose) /\
    (out = Dies ->
     noReads = false /\ closes ev = 0%nat /\ reported ev = [] /\
     exists off, last ev EvClose = EvRead off bytesPerSector) /\
    (noReads = true -> reads ev = []) /\
    (noReads = false -> out = Returns true -> reads ev = probed ev).
Proof.
  induction fuel as [|fuel IH]; intros i count buf w out w' ev; simpl;
    [discriminate|].
  destruct (i <? fileSize).
  2:{ intros [= <- <- <-]. simpl.
      split; [discriminate|]. split; [auto|]. split; [discriminate|]. auto. }
  destruct (probe_block bytesPerSector noReads i count buf w)
    as [[[fault b'] w1] evb] eqn:Hb.
  destruct (probe_block_reads _ _ _ _ _ _ _ _ Hb) as (Hc & Hn & Hr & Hd).
  assert (Hstop : forall why, fault = Some why -> why <> ReadFailed ->
            Some (Returns false, CloseHandle w1, evb ++ [EvClose])
            = Some (out, w', ev) ->
            ev <> [] /\
            (forall ok, out = Returns ok ->
                        closes ev = 1%nat /\ last ev EvGetFileSize = EvClose) /\
            (out = Dies ->
             noReads = false /\ closes ev = 0%nat /\ reported ev = [] /\
             exists off, last ev EvClose = EvRead off bytesPerSector) /\
            (noReads = true -> reads ev = []) /\
            (noReads = false -> out = Returns true -> reads ev = probed ev)).
  { intros why _ _ [= <- <- <-].
    rewrite ProbeFacts.closes_app, reads_app, Hc. simpl.
    split; [intros E; apply app_eq_nil in E; destruct E as [_ E];
            discriminate E|].
    split; [intros ok _; split; [reflexivity | apply last_last]|].
    split; [discriminate|].
    split; [intros Hnr; rewrite (Hn Hnr); reflexivity | discriminate]. }
  destruct fault as [why|].
  - destruct why; try (apply (Hstop _ eq_refl); discriminate).
    intros [= <- <- <-].
    destruct (Hd eq_refl) as (Hnr & Hrep & Hlast).
    split; [intros ->; discriminate Hlast|].
    split; [discriminate|].
    split; [intros _; split; [exact Hnr|]; split; [exact Hc|];
            split; [exact Hrep | eexists; exact Hlast]|].
    split; [intros E; rewrite E in Hnr; discriminate Hnr | discriminate].
  - destruct (probe_loop fuel bytesPerSector noReads fileSize _ _ b' w1)
      as [[[r0 w2] ev0]|] eqn:Hrec; [|discriminate].
    intros [= <- <- <-].
    destruct (IH _ _ _ _ _ _ _ Hrec) as (Ine & Iret & Idie & In1 & Ir).
    assert (Hev0 : evb ++ ev0 <> []).
    { intros E. apply app_eq_nil in E. destruct E as [_ E]. contradiction. }
    split; [exact Hev0|].
    rewrite ProbeFacts.closes_app, reads_app, written_blocks_app,
      ProbeFacts.reported_app, Hc.
    split; [|split; [|split]].
    + intros ok Hok. destruct (Iret ok Hok) as (Ic & Il).
      split; [exact Ic|]. rewrite last_app_nonempty by exact Ine. exact Il.
    + intros Hdie. destruct (Idie Hdie) as (Hnr & Ic & Irep & off & Il).
      split; [exact Hnr|]. split; [exact Ic|]. split.
      * destruct (ProbeFacts.probe_block_events _ _ _ _ _ _ _ _ _ _ Hb)
          as (_ & -> & _). exact Irep.
      * exists off. rewrite last_app_nonempty by exact Ine. exact Il.
    + intros Hnr. rewrite (Hn Hnr), (In1 Hnr). reflexivity.
    + intros Hnr Ht. destruct (Hr Hnr eq_refl) as [-> ->].
      rewrite (Ir Hnr Ht). reflexivity.
Qed.

Lemma VerifyTheFile_reads (fuel : nat) (cached : bool) (w : W) out w' ev :
  VerifyTheFile fuel bytesPerSector noReads cached w = Some (out, w', ev) ->
  hd EvClose ev = EvOpen cached /\
  (forall ok, out = Returns ok ->
              closes ev = 1%nat /\ last ev EvGetFileSize = EvClose) /\
  (out = Dies ->
   noReads = false /\ closes ev = 0%nat /\ reported ev = [] /\
   exists off, last ev EvClose = EvRead off bytesPerSector) /\
  (noReads = true -> reads ev = []) /\
  (noReads = false -> out = Returns true -> reads ev = probed ev).
Proof.
  unfold VerifyTheFile.
  destruct (GetFileSizeEx (OpenExisting w cached)) as [size|].
  2:{ intros [= <- <- <-]. simpl.
      split; [reflexivity|]. split; [auto|]. split; [discriminate|].
      split; [auto | discriminate]. }
  destruct (aligned_malloc (OpenExisting w cached) bytesPerSector);
    simpl negb; cbv iota.
  2:{ intros [= <- <- <-]. simpl.
      split; [reflexivity|]. split; [auto|]. split; [discriminate|].
      split; [auto | discriminate]. }
  destruct (probe_loop fuel bytesPerSector noReads size 0 0 _ _)
    as [[[r0 w0] ev0]|] eqn:Hloop; [|discriminate].
  intros [= <- <- <-].
  destruct (probe_loop_reads _ _ _ _ _ _ _ _ _ Hloop)
    as (Hne & Hret & Hdie & Hn & Hr).
  split; [reflexivity|].
  split; [|split; [|split; [exact Hn | exact Hr]]].
  - intros ok Hok. destruct (Hret ok Hok) as (Hc & Hl).
    split; [exact Hc|].
    destruct ev0 as [|e l]; [contradiction | exact Hl].
  - intros Hd. destruct (Hdie Hd) as (Hnr & Hc & Hrep & off & Hl).
    split; [exact Hnr|]. split; [exact Hc|]. split; [exact Hrep|].
    exists off. destruct ev0 as [|e l]; [contradiction | exact Hl].
Qed.

End Pass.

(** X16. The handle of the verification file is closed exactly once, and
    last, on every path on which [VerifyTheFile] returns: after a pass
    that succeeds, after a failure inside the pass, and when the size
    query or the buffer allocation fails; the run always begins by
    opening the file. The one path on which it does not return is a
    failed [ReadFile], in read-back mode only: the process dies in the
    error line, with that read as its last call, the handle still open
    and no capacity printed. *)
Theorem X16_VerifyTheFile_closes_once :
  forall (W : Type) (api : FileApi W) (fuel : nat) (bytesPerSector : Z)
         (noReads cached : bool) (w : W) out w' ev,
    VerifyTheFile fuel bytesPerSector noReads cached w
    = Some (out, w', ev) ->
    hd EvClose ev = EvOpen cached /\
    (forall ok, out = Returns ok ->
                closes ev = 1%nat /\ last ev EvGetFileSize = EvClose) /\
    (out = Dies ->
     noReads = false /\ closes ev = 0%nat /\ reported ev = [] /\
     exists off, last ev EvClose = EvRead off bytesPerSector).
Proof.
  intros W api fuel bytesPerSector noReads cached w out w' ev Hrun.
  destruct (VerifyTheFile_reads _ _ _ _ _ _ _ _ Hrun)
    as (Hh & Hret & Hdie & _).
  auto.
Qed.

Lemma X16_closes_witness :
  match @VerifyTheFile sim (unreadable_from verifySize) 6 512 false false
                       sound_drive with
  | Some (out, _, ev) =>
      hd EvClose ev = EvOpen false /\
      out = Dies /\ closes ev = 0%nat /\ reported ev = [] /\
      last ev EvClose = EvRead verifySize 512
  | None => False
  end.
Proof.
  destruct (@VerifyTheFile sim (unreadable_from verifySize) 6 512 false false
                           sound_drive)
    as [[[out w'] ev]|] eqn:Hrun.
  - destruct (X16_VerifyTheFile_closes_once _ _ _ _ _ _ _ _ _ _ Hrun)
      as (Hh & _ & Hdie).
    assert (E : match @VerifyTheFile sim (unreadable_from verifySize) 6 512
                                     false false sound_drive with
                | Some (r0, _, e) =>
                    r0 = Dies /\ last e EvClose = EvRead verifySize 512
                | None => False
                end) by (vm_compute; split; reflexivity).
    rewrite Hrun in E. destruct E as (Hout & Hlast).
    destruct (Hdie Hout) as (_ & Hc & Hrep & _).
    auto.
  - runs_out Hrun.
Defined.

(** X17. Reading follows the mode, on any device: in write-only mode
    [VerifyTheFile] never reads; in read-back mode a pass that succeeds
    has read every block it wrote, at the same offsets in the same
    order. *)
Theorem X17_reads_follow_mode :
  forall (W : Type) (api : FileApi W) (fuel : nat) (bytesPerSector : Z)
         (noReads cached : bool) (w : W) r w' ev,
    VerifyTheFile fuel bytesPerSector noReads cached w = Some (r, w', ev) ->
    (noReads = true -> reads ev = []) /\
    (noReads = false -> r = Returns true -> reads ev = probed ev).
Proof.
  intros W api fuel bytesPerSector noReads cached w r w' ev Hrun.
  destruct (VerifyTheFile_reads _ _ _ _ _ _ _ _ Hrun)
    as (_ & _ & _ & Hn & Hr).
  auto.
Qed.

Lemma X17_reads_witness :
  match VerifyTheFile 3 512 false false sound_drive with
  | Some (_, _, ev) => reads ev = probed ev
  | None => False
  end.
Proof.
  destruct (VerifyTheFile 3 512 false false sound_drive)
    as [[[r w'] ev]|] eqn:Hrun.
  - assert (Hr : r = Returns true).
    { assert (E : match VerifyTheFile 3 512 false false sound_drive with
                  | Some (r0, _, _) => r0 | None => Dies end = Returns true)
        by (vm_compute; reflexivity).
      rewrite Hrun in E. exact E. }
    exact (proj2 (X17_reads_follow_mode _ _ _ _ _ _ _ _ _ _ Hrun)
                 eq_refl Hr).
  - runs_out Hrun.
Defined.

(** X18. [CreateVerifyFile] leaves no handle open, whatever the system
    answers: the file handle is closed exactly once when the file was
    created, also when a later step fails, and never otherwise; closing
    it is then the last call made. *)
Theorem X18_CreateVerifyFile_closes_file :
  forall (os : alloc_os) (totalSpace : Z),
    (file_closes (snd (CreateVerifyFile os totalSpace))
     <= file_creates (snd (CreateVerifyFile os totalSpace)) <= 1)%nat /\
    (step_ok os totalSpace StepPrivilege && create_ok os = true ->
     file_closes (snd (CreateVerifyFile os totalSpace)) = 1%nat /\
     last (snd (CreateVerifyFile os totalSpace)) CallCreateFile
     = CallCloseFile) /\
    (step_ok os totalSpace StepPrivilege && create_ok os = false ->
     file_closes (snd (CreateVerifyFile os totalSpace)) = 0%nat).
Proof.
  intros os totalSpace. unfold CreateVerifyFile, AddPrivelege, step_ok.
  destruct (open_token_ok os), (adjust_priv_ok os), (close_token_ok os),
    (create_ok os), (set_pointer_ok os totalSpace), (set_eof_ok os),
    (set_valid_ok os totalSpace); simpl;
    repeat split; intros; try reflexivity; try lia; try congruence.
Qed.

Lemma X18_closes_file_witness :
  file_closes (snd (CreateVerifyFile os_no_eof 1048576)) = 1%nat /\
  last (snd (CreateVerifyFile os_no_eof 1048576)) CallCreateFile
  = CallCloseFile.
Proof.
  apply (proj1 (proj2 (X18_CreateVerifyFile_closes_file
                         os_no_eof 1048576))).
  reflexivity.
Defined.

(** *** [main] *)

Lemma probes_app (ev ev' : list main_event) :
  probes (ev ++ ev') = probes ev ++ probes ev'.
Proof.
  induction ev as [|e ev IH]; simpl; [reflexivity|].
  destruct e; simpl; rewrite ?IH; reflexivity.
Qed.

Lemma removals_app (ev ev' : list main_event) :
  removals (ev ++ ev') = removals ev ++ removals ev'.
Proof.
  induction ev as [|e ev IH]; simpl; [reflexivity|].
  destruct e; simpl; rewrite ?IH; reflexivity.
Qed.

Lemma messages_app (ev ev' : list main_event) :
  messages (ev ++ ev') = messages ev ++ messages ev'.
Proof.
  induction ev as [|e ev IH]; simpl; [reflexivity|].
  destruct e; simpl; rewrite ?IH; reflexivity.
Qed.

Lemma alloc_events (calls : list api_call) :
  probes (map EvAlloc calls) = [] /\ removals (map EvAlloc calls) = [] /\
  messages (map EvAlloc calls) = [].
Proof. induction calls as [|c calls IH]; simpl; [auto | exact IH]. Qed.

Lemma verify_events (ev : list event) :
  probes (map EvVerify ev) = ev /\ removals (map EvVerify ev) = [] /\
  messages (map EvVerify ev) = [].
Proof.
  induction ev as [|e ev (IH1 & IH2 & IH3)]; simpl; [auto|].
  rewrite IH1. auto.
Qed.

(** X15. maxspace's [main] removes the verification file after every
    verification that returns, passed or failed, and at no other time: a
    deletion is attempted exactly when [VerifyTheFile] returned, and then
    once. When the process dies (inside [CreateVerifyFile] or
    [VerifyTheFile]) nothing is removed and no failure line is printed:
    the verification file stays on the drive. [main] returns 0 exactly
    when the file was removed and none of the failure lines (creation,
    verification, deletion) was printed. *)
Theorem X15_main_cleans_up :
  forall (W : Type) (api : FileApi W) (host : SpacechkMain.HostApi W)
         (fuel : nat) (os : alloc_os) (argv : list string) (w : W)
         code w' ev,
    main fuel os argv w = Some (code, w', ev) ->
    (code = SpacechkMain.AccessViolation ->
     removals ev = [] /\ messages ev = []) /\
    (code <> SpacechkMain.AccessViolation ->
     (probes ev = [] <-> removals ev = [])) /\
    (List.length (removals ev) <= 1)%nat /\
    (code = SpacechkMain.Exit 0 <-> removals ev <> [] /\ messages ev = []).
Proof.
  intros W api host fuel os argv w code w' ev. unfold main.
  destruct argv as [|prog [|arg args]].
  1,2: intros [= <- <- <-]; simpl; repeat split; auto;
    try discriminate; intros [H _]; contradiction.
  destruct (parse_args w (arg :: args) None justPath) as [p a|bad|].
  2,3: intros [= <- <- <-]; simpl; repeat split; auto;
    try discriminate; intros [H _]; contradiction.
  destruct (SpacechkMain.GetDiskFreeSpaceA w p) as [st|].
  2:{ intros [= <- <- <-]; simpl; repeat split; auto;
      try discriminate; intros [H _]; contradiction. }
  destruct (main_space _ _ _ _) as [[freeSpace totalSpace]|].
  2:{ intros [= <- <- <-]; simpl; repeat split; auto;
      try discriminate; intros [H _]; contradiction. }
  assert (Hstats : forall l,
             probes ((if SpacechkMain.has a outputStats
                      then [EvStats totalSpace freeSpace] else []) ++ l)
             = probes l /\
             removals ((if SpacechkMain.has a outputStats
                        then [EvStats totalSpace freeSpace] else []) ++ l)
             = removals l /\
             messages ((if SpacechkMain.has a outputStats
                        then [EvStats totalSpace freeSpace] else []) ++ l)
             = messages l).
  { intros l. destruct (SpacechkMain.has a outputStats); simpl; auto. }
  destruct (CreateVerifyFile os freeSpace) as [made calls].
  destruct (alloc_events calls) as (A1 & A2 & A3).
  destruct made as [[|]|].
  2:{ intros [= <- <- <-].
      destruct (Hstats (map EvAlloc calls ++ [EvMessage "File creation failed"]))
        as (-> & -> & ->).
      rewrite probes_app, removals_app, messages_app, A1, A2, A3. simpl.
      repeat split; auto; try discriminate; intros [H _]; contradiction. }
  2:{ intros [= <- <- <-].
      destruct (Hstats (map EvAlloc calls)) as (-> & -> & ->).
      rewrite A1, A2, A3. simpl.
      repeat split; auto; try discriminate; try contradiction;
        intros [H _]; contradiction. }
  destruct (VerifyTheFile fuel _ _ _ w) as [[[verified w1] ev1]|] eqn:Hv;
    [|discriminate].
  destruct (VerifyTheFile_reads _ _ _ _ _ _ _ _ Hv) as (Hhd & _).
  assert (Hne : ev1 <> []) by (intros ->; discriminate Hhd).
  destruct (verify_events ev1) as (V1 & V2 & V3).
  destruct verified as [verified|].
  2:{ intros [= <- <- <-].
      match goal with
      | |- context [?s ++ map EvAlloc calls ++ ?rest] =>
          destruct (Hstats (map EvAlloc calls ++ rest)) as (-> & -> & ->)
      end.
      rewrite !probes_app, !removals_app, !messages_app, A1, A2, A3,
        V1, V2, V3. simpl.
      repeat split; auto; try discriminate; try contradiction;
        intros [H _]; contradiction. }
  unfold DeleteVerifyFile.
  destruct (SpacechkMain.DeleteFile w1 _) as [deleted w2].
  intros [= <- <- <-].
  match goal with
  | |- context [?s ++ map EvAlloc calls ++ ?rest] =>
      destruct (Hstats (map EvAlloc calls ++ rest)) as (-> & -> & ->)
  end.
  rewrite !probes_app, !removals_app, !messages_app, A1, A2, A3, V1, V2, V3.
  destruct verified, deleted; simpl; rewrite ?app_nil_r;
    repeat split; auto; try discriminate; try lia;
    try (intros E; exfalso; apply Hne; exact E);
    try (intros [_ E]; discriminate E);
    try (intros E; apply app_eq_nil in E; destruct E as [_ E]; discriminate E).
Qed.

Lemma X15_cleans_up_witness :
  match @main sim (unreadable_from verifySize) sim_host 6 os_grants_all
              ["maxspace"; "E:\"] sound_drive with
  | Some (code, _, ev) =>
      code = SpacechkMain.AccessViolation /\
      removals ev = [] /\ messages ev = []
  | None => False
  end.
Proof.
  destruct (@main sim (unreadable_from verifySize) sim_host 6 os_grants_all
                  ["maxspace"; "E:\"] sound_drive)
    as [[[code w'] ev]|] eqn:Hrun.
  - destruct (X15_main_cleans_up _ _ _ _ _ _ _ _ _ _ Hrun) as (Hdie & _).
    assert (E : match @main sim (unreadable_from verifySize) sim_host 6
                            os_grants_all ["maxspace"; "E:\"] sound_drive
                with
                | Some (c, _, _) => c = SpacechkMain.AccessViolation
                | None => False
                end) by (vm_compute; reflexivity).
    rewrite Hrun in E. split; [exact E | exact (Hdie E)].
  - runs_out Hrun.
Defined.

End MaxspaceFacts.

(** ** The single-file prober on the simulated drive *)

Lemma check_agree (b b' : buffer) (size expected : Z) :
  32 <= size ->
  (forall k, 0 <= k < size -> b k = b' k) ->
  check b size expected = check b' size expected.
Proof.
  intros Hsize H.
  assert (Hq : 8 <= size / 4 /\ 4 * (size / 4) <= size)
    by (Z.div_mod_to_equations; lia).
  assert (Hl : forall o, In o [0; 1; 2; 3] ->
                         load64 b (o * (size / 4)) = load64 b' (o * (size / 4))).
  { intros o Ho. unfold load64. apply load_le_ext. intros k Hk. apply H.
    simpl in Ho. destruct Ho as [<-|[<-|[<-|[<-|[]]]]]; lia. }
  unfold check, first_mismatch. simpl (0 + 1). simpl (1 + 1). simpl (2 + 1).
  rewrite !Hl by (simpl; auto). reflexivity.
Qed.

Lemma check_stamped (b : buffer) (size count : Z) :
  32 <= size -> check (stamp b size (marker count)) size (marker count) = None.
Proof.
  intros Hsize.
  assert (Hq : 8 <= size / 4) by (Z.div_mod_to_equations; lia).
  pose proof (wrap64_bounds (count + 1)) as Hm. fold (marker count) in Hm.
  assert (Hs : forall o, In o [0; 1; 2; 3] ->
                 load64 (stamp b size (marker count)) (o * (size / 4))
                 = marker count).
  { intros o Ho. unfold stamp, stamp_from.
    simpl (0 + 1). simpl (1 + 1). simpl (2 + 1).
    simpl in Ho. destruct Ho as [<-|[<-|[<-|[<-|[]]]]].
    - rewrite !load64_store64_other by lia. rewrite load64_store64_same.
      apply Z.mod_small. exact Hm.
    - rewrite !load64_store64_other by lia. rewrite load64_store64_same.
      apply Z.mod_small. exact Hm.
    - rewrite load64_store64_other by lia. rewrite load64_store64_same.
      apply Z.mod_small. exact Hm.
    - rewrite load64_store64_same. apply Z.mod_small. exact Hm. }
  unfold check, first_mismatch. simpl (0 + 1). simpl (1 + 1). simpl (2 + 1).
  rewrite !Hs by (simpl; auto). rewrite Z.eqb_refl. reflexivity.
Qed.

Lemma check_blank (b : buffer) (size count : Z) :
  32 <= size -> 0 <= count < 2 ^ 64 - 1 ->
  (forall k, 0 <= k < 8 -> b k = 0) ->
  check b size (marker count) = Some (0, 0).
Proof.
  intros Hsize Hc Hz. unfold check, first_mismatch. simpl (0 * _).
  assert (Hl : load64 b 0 = 0).
  { unfold load64. rewrite (load_le_ext 8 b (fun _ => 0) 0); [reflexivity|].
    intros k Hk. apply Hz. simpl in Hk. lia. }
  rewrite Hl. unfold marker. rewrite wrap64_small by lia.
  destruct (Z.eqb_spec 0 (count + 1)); [lia | reflexivity].
Qed.

Module DriveFacts.
Import Maxspace.

Lemma counted_exact (n : nat) :
  forall count : Z,
    0 <= count -> count + Z.of_nat n < 2 ^ 64 ->
    counted n count = count + Z.of_nat n.
Proof.
  induction n as [|n IH]; intros count H0 H1.
  - simpl. lia.
  - unfold counted in *. simpl Nat.iter. rewrite IH by lia.
    rewrite wrap64_small by lia. lia.
Qed.

Lemma counted_shift (n : nat) (count : Z) :
  counted (S n) count = counted n (wrap64 (count + 1)).
Proof.
  unfold counted. induction n as [|n IH]; [reflexivity|].
  simpl Nat.iter in *. rewrite IH. reflexivity.
Qed.

Section Drive.
Variables (hard soft : Z) (junk : buffer) (sectorSize : Z) (noReads : bool).
Hypothesis Hsector : 32 <= sectorSize <= verifySize.

Lemma good_block (i count : Z) (buf : buffer) (d : sim) :
  intact hard soft junk i d -> 0 <= i ->
  passes hard soft sectorSize noReads i ->
  exists b' d' ev,
    probe_block sectorSize noReads i count buf d = (None, b', d', ev) /\
    intact hard soft junk (i + verifySize) d'.
Proof.
  intros (Hh & Hs & Hd) Hi (Hfit & Hseen).
  unfold probe_block. cbn [SetFilePointerEx WriteFile ReadFile sim_api].
  unfold sim_seek at 1. destruct (Z.ltb_spec i 0) as [|_]; [lia|].
  simpl negb. cbv iota.
  unfold sim_write. cbn [sim_hard sim_pos sim_soft sim_size sim_data].
  rewrite Hh. destruct (Z.ltb_spec hard (i + sectorSize)) as [|_]; [lia|].
  rewrite Z.eqb_refl. simpl negb. cbv iota.
  destruct noReads eqn:Hmode.
  - do 3 eexists. split; [reflexivity|].
    split; [reflexivity|]. split; [exact Hs|].
    cbn [sim_data]. intros x Hx.
    destruct (sim_soft d <=? i); [apply Hd; lia|].
    destruct (Z.leb_spec i x); destruct (Z.ltb_spec x (i + sectorSize));
      simpl; try (apply Hd; lia). lia.
  - destruct Hseen as [Hseen|Hseen]; [discriminate|].
    unfold sim_seek. destruct (Z.ltb_spec i 0) as [|_]; [lia|].
    simpl negb. cbv iota.
    unfold sim_read. cbn [sim_hard sim_pos sim_soft sim_size sim_data].
    rewrite Hs. destruct (Z.leb_spec soft i) as [|_]; [lia|].
    replace (Z.max 0 (Z.min sectorSize
                        (Z.max (sim_size d) (i + sectorSize) - i)))
      with sectorSize by lia.
    rewrite Z.eqb_refl. simpl negb. cbv iota.
    match goal with
    | |- context [check ?b3 sectorSize (marker count)] =>
        rewrite (check_agree b3
                   (stamp (memset buf 0 sectorSize) sectorSize (marker count))
                   sectorSize (marker count))
    end.
    + rewrite check_stamped by lia.
      do 3 eexists. split; [reflexivity|].
      split; [reflexivity|]. split; [reflexivity|].
      cbn [sim_data]. intros x Hx.
      destruct (Z.leb_spec i x); destruct (Z.ltb_spec x (i + sectorSize));
        simpl; try (apply Hd; lia). lia.
    + lia.
    + intros k Hk. cbv beta.
      destruct (Z.leb_spec 0 k); destruct (Z.ltb_spec k sectorSize);
        simpl; try lia.
      destruct (Z.leb_spec i (i + k));
        destruct (Z.ltb_spec (i + k) (i + sectorSize)); simpl; try lia.
      f_equal. lia.
Qed.

Lemma refused_block (i count : Z) (buf : buffer) (d : sim) :
  intact hard soft junk i d -> 0 <= i -> hard < i + sectorSize ->
  exists b' d',
    probe_block sectorSize noReads i count buf d
    = (Some WriteFailed, b', d',
       [EvSeek i; EvWrite i sectorSize; EvOutputSize i]).
Proof.
  intros (Hh & Hs & Hd) Hi Hover.
  unfold probe_block. cbn [SetFilePointerEx WriteFile ReadFile sim_api].
  unfold sim_seek at 1. destruct (Z.ltb_spec i 0) as [|_]; [lia|].
  simpl negb. cbv iota.
  unfold sim_write. cbn [sim_hard sim_pos sim_soft sim_size sim_data].
  rewrite Hh. destruct (Z.ltb_spec hard (i + sectorSize)) as [_|]; [|lia].
  do 2 eexists. reflexivity.
Qed.

Lemma dropped_block (i count : Z) (buf : buffer) (d : sim) :
  intact hard soft junk i d -> 0 <= i ->
  i + sectorSize <= hard -> soft <= i -> noReads = false ->
  (forall x, soft <= x -> junk x = 0) ->
  0 <= count < 2 ^ 64 - 1 ->
  exists b' d',
    probe_block sectorSize noReads i count buf d
    = (Some (Mismatch 0 0), b', d',
       [EvSeek i; EvWrite i sectorSize; EvSeek i; EvRead i sectorSize;
        EvOutputSize i]).
Proof.
  intros (Hh & Hs & Hd) Hi Hfit Hdrop Hmode Hzero Hcount.
  unfold probe_block. cbn [SetFilePointerEx WriteFile ReadFile sim_api].
  unfold sim_seek at 1. destruct (Z.ltb_spec i 0) as [|_]; [lia|].
  simpl negb. cbv iota.
  unfold sim_write. cbn [sim_hard sim_pos sim_soft sim_size sim_data].
  rewrite Hh. destruct (Z.ltb_spec hard (i + sectorSize)) as [|_]; [lia|].
  rewrite Z.eqb_refl. simpl negb. cbv iota. rewrite Hmode.
  unfold sim_seek. destruct (Z.ltb_spec i 0) as [|_]; [lia|].
  simpl negb. cbv iota.
  unfold sim_read. cbn [sim_hard sim_pos sim_soft sim_size sim_data].
  rewrite Hs. destruct (Z.leb_spec soft i) as [_|]; [|lia].
  replace (Z.max 0 (Z.min sectorSize
                      (Z.max (sim_size d) (i + sectorSize) - i)))
    with sectorSize by lia.
  rewrite Z.eqb_refl. simpl negb. cbv iota.
  rewrite check_blank; [do 2 eexists; reflexivity | lia | exact Hcount |].
  intros k Hk. cbv beta.
  destruct (Z.leb_spec 0 k); destruct (Z.ltb_spec k sectorSize);
    simpl; try lia.
  rewrite Hd by lia. apply Hzero. lia.
Qed.

(** [n] blocks in a row that pass: the loop goes through them and is
    then at the next offset, with the medium beyond untouched. *)
Lemma good_prefix (fileSize : Z) (n : nat) :
  fileSize <= 2 ^ 63 - verifySize ->
  forall (i count : Z) (buf : buffer) (d : sim),
    intact hard soft junk i d -> 0 <= i ->
    (forall j, (j < n)%nat ->
               passes hard soft sectorSize noReads (i + Z.of_nat j * verifySize)
               /\ i + Z.of_nat j * verifySize < fileSize) ->
    exists b' d' evs,
      intact hard soft junk (i + Z.of_nat n * verifySize) d' /\
      probed evs = map (fun j => i + Z.of_nat j * verifySize) (seq 0 n) /\
      reported evs = [] /\
      forall fuel,
        probe_loop (n + fuel) sectorSize noReads fileSize i count buf d
        = match probe_loop fuel sectorSize noReads fileSize
                           (i + Z.of_nat n * verifySize) (counted n count)
                           b' d' with
          | Some (r, w, ev) => Some (r, w, evs ++ ev)
          | None => None
          end.
Proof.
  intros Hsize. induction n as [|n IH]; intros i count buf d Hint Hi Hall.
  - exists buf, d, []. split; [|split; [|split]].
    + simpl. rewrite Z.add_0_r. exact Hint.
    + reflexivity.
    + reflexivity.
    + intros fuel. simpl Nat.add. simpl Z.of_nat. rewrite Z.add_0_r.
      unfold counted. simpl Nat.iter.
      destruct (probe_loop fuel sectorSize noReads fileSize i count buf d)
        as [[[r w] ev]|]; reflexivity.
  - destruct (Hall 0%nat ltac:(lia)) as [Hpass Hlt].
    simpl Z.of_nat in Hpass, Hlt. rewrite Z.add_0_r in Hpass, Hlt.
    destruct (good_block i count buf d Hint Hi Hpass)
      as (b1 & d1 & ev1 & Hblock & Hint1).
    destruct (ProbeFacts.probe_block_events _ _ _ _ _ _ _ _ _ _ Hblock)
      as (_ & Hrep & _ & Hpr).
    assert (Hi1 : 0 <= i + verifySize) by (unfold verifySize, MiB, KiB; lia).
    destruct (IH (i + verifySize) (wrap64 (count + 1)) b1 d1 Hint1 Hi1)
      as (b' & d' & evs & Hint' & Hprobed & Hreported & Hloop).
    { intros j Hj. destruct (Hall (S j) ltac:(lia)) as [Hp Hl].
      rewrite Nat2Z.inj_succ in Hp, Hl.
      replace (i + verifySize + Z.of_nat j * verifySize)
        with (i + Z.succ (Z.of_nat j) * verifySize) by lia.
      split; assumption. }
    exists b', d', (ev1 ++ evs). split; [|split; [|split]].
    + replace (i + Z.of_nat (S n) * verifySize)
        with (i + verifySize + Z.of_nat n * verifySize)
        by (rewrite Nat2Z.inj_succ; lia).
      exact Hint'.
    + rewrite ProbeFacts.probed_app, (Hpr eq_refl), Hprobed.
      cbn [seq map app]. f_equal; [simpl Z.of_nat; lia|].
      rewrite <- seq_shift, map_map. apply map_ext. intros j.
      rewrite Nat2Z.inj_succ. lia.
    + rewrite ProbeFacts.reported_app, Hrep, Hreported. reflexivity.
    + intros fuel. simpl Nat.add. cbn [probe_loop].
      destruct (Z.ltb_spec i fileSize) as [_|]; [|lia].
      rewrite Hblock.
      rewrite signed64_small by (unfold verifySize, MiB, KiB in *; lia).
      rewrite Hloop, counted_shift.
      replace (i + Z.of_nat (S n) * verifySize)
        with (i + verifySize + Z.of_nat n * verifySize)
        by (rewrite Nat2Z.inj_succ; lia).
      destruct (probe_loop fuel sectorSize noReads fileSize _ _ b' d')
        as [[[r w] ev]|]; [|reflexivity].
      rewrite app_assoc. reflexivity.
Qed.

End Drive.

Lemma fresh_intact (size hard soft : Z) (junk : buffer) :
  intact hard soft junk 0 (fresh size hard soft junk).
Proof. repeat split. Qed.

Lemma probe_loop_ends (W : Type) (api : FileApi W) (fuel : nat)
      (sectorSize : Z) (noReads : bool) (fileSize i count : Z)
      (buf : buffer) (w : W) :
  fileSize <= i ->
  probe_loop (S fuel) sectorSize noReads fileSize i count buf w
  = Some (Returns true, CloseHandle w, [EvOutputSize fileSize; EvClose]).
Proof.
  intros H. simpl. destruct (Z.ltb_spec i fileSize); [lia | reflexivity].
Qed.

(** X19. No false alarm: on a drive that refuses no write up to the end
    of the file and drops none below it, the pass succeeds for every file
    size, sector size and previous content of the medium, having written
    a block at every stride offset below the file size and printed the
    file size as the capacity. In write-only mode the same holds however
    many writes the drive drops: dropped writes go unnoticed. *)
Theorem X19_sound_drive_passes :
  forall (size hard soft : Z) (junk : buffer) (sectorSize : Z)
         (noReads cached : bool) (fuel : nat),
    32 <= sectorSize <= verifySize ->
    0 <= size <= 2 ^ 63 - verifySize ->
    size + sectorSize <= hard ->
    noReads = true \/ size <= soft ->
    (Z.to_nat ((size + verifySize - 1) / verifySize) < fuel)%nat ->
    exists w' ev,
      VerifyTheFile fuel sectorSize noReads cached
                    (fresh size hard soft junk)
      = Some (Returns true, w', ev) /\
      probed ev = stride_offsets size /\
      reported ev = [size].
Proof.
  intros size hard soft junk sectorSize noReads cached fuel
         Hsector Hsize Hhard Hsoft Hfuel.
  set (n := Z.to_nat ((size + verifySize - 1) / verifySize)) in *.
  assert (Hq : 0 <= (size + verifySize - 1) / verifySize)
    by (apply Z.div_pos; unfold verifySize, MiB, KiB; lia).
  assert (Hn : Z.of_nat n = (size + verifySize - 1) / verifySize)
    by (unfold n; apply Z2Nat.id; exact Hq).
  destruct (good_prefix hard soft junk sectorSize noReads Hsector size n
              (proj2 Hsize) 0 0 (fun _ => 0) (fresh size hard soft junk)
              (fresh_intact size hard soft junk) (Z.le_refl 0))
    as (b' & d' & evs & _ & Hprobed & Hreported & Hloop).
  { intros j Hj.
    assert (Hlt : Z.of_nat j * verifySize < size).
    { assert (Z.of_nat j < (size + verifySize - 1) / verifySize) by lia.
      unfold verifySize, MiB, KiB in *. Z.div_mod_to_equations. lia. }
    split; [|lia]. split; [lia|].
    destruct Hsoft as [Hs|Hs]; [left; exact Hs | right; lia]. }
  unfold VerifyTheFile. cbn [OpenExisting GetFileSizeEx aligned_malloc sim_api].
  cbn [fresh sim_size]. simpl negb. cbv iota.
  replace fuel with (n + S (fuel - n - 1))%nat by lia.
  fold (fresh size hard soft junk). rewrite Hloop.
  rewrite probe_loop_ends.
  2:{ rewrite Z.add_0_l, Hn. unfold verifySize, MiB, KiB in *.
      Z.div_mod_to_equations. lia. }
  do 2 eexists. split; [reflexivity|]. split.
  - simpl probed. rewrite ProbeFacts.probed_app, Hprobed. simpl.
    rewrite app_nil_r. unfold stride_offsets, offsets_from.
    rewrite Z.sub_0_r. reflexivity.
  - simpl reported. rewrite ProbeFacts.reported_app, Hreported. reflexivity.
Qed.

Lemma X19_sound_witness :
  exists w' ev,
    VerifyTheFile 4 4096 false false
                  (fresh 31457280 (2 ^ 40) (2 ^ 40) (fun _ => 255))
    = Some (Returns true, w', ev) /\
    probed ev = stride_offsets 31457280 /\
    reported ev = [31457280].
Proof.
  apply X19_sound_drive_passes.
  - unfold verifySize, MiB, KiB. lia.
  - unfold verifySize, MiB, KiB. lia.
  - lia.
  - right. lia.
  - vm_compute. lia.
Defined.

(** X20. A truncated drive is caught at the first stride offset whose
    sector no longer fits: when writes reaching past [hard] are refused,
    the pass fails at block [k], the first whose sector ends beyond
    [hard], prints its offset as the capacity, and has written (or tried
    to write) exactly the blocks 0 to [k]. *)
Theorem X20_truncated_drive_located :
  forall (size hard soft : Z) (junk : buffer) (sectorSize : Z)
         (noReads cached : bool) (fuel k : nat),
    32 <= sectorSize <= verifySize ->
    0 <= size <= 2 ^ 63 - verifySize ->
    Z.of_nat k * verifySize < size ->
    hard < Z.of_nat k * verifySize + sectorSize ->
    k = 0%nat \/ (Z.of_nat k - 1) * verifySize + sectorSize <= hard ->
    noReads = true \/ Z.of_nat k * verifySize <= soft ->
    (k < fuel)%nat ->
    exists w' ev,
      VerifyTheFile fuel sectorSize noReads cached
                    (fresh size hard soft junk)
      = Some (Returns false, w', ev) /\
      reported ev = [Z.of_nat k * verifySize] /\
      probed ev = map (fun j => Z.of_nat j * verifySize) (seq 0 (S k)).
Proof.
  intros size hard soft junk sectorSize noReads cached fuel k
         Hsector Hsize Hk Hover Hbefore Hsoft Hfuel.
  destruct (good_prefix hard soft junk sectorSize noReads Hsector size k
              (proj2 Hsize) 0 0 (fun _ => 0) (fresh size hard soft junk)
              (fresh_intact size hard soft junk) (Z.le_refl 0))
    as (b' & d' & evs & Hint & Hprobed & Hreported & Hloop).
  { intros j Hj.
    assert (Hjk : Z.of_nat j <= Z.of_nat k - 1) by lia.
    assert (Hu : 0 < verifySize) by (unfold verifySize, MiB, KiB; lia).
    split; [|nia]. split.
    - destruct Hbefore as [->|Hb]; [lia|]. nia.
    - destruct Hsoft as [Hs|Hs]; [left; exact Hs | right; nia]. }
  rewrite Z.add_0_l in Hint.
  destruct (refused_block hard soft junk sectorSize noReads
              (Z.of_nat k * verifySize) (counted k 0) b' d' Hint
              ltac:(unfold verifySize, MiB, KiB; lia) Hover)
    as (b2 & d2 & Hblock).
  unfold VerifyTheFile. cbn [OpenExisting GetFileSizeEx aligned_malloc sim_api].
  cbn [fresh sim_size]. simpl negb. cbv iota.
  replace fuel with (k + S (fuel - k - 1))%nat by lia.
  fold (fresh size hard soft junk). rewrite Hloop. rewrite Z.add_0_l.
  rewrite (ProbeFacts.probe_loop_stops sectorSize noReads size _ _ _ _ _
             WriteFailed _ _ _ Hk ltac:(discriminate) Hblock).
  do 2 eexists. split; [reflexivity|]. split.
  - simpl reported. rewrite ProbeFacts.reported_app, Hreported. reflexivity.
  - simpl probed. rewrite ProbeFacts.probed_app, Hprobed. simpl probed.
    replace (S k) with (k + 1)%nat by lia.
    rewrite seq_app, map_app. simpl. reflexivity.
Qed.

Lemma X20_truncated_witness :
  exists w' ev,
    VerifyTheFile 200 4096 false false
                  (fresh 10737418240 1073741824 (2 ^ 40) (fun _ => 0))
    = Some (Returns false, w', ev) /\
    reported ev = [Z.of_nat 103 * verifySize] /\
    probed ev = map (fun j => Z.of_nat j * verifySize) (seq 0 104).
Proof.
  apply X20_truncated_drive_located.
  - unfold verifySize, MiB, KiB. lia.
  - unfold verifySize, MiB, KiB. lia.
  - unfold verifySize, MiB, KiB. lia.
  - unfold verifySize, MiB, KiB. lia.
  - right. unfold verifySize, MiB, KiB. lia.
  - right. unfold verifySize, MiB, KiB. lia.
  - lia.
Defined.

(** X21. A drive that acknowledges and drops writes is caught by the
    read-back at the first stride offset at or beyond the point from
    which it drops them, provided the medium reads as zero there: the
    pass fails at that block, the first one whose data does not come
    back, prints its offset as the capacity, and has written exactly the
    blocks 0 to [k]. *)
Theorem X21_dropped_writes_located :
  forall (size hard soft : Z) (junk : buffer) (sectorSize : Z)
         (cached : bool) (fuel k : nat),
    32 <= sectorSize <= verifySize ->
    0 <= size <= 2 ^ 63 - verifySize ->
    Z.of_nat k * verifySize < size ->
    soft <= Z.of_nat k * verifySize ->
    k = 0%nat \/ (Z.of_nat k - 1) * verifySize < soft ->
    Z.of_nat k * verifySize + sectorSize <= hard ->
    (forall x, soft <= x -> junk x = 0) ->
    (k < fuel)%nat ->
    exists w' ev,
      VerifyTheFile fuel sectorSize false cached
                    (fresh size hard soft junk)
      = Some (Returns false, w', ev) /\
      reported ev = [Z.of_nat k * verifySize] /\
      probed ev = map (fun j => Z.of_nat j * verifySize) (seq 0 (S k)).
Proof.
  intros size hard soft junk sectorSize cached fuel k
         Hsector Hsize Hk Hdrop Hbefore Hfit Hzero Hfuel.
  assert (Hu : 0 < verifySize) by (unfold verifySize, MiB, KiB; lia).
  destruct (good_prefix hard soft junk sectorSize false Hsector size k
              (proj2 Hsize) 0 0 (fun _ => 0) (fresh size hard soft junk)
              (fresh_intact size hard soft junk) (Z.le_refl 0))
    as (b' & d' & evs & Hint & Hprobed & Hreported & Hloop).
  { intros j Hj.
    assert (Hjk : Z.of_nat j <= Z.of_nat k - 1) by lia.
    split; [|nia]. split; [nia|].
    right. destruct Hbefore as [->|Hb]; [lia | nia]. }
  rewrite Z.add_0_l in Hint.
  assert (Hcount : counted k 0 = Z.of_nat k).
  { rewrite counted_exact; unfold verifySize, MiB, KiB in *; lia. }
  destruct (dropped_block hard soft junk sectorSize false Hsector
              (Z.of_nat k * verifySize) (counted k 0) b' d' Hint
              ltac:(lia) Hfit Hdrop eq_refl Hzero
              ltac:(rewrite Hcount; unfold verifySize, MiB, KiB in *; lia))
    as (b2 & d2 & Hblock).
  unfold VerifyTheFile. cbn [OpenExisting GetFileSizeEx aligned_malloc sim_api].
  cbn [fresh sim_size]. simpl negb. cbv iota.
  replace fuel with (k + S (fuel - k - 1))%nat by lia.
  fold (fresh size hard soft junk).
  pose proof (Hloop (S (fuel - k - 1))) as Hrun. rewrite Z.add_0_l in Hrun.
  rewrite (ProbeFacts.probe_loop_stops sectorSize false size _ _ _ _ _
             (Mismatch 0 0) _ _ _ Hk ltac:(discriminate) Hblock) in Hrun.
  rewrite Hrun.
  do 2 eexists. split; [reflexivity|].
  assert (Hp : probed (evs ++ [EvSeek (Z.of_nat k * verifySize);
                               EvWrite (Z.of_nat k * verifySize) sectorSize;
                               EvSeek (Z.of_nat k * verifySize);
                               EvRead (Z.of_nat k * verifySize) sectorSize;
                               EvOutputSize (Z.of_nat k * verifySize)]
                           ++ [EvClose])
               = map (fun j => Z.of_nat j * verifySize) (seq 0 (S k))).
  { rewrite ProbeFacts.probed_app, Hprobed. simpl probed.
    replace (S k) with (k + 1)%nat by lia.
    rewrite seq_app, map_app. simpl. reflexivity. }
  split.
  - simpl reported. rewrite ProbeFacts.reported_app, Hreported. reflexivity.
  - exact Hp.
Qed.

Lemma X21_dropped_witness :
  exists w' ev,
    VerifyTheFile 200 4096 false false
                  (fresh 10737418240 (2 ^ 40) 1073741824 (fun _ => 0))
    = Some (Returns false, w', ev) /\
    reported ev = [Z.of_nat 103 * verifySize] /\
    probed ev = map (fun j => Z.of_nat j * verifySize) (seq 0 104).
Proof.
  apply X21_dropped_writes_located.
  - unfold verifySize, MiB, KiB. lia.
  - unfold verifySize, MiB, KiB. lia.
  - unfold verifySize, MiB, KiB. lia.
  - unfold verifySize, MiB, KiB. lia.
  - right. unfold verifySize, MiB, KiB. lia.
  - unfold verifySize, MiB, KiB. lia.
  - intros x _. reflexivity.
  - lia.
Defined.

End DriveFacts.

(** ** Segment creation on a fault-free volume *)

Module StoreFacts.
Import Spacechk.

Lemma lookup_put_same (fs : list file) (name : string) (f : file) :
  f_name f = name -> lookup (put fs name f) name = Some f.
Proof.
  intros Hf. induction fs as [|g fs IH]; simpl.
  - rewrite Hf, String.eqb_refl. reflexivity.
  - destruct (String.eqb_spec (f_name g) name) as [E|E]; simpl.
    + rewrite Hf, String.eqb_refl. reflexivity.
    + destruct (String.eqb_spec (f_name g) name); [contradiction | exact IH].
Qed.

Lemma lookup_put_other (fs : list file) (name name' : string) (f : file) :
  f_name f = name -> name' <> name ->
  lookup (put fs name f) name' = lookup fs name'.
Proof.
  intros Hf Hne. induction fs as [|g fs IH]; simpl.
  - rewrite Hf. destruct (String.eqb_spec name name'); [congruence | reflexivity].
  - destruct (String.eqb_spec (f_name g) name) as [E|E]; simpl.
    + rewrite Hf.
      destruct (String.eqb_spec name name'); [congruence|].
      destruct (String.eqb_spec (f_name g) name'); [congruence | reflexivity].
    + destruct (String.eqb_spec (f_name g) name'); [reflexivity | exact IH].
Qed.

Lemma CreateAlways_healthy (fs : list file) (name : string) :
  CreateAlways (healthy fs) name
  = (true, healthy (put fs name {| f_name := name; f_dir := false;
                                   f_len := 0; f_data := fun _ => 0 |})).
Proof. reflexivity. Qed.

Lemma WriteFile_healthy (fs : list file) (name : string) (b : buffer) (n : Z) :
  WriteFile (healthy fs) name b n
  = (Some n,
     healthy (put fs name
                  {| f_name := name; f_dir := false; f_len := n;
                     f_data := fun j => if (0 <=? j) && (j <? n) then b j
                                        else 0 |})).
Proof. reflexivity. Qed.

(** On a fault-free volume the creation loop succeeds, leaves every
    segment it was asked for with its marker in the four slots, and no
    other file changed. *)
Lemma create_loop_healthy (n : nat) :
  forall (pathName : string) (i : Z) (buf : buffer) (fs : list file),
    0 <= i -> i + Z.of_nat n < 2 ^ 64 ->
    exists fs' ev,
      create_loop n pathName i buf (healthy fs) = (true, healthy fs', ev) /\
      SpacechkMain.errors ev = [] /\
      (forall j, i <= j < i + Z.of_nat n ->
                 holds fs' (segment_name pathName j) (j + 1)) /\
      (forall name,
          (forall j, i <= j < i + Z.of_nat n ->
                     name <> segment_name pathName j) ->
          lookup fs' name = lookup fs name).
Proof.
  induction n as [|n IH]; intros pathName i buf fs Hi Hn.
  - exists fs, []. simpl. split; [reflexivity|]. split; [reflexivity|].
    split; [intros j Hj; lia | intros name _; reflexivity].
  - set (name := segment_name pathName i).
    set (b1 := stamp buf fileIOSize (marker i)).
    set (f0 := {| f_name := name; f_dir := false; f_len := 0;
                  f_data := fun _ => 0 |}).
    set (f1 := {| f_name := name; f_dir := false; f_len := fileIOSize;
                  f_data := fun j => if (0 <=? j) && (j <? fileIOSize)
                                     then b1 j else 0 |}).
    cbn [create_loop]. fold name. fold b1.
    rewrite (CreateAlways_healthy fs name). fold f0.
    simpl negb. cbv iota.
    rewrite (WriteFile_healthy (put fs name f0) name b1 fileIOSize). fold f1.
    rewrite Z.eqb_refl. simpl negb. cbv iota.
    cbn [CloseHandle vol_api].
    destruct (IH pathName (i + 1) b1 (put (put fs name f0) name f1))
      as (fs' & ev & Hrun & Herr & Hheld & Hframe); [lia | lia |].
    rewrite Hrun. exists fs'. eexists. split; [reflexivity|].
    split; [simpl; exact Herr|]. split.
    + intros j Hj. destruct (Z.eq_dec j i) as [->|Hne].
      * unfold holds. exists f1. split; [|split].
        -- rewrite Hframe.
           ++ apply lookup_put_same. reflexivity.
           ++ intros j Hj'. apply NameFacts.segment_name_differs; lia.
        -- reflexivity.
        -- intros o Ho. cbn [f_data f1].
           assert (Hq : 8 <= fileIOSize / 4 /\ 4 * (fileIOSize / 4) <= fileIOSize)
             by (unfold fileIOSize, MiB, KiB; Z.div_mod_to_equations; lia).
           rewrite <- (wrap64_small (i + 1)) by lia.
           change (wrap64 (i + 1)) with (marker i) at 1.
           rewrite <- (Z.mod_small (marker i) (2 ^ 64))
             by (unfold marker; apply wrap64_bounds).
           rewrite <- (load64_stamp buf fileIOSize (marker i) o)
             by (unfold fileIOSize, MiB, KiB; simpl; auto; lia).
           unfold load64. apply load_le_ext. intros k Hk.
           destruct (Z.leb_spec 0 k); destruct (Z.ltb_spec k fileIOSize);
             simpl; try reflexivity;
             simpl in Ho; destruct Ho as [<-|[<-|[<-|[<-|[]]]]]; lia.
      * apply Hheld. lia.
    + intros name' Hname. rewrite Hframe.
      * assert (Hne : name' <> name) by (apply Hname; lia).
        rewrite lookup_put_other by (reflexivity || exact Hne).
        apply lookup_put_other; [reflexivity | exact Hne].
      * intros j Hj. apply Hname. lia.
Qed.

(** X22. Segment creation on a fault-free volume, whatever it already
    holds: [CreateFiles] succeeds without an error line and leaves, for
    every sequence number below total space / 10 MiB, a file of that name,
    10 MiB long, with the number plus one in each of its four slots; a
    file of any other name is left as it was. *)
Theorem X22_CreateFiles_stamps_every_segment :
  forall (junk : Z) (pathName : string) (sectorSize totalSpace : Z)
         (fs : list file),
    0 <= totalSpace < 2 ^ 64 ->
    exists fs' ev,
      CreateFiles junk pathName sectorSize totalSpace (healthy fs)
      = (true, healthy fs', ev) /\
      SpacechkMain.errors ev = [] /\
      well_stamped pathName (Z.to_nat (totalSpace / fileIOSize)) (healthy fs')
      = true /\
      (forall name,
          (forall j, 0 <= j < totalSpace / fileIOSize ->
                     name <> segment_name pathName j) ->
          lookup fs' name = lookup fs name).
Proof.
  intros junk pathName sectorSize totalSpace fs Htotal.
  assert (Hq : 0 <= totalSpace / fileIOSize < 2 ^ 41)
    by (unfold fileIOSize, MiB, KiB; Z.div_mod_to_equations; lia).
  destruct (create_loop_healthy (Z.to_nat (totalSpace / fileIOSize)) pathName 0
              (memset (fun _ => 0) 0 fileIOSize) fs)
    as (fs' & ev & Hrun & Herr & Hheld & Hframe); [lia | lia |].
  rewrite Z2Nat.id in Hheld, Hframe by lia.
  unfold CreateFiles. cbn [aligned_malloc vol_api]. simpl negb. cbv iota.
  rewrite Hrun. exists fs'. eexists. split; [reflexivity|].
  split.
  { simpl. rewrite SegmentTraceFacts.errors_app, Herr. reflexivity. }
  split.
  - unfold well_stamped. apply forallb_forall. intros i Hin.
    apply in_seq in Hin. cbn [healthy vol_files].
    destruct (Hheld (Z.of_nat i)) as (f & Hf & Hlen & Hslots); [lia|].
    rewrite Hf, Hlen, Z.eqb_refl, Bool.andb_true_l.
    apply forallb_forall. intros o Ho. apply in_seq in Ho.
    apply Z.eqb_eq. apply Hslots.
    assert (Ho' : (o = 0 \/ o = 1 \/ o = 2 \/ o = 3)%nat) by lia.
    simpl. destruct Ho' as [->|[->|[->| ->]]]; simpl; auto.
  - exact Hframe.
Qed.

Lemma X22_stamps_witness :
  exists fs' ev,
    CreateFiles 0 "E:\" 512 (3 * fileIOSize + 4096)
                (healthy [blank_file "E:\sp000001.bin"])
    = (true, healthy fs', ev) /\
    SpacechkMain.errors ev = [] /\
    well_stamped "E:\" (Z.to_nat ((3 * fileIOSize + 4096) / fileIOSize))
                 (healthy fs')
    = true /\
    (forall name,
        (forall j, 0 <= j < (3 * fileIOSize + 4096) / fileIOSize ->
                   name <> segment_name "E:\" j) ->
        lookup fs' name = lookup [blank_file "E:\sp000001.bin"] name).
Proof.
  apply X22_CreateFiles_stamps_every_segment.
  unfold fileIOSize, MiB, KiB. lia.
Defined.

End StoreFacts.

(** ** C4: the marker each unit carries *)

Module MarkerFacts.

(** *** The segments [CreateFiles] writes *)

Section Segments.
Import Spacechk SpacechkMain.
Context {W : Type} (api : Win32 W).


End Segments.

(** *** The blocks [VerifyTheFile] writes and reads back *)

Section Blocks.
Import Maxspace.
Context {W : Type} (api : FileApi W).
Variables (bytesPerSector : Z) (noReads : bool).
Hypothesis Hsector : 32 <= bytesPerSector.




End Blocks.

(** *** What the comparison of a segment accepts *)






End MarkerFacts.
